(** * AnehtaLanguage front end: tokenizer, token cursor, parser, AST, type checker

    A shallow embedding of the Go sources [atoken/atoken.go],
    [atoken/atokentype.go] and of package [aparser] (grammar procedures,
    AST nodes, [AST_Number], [CheckType]).

    Conventions of the embedding
    - a Go [int] is a [Z]; every index, line and column is bounded by the
      length of the input, far below 2^63, so no wrap-around can occur;
    - a [rune] is its code point, a [Z]; a Go [string] is the list of its
      code points (the tokenizer itself works on [[]rune(data_str)]);
    - a [*list.List] is a Rocq [list]; a [*list.Element] is the position of
      the element in that list, [None] being the [nil] pointer (elements are
      only ever pushed at the back, so positions are stable);
    - a pointer that may be [nil] is an [option];
    - [os.Exit(1)], a runtime panic (nil dereference, index out of range) and
      an exhausted recursion budget are the three abnormal outcomes;
    - the trace lines printed on stdout ([fmt.Println]) are not modelled;
      the error lines of [CheckType] are, as the state of the checker. *)

From Stdlib Require Import ZArith QArith List String Ascii Bool Lia.
Import ListNotations.

Local Open Scope Z_scope.

(** ** Outcomes and the state monad of the embedding *)

Inductive outcome (S A : Type) : Type :=
| Ret (a : A) (s : S)      (* normal return, with the state left behind *)
| Exit (s : S)             (* os.Exit(1), with the state at that moment *)
| Panic                    (* Go runtime panic *)
| OutOfFuel.               (* recursion budget of the model exhausted *)

Arguments Ret {S A} a s.
Arguments Exit {S A} s.
Arguments Panic {S A}.
Arguments OutOfFuel {S A}.

Definition M (S A : Type) : Type := S -> outcome S A.

Definition ret {S A} (a : A) : M S A := fun s => Ret a s.

Definition bind {S A B} (m : M S A) (k : A -> M S B) : M S B :=
  fun s => match m s with
           | Ret a s' => k a s'
           | Exit s' => Exit s'
           | Panic => Panic
           | OutOfFuel => OutOfFuel
           end.

Definition get {S} : M S S := fun s => Ret s s.
Definition modify {S} (f : S -> S) : M S unit := fun s => Ret tt (f s).
Definition panic {S A} : M S A := fun _ => Panic.
Definition os_Exit {S A} : M S A := fun s => Exit s.
Definition timeout {S A} : M S A := fun _ => OutOfFuel.

(** Dereferencing a possibly-nil pointer. *)
Definition deref {S A} (p : option A) : M S A :=
  match p with Some a => ret a | None => panic end.

Declare Scope monad_scope.
Delimit Scope monad_scope with monad.
Notation "x <- m ;; k" := (bind m (fun x => k))
  (at level 61, m at next level, right associativity) : monad_scope.
Notation "m ;; k" := (bind m (fun _ => k))
  (at level 61, right associativity) : monad_scope.
Notation "' ( a , b ) <- m ;; k" := (bind m (fun p => let '(a, b) := p in k))
  (at level 61, m at next level, right associativity) : monad_scope.
Local Open Scope monad_scope.

(** ** Runes and strings *)

Definition rune : Type := Z.
Definition gostring : Type := list rune.

Definition rune_of (c : ascii) : rune := Z.of_N (N_of_ascii c).

Fixpoint runes (s : string) : gostring :=
  match s with
  | EmptyString => []
  | String c rest => rune_of c :: runes rest
  end.

(** The characters that cannot be written inside a Rocq string literal. *)
Definition DQUOTE : rune := 34.
Definition BACKSLASH : rune := 92.
Definition TAB : rune := 9.
Definition VTAB : rune := 11.
Definition LF : rune := 10.
Definition CR : rune := 13.

Definition len {A} (l : list A) : Z := Z.of_nat (List.length l).

(** [source[index]]: a bounds-checked slice access. *)
Definition at_index {S A} (source : list A) (index : Z) : M S A :=
  if index <? 0 then panic else deref (nth_error source (Z.to_nat index)).

(** ** Package atoken *)

Module atoken.

(** *** atokentype.go *)

Definition NUM := 1.
Definition WORD := 2.
Definition ADD := 3.
Definition SUB := 4.
Definition MUL := 5.
Definition DIV := 6.
Definition ADDSELF := 7.
Definition SUBSELF := 8.
Definition POWER := 9.
Definition NOT := 10.
Definition CASTING := 11.
Definition QUOTE := 12.
Definition GT := 13.
Definition LT := 14.
Definition GTEQ := 15.
Definition LTEQ := 16.
Definition EQ := 17.
Definition NOEQ := 18.
Definition AND := 19.
Definition OR := 20.
Definition ALSO := 21.
Definition PERHAPS := 22.
Definition ESCAPE := 23.
Definition COMPOSITE_ADD := 24.
Definition COMPOSITE_SUB := 25.
Definition COMPOSITE_MUL := 26.
Definition COMPOSITE_DIV := 27.
Definition MOD := 28.
Definition RAND := 29.
Definition FUNC := 30.
Definition IF := 31.
Definition ELSE := 32.
Definition NEW := 33.
Definition LBRACE := 34.
Definition RBRACE := 35.
Definition LBRACKET := 36.
Definition RBRACKET := 37.
Definition LP := 38.
Definition RP := 39.
Definition NUMBER := 40.
Definition INT := 41.
Definition INT64 := 42.
Definition CHAR := 43.
Definition STRING := 44.
Definition LIST := 45.
Definition MAP := 46.
Definition VAR := 47.
Definition FOR := 48.
Definition BREAK := 49.
Definition COMMA := 50.
Definition COLON := 51.
Definition SWITCH := 52.
Definition CASE := 53.
Definition ELSEIF := 54.
Definition SEMICOLON := 55.
Definition ASSIGMENT := 56.
Definition EOF := 57.
Definition RETURN := 58.
Definition TRUE := 59.
Definition FALSE := 60.
Definition CONTINUE := 61.

(** *** atoken.go: the data *)

Record AToken : Type := mkAToken {
  tok_Line : Z;
  tok_Column : Z;
  tok_Value : gostring;
  tok_Type : Z
}.

Record ALexError : Type := mkALexError {
  lex_Line : Z;
  lex_Column : Z;
  lex_error_info : gostring
}.

Record ATokenList : Type := mkATokenList {
  token_list : list AToken;
  Line : Z;
  Column : Z;
  Count : Z;
  Error_list : list ALexError;
  current_iterator : option nat
}.

Definition TM := M ATokenList.

(** [New()] followed by [Init()]. *)
Definition New : ATokenList :=
  {| token_list := []; Line := 1; Column := 1; Count := 1;
     Error_list := []; current_iterator := None |}.

(** *** container/list as used by the cursor *)

Definition Front (l : list AToken) : option nat :=
  match l with [] => None | _ => Some O end.

Definition Back (l : list AToken) : option nat :=
  match l with [] => None | _ => Some (pred (List.length l)) end.

(** [e.Next()] and [e.Prev()] on a non-nil element of [l]. *)
Definition Next (l : list AToken) (e : nat) : option nat :=
  if Nat.ltb (S e) (List.length l) then Some (S e) else None.

Definition Prev (e : nat) : option nat :=
  match e with O => None | S e' => Some e' end.

(** *** GetToken, BackToken, IsEnd *)

Definition set_iterator (it : option nat) (s : ATokenList) : ATokenList :=
  {| token_list := token_list s; Line := Line s; Column := Column s;
     Count := Count s; Error_list := Error_list s; current_iterator := it |}.

Definition incr_Count (s : ATokenList) : ATokenList :=
  {| token_list := token_list s; Line := Line s; Column := Column s;
     Count := Count s + 1; Error_list := Error_list s;
     current_iterator := current_iterator s |}.

Definition GetToken : TM (option AToken) :=
  s <- get ;;
  tmp <- match current_iterator s with
         | None =>
             modify (set_iterator (Back (token_list s))) ;;
             ret None
         | Some e =>
             v <- deref (nth_error (token_list s) e) ;;
             modify (set_iterator (Next (token_list s) e)) ;;
             ret (Some v)
         end ;;
  modify incr_Count ;;
  ret tmp.

Definition BackToken : TM AToken :=
  s <- get ;;
  match current_iterator s with
  | None =>
      b <- deref (Back (token_list s)) ;;
      modify (set_iterator (Prev b)) ;;
      e <- deref (Prev b) ;;
      deref (nth_error (token_list s) e)
  | Some c =>
      modify (set_iterator (Prev c)) ;;
      e <- deref (Prev c) ;;
      deref (nth_error (token_list s) e)
  end.

Definition IsEnd : TM bool :=
  s <- get ;;
  c <- deref (current_iterator s) ;;
  if match Next (token_list s) c, Back (token_list s) with
     | Some a, Some b => Nat.eqb a b
     | None, None => true
     | _, _ => false
     end
  then ret true
  else if len (token_list s) <=? 3 then ret true
  else ret false.

(** *** The scanner *)

Definition PushToken (value : gostring) (type : Z) : TM unit :=
  modify (fun s =>
    {| token_list := token_list s ++ [mkAToken (Line s) (Column s) value type];
       Line := Line s; Column := Column s; Count := Count s;
       Error_list := Error_list s; current_iterator := current_iterator s |}).

Definition PushLexError (info : gostring) : TM unit :=
  modify (fun s =>
    {| token_list := token_list s;
       Line := Line s; Column := Column s; Count := Count s;
       Error_list := Error_list s ++ [mkALexError (Line s) (Column s) info];
       current_iterator := current_iterator s |}).

Definition set_Line_Column (l c : Z) (s : ATokenList) : ATokenList :=
  {| token_list := token_list s; Line := l; Column := c; Count := Count s;
     Error_list := Error_list s; current_iterator := current_iterator s |}.

Definition is_rune (c : rune) (a : ascii) : bool := c =? rune_of a.

(** [judge_word]: [i] is the byte offset of [v] in [data]; every keyword is
    ASCII, so it is also the number of runes matched so far. *)
Fixpoint judge_word_loop (data : gostring) (i : Z) (index : Z)
    (source : list rune) : TM (bool * Z) :=
  match data with
  | [] => ret (true, index - 1)
  | v :: rest =>
      if index <? len source then
        c <- at_index source index ;;
        if c =? v then judge_word_loop rest (i + 1) (index + 1) source
        else ret (false, index - i)
      else ret (false, index - i)
  end.

Definition judge_word (data : string) (index : Z) (source : list rune)
    : TM (bool * Z) :=
  judge_word_loop (runes data) 0 index source.

Definition judge_symbol (ch : rune) : bool :=
  ((ch >=? rune_of "A") && (ch <=? rune_of "Z"))
  || ((ch >=? rune_of "a") && (ch <=? rune_of "z"))
  || is_rune ch "_"
  || ((ch >=? rune_of "0") && (ch <=? rune_of "9")).

Fixpoint judge_other_loop (fuel : nat) (tmp : gostring) (index : Z)
    (source : list rune) : TM Z :=
  match fuel with
  | O => timeout
  | S fuel =>
      if index >=? len source then
        PushToken tmp WORD ;; ret index
      else
        c <- at_index source index ;;
        if judge_symbol c then judge_other_loop fuel (tmp ++ [c]) (index + 1) source
        else PushToken tmp WORD ;; ret (index - 1)
  end.

Definition judge_other (fuel : nat) (index : Z) (source : list rune) : TM Z :=
  judge_other_loop fuel [] index source.

Fixpoint judge_space_loop (fuel : nat) (index : Z) (source : list rune) : TM Z :=
  match fuel with
  | O => timeout
  | S fuel =>
      if index <? len source then
        c <- at_index source index ;;
        if is_rune c " " || (c =? TAB) || (c =? VTAB)
        then judge_space_loop fuel (index + 1) source
        else ret index
      else ret index
  end.

Definition judge_space (fuel : nat) (index : Z) (source : list rune) : TM Z :=
  index <- judge_space_loop fuel index source ;;
  ret (index - 1).

Fixpoint judge_number_loop (fuel : nat) (tmp : gostring) (dot_count : Z)
    (index : Z) (source : list rune) : TM (gostring * Z) :=
  match fuel with
  | O => timeout
  | S fuel =>
      if index >=? len source then ret (tmp, index)
      else
        c <- at_index source index ;;
        if (c >=? rune_of "0") && (c <=? rune_of "9") then
          judge_number_loop fuel (tmp ++ [c]) dot_count (index + 1) source
        else if is_rune c "." then
          if dot_count >? 1 then
            PushLexError (runes "illegal number") ;;
            ret (tmp, index - 1)
          else
            judge_number_loop fuel (tmp ++ [c]) (dot_count + 1) (index + 1) source
        else ret (tmp, index - 1)
  end.

Definition judge_number (fuel : nat) (index : Z) (source : list rune) : TM Z :=
  '(tmp, index) <- judge_number_loop fuel [] 0 index source ;;
  PushToken tmp NUMBER ;;
  ret index.

Fixpoint judge_string_loop (fuel : nat) (tmp : gostring) (count : Z)
    (index : Z) (source : list rune) : TM (gostring * Z) :=
  match fuel with
  | O => timeout
  | S fuel =>
      if index >=? len source then
        (if count <? 2
         then PushLexError (runes "lose a '" ++ [DQUOTE] ++ runes "'")
         else ret tt) ;;
        ret (tmp, index)
      else if count >=? 2 then ret (tmp, index - 1)
      else
        c <- at_index source index ;;
        if c =? DQUOTE then
          judge_string_loop fuel tmp (count + 1) (index + 1) source
        else if c =? BACKSLASH then
          let index := index + 1 in
          e <- at_index source index ;;
          judge_string_loop fuel (tmp ++ [e]) count (index + 1) source
        else
          judge_string_loop fuel (tmp ++ [c]) count (index + 1) source
  end.

Definition judge_string (fuel : nat) (index : Z) (source : list rune) : TM Z :=
  '(tmp, index) <- judge_string_loop fuel [] 0 index source ;;
  PushToken tmp STRING ;;
  ret index.

(** The shape shared by the cases of [+ - * / > < = | &]:
    [i++; if i >= len(data) { break }], then one push per recognised second
    character, else the one-character token and [i--]. *)
Definition alt (a : ascii) (v : string) (type : Z) : ascii * string * Z :=
  (a, v, type).

Fixpoint second_char (c : rune) (alts : list (ascii * string * Z))
    : option (string * Z) :=
  match alts with
  | [] => None
  | (a, v, t) :: rest => if is_rune c a then Some (v, t) else second_char c rest
  end.

Definition operator (data : list rune) (i : Z)
    (alts : list (ascii * string * Z)) (single : string) (type : Z) : TM Z :=
  let i := i + 1 in
  if i >=? len data then ret i
  else
    c <- at_index data i ;;
    match second_char c alts with
    | Some (v, t) => PushToken (runes v) t ;; ret i
    | None => PushToken (runes single) type ;; ret (i - 1)
    end.

(** A keyword attempt: [if judge_word(kw, &i, &data) { push } else { otherwise }]. *)
Definition keyword (kw : string) (type : Z) (i : Z) (data : list rune)
    (otherwise : Z -> TM Z) : TM Z :=
  '(ok, i) <- judge_word kw i data ;;
  if ok then PushToken (runes kw) type ;; ret i
  else otherwise i.

(** A one-character token: push it, [i] stays. *)
Definition punct (v : string) (type : Z) (i : Z) : TM Z :=
  PushToken (runes v) type ;; ret i.

(** The body of [switch data[i]]: returns the value of [i] after the case. *)
Definition scan_case (fuel : nat) (data : list rune) (i : Z) (c : rune) : TM Z :=
  let other := fun i => judge_other fuel i data in
  if is_rune c "f" then
    keyword "func" FUNC i data (fun i =>
    keyword "for" FOR i data (fun i =>
    keyword "false" FALSE i data other))
  else if is_rune c "t" then keyword "true" TRUE i data other
  else if is_rune c "r" then keyword "return" RETURN i data other
  else if is_rune c "i" then
    '(ok, i) <- judge_word "if" i data ;;
    if ok then
      PushToken (runes "if") IF ;;
      _ <- at_index data i ;;      (* fmt.Println(..., data[i]) *)
      ret i
    else other i
  else if is_rune c "e" then
    keyword "elseif" ELSEIF i data (fun i =>
    keyword "else" ELSE i data other)
  else if is_rune c "n" then
    keyword "new" NEW i data (fun i =>
    keyword "number" NUMBER i data other)
  else if is_rune c "l" then keyword "list" LIST i data other
  else if is_rune c "m" then keyword "map" MAP i data other
  else if is_rune c "v" then keyword "var" VAR i data other
  else if is_rune c "b" then keyword "break" BREAK i data other
  else if is_rune c "s" then keyword "switch" SWITCH i data other
  else if is_rune c "c" then
    keyword "case" CASE i data (fun i =>
    keyword "continue" CONTINUE i data other)
  else if is_rune c ";" then punct ";" SEMICOLON i
  else if is_rune c "{" then punct "{" LBRACE i
  else if is_rune c "}" then punct "}" RBRACE i
  else if is_rune c "[" then punct "[" LBRACKET i
  else if is_rune c "]" then punct "[" RBRACKET i
  else if is_rune c "(" then punct "(" LP i
  else if is_rune c ")" then punct ")" RP i
  else if is_rune c "," then punct "," COMMA i
  else if is_rune c ":" then punct ":" COLON i
  else if is_rune c "+" then
    operator data i [alt "+" "++" ADDSELF; alt "=" "+=" COMPOSITE_ADD] "+" ADD
  else if is_rune c "-" then
    operator data i [alt "-" "--" SUBSELF; alt "=" "-=" COMPOSITE_SUB;
                     alt ">" "->" CASTING] "-" SUB
  else if is_rune c "*" then operator data i [alt "=" "*=" COMPOSITE_MUL] "*" MUL
  else if is_rune c "/" then operator data i [alt "=" "/=" COMPOSITE_DIV] "/" DIV
  else if is_rune c "^" then punct "^" POWER i
  else if is_rune c "!" then
    (* no i++ here: data[i] is still the '!' itself *)
    if i >=? len data then ret i
    else
      d <- at_index data i ;;
      if is_rune d "=" then PushToken (runes "!=") NOEQ ;; ret i
      else PushToken (runes "!") NOT ;; ret (i - 1)
  else if is_rune c "." then punct "." QUOTE i
  else if is_rune c ">" then operator data i [alt "=" ">=" GTEQ] ">" GT
  else if is_rune c "<" then operator data i [alt "=" "<=" LTEQ] "<" LT
  else if is_rune c "=" then operator data i [alt "=" "==" EQ] "=" ASSIGMENT
  else if is_rune c "|" then operator data i [alt "|" "||" PERHAPS] "|" OR
  else if is_rune c "&" then operator data i [alt "&" "&&" ALSO] "&" AND
  else if is_rune c "`" then punct "`" ESCAPE i
  else if is_rune c "%" then punct "%" MOD i
  else if is_rune c "~" then punct "~" RAND i
  else if c =? TAB then judge_space fuel i data
  else if is_rune c " " then judge_space fuel i data
  else if c =? LF then
    PushToken (runes "\n") EOF ;;
    modify (fun s => set_Line_Column (Line s + 1) 0 s) ;;
    ret i
  else if c =? CR then
    let i := i + 1 in
    if i >=? len data then ret i
    else
      d <- at_index data i ;;
      if d =? LF then
        PushToken (runes "\r\b") EOF ;;
        modify (fun s => set_Line_Column (Line s + 1) 0 s) ;;
        ret i
      else
        PushToken (runes "\r") EOF ;;
        modify (fun s => set_Line_Column (Line s + 1) 0 s) ;;
        ret (i - 1)
  else if c =? DQUOTE then judge_string fuel i data
  else
    if (c >=? rune_of "0") && (c <=? rune_of "9") then judge_number fuel i data
    else if judge_symbol c then judge_other fuel i data
    else
      PushLexError (runes "illegal token '" ++ [c] ++ runes "'") ;;
      ret i.

(** The [for] loop of [ReadString]; one unit of [fuel] per iteration. *)
Fixpoint ReadString_loop (fuel : nat) (data : list rune) (i : Z) : TM unit :=
  match fuel with
  | O => timeout
  | S fuel =>
      if i >=? len data then PushToken (runes "End") EOF
      else
        let tmp_index := i in
        c <- at_index data i ;;
        i <- scan_case fuel data i c ;;
        modify (fun s => set_Line_Column (Line s) (Column s + (i - tmp_index + 1)) s) ;;
        ReadString_loop fuel data (i + 1)
  end.

(** [ReadString]: [data] is [[]rune(data_str)]. After the scan comes the
    gate: with a non-empty [Error_list] the errors are printed and the
    process exits. *)
Definition ReadString (fuel : nat) (data : list rune) : TM unit :=
  ReadString_loop fuel data 0 ;;
  s <- get ;;
  if len (Error_list s) >? 0 then os_Exit
  else modify (fun s => set_iterator (Front (token_list s)) s).

End atoken.

(** ** math/big: the part of [big.Rat] that [AST_Number] uses

    [AST_Number] wraps a [*big.Rat]; the library is not in the repository,
    so its operations are modelled here from what the specification says of
    the rational number type. *)

Module big.

(** Modelled from the spec: [big.Rat] of Go's [math/big] is not among the
    sources. A [Rat] is an exact fraction, a numerator/denominator pair kept
    reduced, with a non-zero positive denominator. *)
Record Rat : Type := mkRat { num : Z; denom : Z }.

(** Modelled from the spec: the reduction every [Rat] operation ends with.
    For a quotient [a/b], [b <> 0]: the sign is carried by the numerator and
    both parts are divided by their gcd. *)
Definition norm (a b : Z) : Rat :=
  let g := Z.gcd a b in
  mkRat (Z.sgn b * a / g) (Z.abs b / g).

(** Modelled from the spec: [big.NewRat(a, b)]; [None] is the panic on a
    zero denominator. *)
Definition NewRat (a b : Z) : option Rat :=
  if b =? 0 then None else Some (norm a b).

(** Modelled from the spec: [Rat.Add], the exact sum, reduced. *)
Definition Add (x y : Rat) : Rat :=
  norm (num x * denom y + num y * denom x) (denom x * denom y).

(** Modelled from the spec: [Rat.Sub], the exact difference, reduced. *)
Definition Sub (x y : Rat) : Rat :=
  norm (num x * denom y - num y * denom x) (denom x * denom y).

(** Modelled from the spec: [Rat.Mul], the exact product, reduced. *)
Definition Mul (x y : Rat) : Rat :=
  norm (num x * num y) (denom x * denom y).

(** Modelled from the spec: [Rat.Quo], exact symbolic division, reduced;
    [None] is its panic ("division by zero") when [y] is zero. *)
Definition Quo (x y : Rat) : option Rat :=
  if num y =? 0 then None
  else Some (norm (num x * denom y) (denom x * num y)).

(** Modelled from the spec: [Rat.Abs]. *)
Definition Abs (x : Rat) : Rat := mkRat (Z.abs (num x)) (denom x).

(** Modelled from the spec: the value of a string of decimal digits, [None]
    on any other rune. *)
Fixpoint digits (acc : Z) (s : gostring) : option Z :=
  match s with
  | [] => Some acc
  | c :: rest =>
      if (c >=? rune_of "0") && (c <=? rune_of "9")
      then digits (10 * acc + (c - rune_of "0")) rest
      else None
  end.

(** Modelled from the spec: a literal split at its first ['.'], into the
    runes before it and, when there is one, the runes after it. *)
Fixpoint split_dot (s : gostring) : gostring * option gostring :=
  match s with
  | [] => ([], None)
  | c :: rest =>
      if c =? rune_of "."
      then ([], Some rest)
      else let '(a, b) := split_dot rest in (c :: a, b)
  end.

(** Modelled from the spec: [Rat.SetString], the parse of a decimal
    literal. On the alphabet of the tokenizer's NUMBER values (digits and
    dots) the mantissa forms [digits], [digits "." [digits]] and
    ["." digits] are accepted and read in base 10. [None] is the failure
    result [(nil, false)]; every other string is reported as a failure (no
    NUMBER token carries a sign, an exponent or a ['/']). *)
Definition SetString (s : gostring) : option Rat :=
  match split_dot s with
  | (ip, None) =>
      match ip, digits 0 ip with
      | _ :: _, Some n => Some (norm n 1)
      | _, _ => None
      end
  | (ip, Some fp) =>
      match ip ++ fp, digits 0 (ip ++ fp), digits 0 fp with
      | _ :: _, Some m, Some _ => Some (norm m (10 ^ len fp))
      | _, _, _ => None
      end
  end.

End big.

(** ** Package aparser *)

Module aparser.

Definition NUMBER := 1.
Definition BOOL := 2.
Definition SELFOPERATION_ADDSELF := 3.
Definition SELFOPERATION_SUBSELF := 4.
Definition CALLFUNC := 5.
Definition VAR := 6.
Definition ARITHMETICEXPRESSION := 7.
Definition ADD := 8.
Definition SUB := 9.
Definition MUL := 10.
Definition DIV := 11.
Definition POWER := 12.
Definition MOD := 13.
Definition RAND := 14.
Definition STRING := 15.
Definition CHAR := 16.

(** *** AST_Number *)

(** [type AST_Number struct { *big.Rat }]; the embedded pointer is [nil]
    until [Init] has run. *)
Record AST_Number : Type := mkAST_Number { Rat : option big.Rat }.

(** The arithmetic methods store the result in the receiver [s] and return
    it; [None] is a panic (nil [Rat], or division by zero). *)
Definition binary (op : big.Rat -> big.Rat -> option big.Rat)
    (s a b : AST_Number) : option AST_Number :=
  match Rat s, Rat a, Rat b with
  | Some _, Some x, Some y =>
      match op x y with
      | Some z => Some (mkAST_Number (Some z))
      | None => None
      end
  | _, _, _ => None
  end.

Definition Add := binary (fun x y => Some (big.Add x y)).
Definition Sub := binary (fun x y => Some (big.Sub x y)).
Definition Mul := binary (fun x y => Some (big.Mul x y)).
Definition Div := binary big.Quo.

(** [Abs] reads only [a]. *)
Definition Abs (s a b : AST_Number) : option AST_Number :=
  match Rat s, Rat a with
  | Some _, Some x => Some (mkAST_Number (Some (big.Abs x)))
  | _, _ => None
  end.

Definition Mod (s a b : AST_Number) : option AST_Number := Some s.

(** [Init]: [s.Rat = big.NewRat(0, 1)], then [s.Rat.SetString(data)] with
    the result ignored. After a failed [SetString] math/big leaves the value
    unspecified (the real library holds what it had scanned by then); the
    embedding keeps the 0/1 it had, and nothing below relies on the value
    stored after a failed parse. *)
Definition Init (s : AST_Number) (data : gostring) : AST_Number :=
  match big.SetString data with
  | Some r => mkAST_Number (Some r)
  | None => mkAST_Number (big.NewRat 0 1)
  end.

Definition New_ASTNumber (data : gostring) : AST_Number :=
  Init (mkAST_Number None) data.

(** *** The expression nodes *)

#[local] Unset Elimination Schemes.

Inductive AST_Arithmetic_Expression : Type :=
  mkExpression
    (exp_Type : Z)
    (exp_Value_Term : option AST_Arithmetic_Expression_Term)
    (Value_Exp : option AST_Arithmetic_Expression)
with AST_Arithmetic_Expression_Term : Type :=
  mkTerm
    (term_Type : Z)
    (term_Value_Term : option AST_Arithmetic_Expression_Term)
    (Value_Factor : option AST_Arithmetic_Expression_Factor)
with AST_Arithmetic_Expression_Factor : Type :=
  mkFactor
    (fac_Type : Z)
    (Value_Number : option AST_Number)
    (Value_Char : rune)
    (Value_Bool : bool)
    (Value_CallFunc : option AST_CallFuncStatement)
    (Value_Arithmetic_Expression : option AST_Arithmetic_Expression)
    (Value_VarWord : gostring)
    (fac_Line : Z)
with AST_CallFuncStatement : Type :=
  mkCallFuncStatement
    (ReturnValueList : option AST_Arithmetic_Expression).

#[local] Set Elimination Schemes.

(** [new(AST_Arithmetic_Expression_Factor)]: the zero value. *)
Definition new_Factor : AST_Arithmetic_Expression_Factor :=
  mkFactor 0 None 0 false None None [] 0.

(** *** CheckType *)

(** What [CheckType] prints before [os.Exit(1)]. *)
Inductive conflict : Type :=
| number_bool        (* "error:number ... bool" *)
| number_string      (* "error:number ... string" *)
| number_char.       (* "error:number ... char" *)

(** The state of the checker is the list of error lines printed so far. *)
Definition CM := M (list conflict).

Definition fatal {A} (c : conflict) : CM A :=
  modify (fun out => out ++ [c]) ;; os_Exit.

(** The three tests shared by both chain levels, then [return Type1]. *)
Definition check_pair (Type1 Type2 : Z) : CM Z :=
  (if ((Type1 =? BOOL) && (Type2 =? NUMBER)) || ((Type1 =? NUMBER) && (Type2 =? BOOL))
   then fatal number_bool else ret tt) ;;
  (if ((Type1 =? STRING) && (Type2 =? NUMBER)) || ((Type1 =? NUMBER) && (Type2 =? STRING))
   then fatal number_string else ret tt) ;;
  (if ((Type1 =? CHAR) && (Type2 =? NUMBER)) || ((Type1 =? NUMBER) && (Type2 =? CHAR))
   then fatal number_char else ret tt) ;;
  ret Type1.

Definition is_nil {A} (p : option A) : bool :=
  match p with None => true | Some _ => false end.

(** A method call on a nil receiver panics at its first field access. *)
Fixpoint Expression_CheckType (s : AST_Arithmetic_Expression) : CM Z :=
  match s with
  | mkExpression ty vt ve =>
      if (ty =? 0) && is_nil ve then
        match vt with Some t => Term_CheckType t | None => panic end
      else
        Type1 <- match vt with Some t => Term_CheckType t | None => panic end ;;
        Type2 <- match ve with Some e => Expression_CheckType e | None => panic end ;;
        check_pair Type1 Type2
  end
with Term_CheckType (s : AST_Arithmetic_Expression_Term) : CM Z :=
  match s with
  | mkTerm ty vt vf =>
      if (ty =? 0) && is_nil vt then
        match vf with Some f => Factor_CheckType f | None => panic end
      else
        Type1 <- match vf with Some f => Factor_CheckType f | None => panic end ;;
        Type2 <- match vt with Some t => Term_CheckType t | None => panic end ;;
        check_pair Type1 Type2
  end
with Factor_CheckType (s : AST_Arithmetic_Expression_Factor) : CM Z :=
  match s with
  | mkFactor ty _ _ _ _ ve _ _ =>
      if ty =? ARITHMETICEXPRESSION then
        match ve with Some e => Expression_CheckType e | None => panic end
      else ret ty
  end.

(** *** The parser object *)

Record AParserError : Type := mkAParserError {
  err_Line : Z;
  err_Column : Z;
  err_File : gostring;
  error_info : gostring
}.

Record AParser : Type := mkAParser {
  AToken : atoken.ATokenList;
  Error_List : list AParserError;
  File : gostring
}.

Definition PM := M AParser.

(** [New()]: [File] is the empty string. *)
Definition New : AParser :=
  {| AToken := atoken.New; Error_List := []; File := [] |}.

(** A method of [s.AToken] run from the parser; an exit inside it ends the
    process all the same. *)
Definition set_AToken (t : atoken.ATokenList) (s : AParser) : AParser :=
  {| AToken := t; Error_List := Error_List s; File := File s |}.

Definition on_AToken {A} (m : atoken.TM A) : PM A :=
  fun s =>
    match m (AToken s) with
    | Ret a t => Ret a (set_AToken t s)
    | Exit t => Exit (set_AToken t s)
    | Panic => Panic
    | OutOfFuel => OutOfFuel
    end.

Definition GetToken : PM (option atoken.AToken) := on_AToken atoken.GetToken.
Definition BackToken : PM atoken.AToken := on_AToken atoken.BackToken.
Definition IsEnd : PM bool := on_AToken atoken.IsEnd.

(** [GetToken()] whose result is dereferenced right away ([token.Type],
    or the trace line printed from it): a nil token panics there. *)
Definition Get : PM atoken.AToken := t <- GetToken ;; deref t.

Definition PushError (Line Column : Z) (File error_info : gostring) : PM unit :=
  modify (fun s =>
    {| AToken := AToken s;
       Error_List := Error_List s ++ [mkAParserError Line Column File error_info];
       File := aparser.File s |}).

(** [s.PushError(token.Line, token.Column, s.File, "unexpected "+token.Value+rest)]
    followed by [os.Exit(1)]. *)
Definition unexpected {A} (token : atoken.AToken) (rest : gostring) : PM A :=
  s <- get ;;
  PushError (atoken.tok_Line token) (atoken.tok_Column token) (File s)
    (runes "unexpected " ++ atoken.tok_Value token ++ rest) ;;
  os_Exit.

Definition CheckUp : PM unit :=
  s <- get ;;
  if len (Error_List s) >? 0 then os_Exit else ret tt.

Definition Type_is (token : atoken.AToken) (type : Z) : bool :=
  atoken.tok_Type token =? type.

(** *** The grammar procedures

    The procedures call each other recursively. Each one is written against
    [self], the table of the procedures one level further down the recursion
    budget; [procs] ties the knot. The body of a Go [for] loop that builds
    or parses a chain is a procedure of its own here. *)

Record Procs : Type := mkProcs {
  call_MainStatement : PM unit;
  call_TMP_MainStatement : PM unit;
  call_Statement : PM bool;
  call_FuncStatement : PM unit;
  call_FuncReturnType : PM unit;
  call_FuncReturnType_loop : PM unit;
  call_FuncReturnType_Factor : PM unit;
  call_FuncStatement_Define : PM unit;
  call_TMP_FuncStatement_Define : PM unit;
  call_BreakStatement : PM unit;
  call_ContinueStatement : PM unit;
  call_FuncStatement_Define_Factor : PM unit;
  call_FuncStatement_Return : PM unit;
  call_FuncStatement_Return_loop : PM unit;
  call_AssigmentStatement : PM unit;
  call_TMP_AssigmentStatement : PM unit;
  call_MoreArithmetic_Expression : PM unit;
  call_TMP_MoreArithmetic_Expression : PM unit;
  call_IFStatement : PM unit;
  call_IFStatement_ELSE : PM unit;
  call_VarStatement : PM unit;
  call_BlockStatement : PM unit;
  call_BlockMain_Statement : PM unit;
  call_TMP_BlockMain_Statement : PM unit;
  call_BlockStatement_Factor : PM bool;
  call_CallFuncStatement : PM unit;
  call_CallFuncStatement_Arg : PM unit;
  call_Tmp_CallFuncStatement_Arg : PM unit;
  call_ForStatement : PM unit;
  call_ForStatement_Assigment : PM unit;
  call_Boolean_Expression : PM unit;
  call_Boolean_Expression_loop : PM unit;
  call_Boolean_Expression_Factor : PM unit;
  call_Arithmetic_Expression : PM AST_Arithmetic_Expression;
  call_Arithmetic_Expression_loop :
    AST_Arithmetic_Expression_Term -> PM AST_Arithmetic_Expression;
  call_Arithmetic_Expression_Term : PM AST_Arithmetic_Expression_Term;
  call_Arithmetic_Expression_Term_loop :
    AST_Arithmetic_Expression_Factor -> PM AST_Arithmetic_Expression_Term;
  call_Arithmetic_Expression_Factor : PM AST_Arithmetic_Expression_Factor
}.

Section Grammar.

Variable self : Procs.

Definition MainStatement : PM unit :=
  call_Statement self ;;
  call_TMP_MainStatement self.

Definition TMP_MainStatement : PM unit :=
  e <- IsEnd ;;
  if e then ret tt
  else
    token <- GetToken ;;
    match token with
    | None => ret tt
    | Some token =>
        if Type_is token atoken.EOF then
          ok <- call_Statement self ;;
          if ok then call_TMP_MainStatement self else ret tt
        else
          BackToken ;; ret tt
    end.

Definition Statement : PM bool :=
  token <- Get ;;
  BackToken ;;
  if Type_is token atoken.FUNC then call_FuncStatement self ;; ret true
  else if Type_is token atoken.VAR then call_VarStatement self ;; ret true
  else if Type_is token atoken.LP then call_BlockStatement self ;; ret true
  else if Type_is token atoken.WORD then
    GetToken ;;
    s_token <- Get ;;
    (if Type_is s_token atoken.LP then
       BackToken ;; BackToken ;; call_CallFuncStatement self
     else if Type_is s_token atoken.ASSIGMENT || Type_is s_token atoken.COMMA then
       BackToken ;; BackToken ;; call_AssigmentStatement self
     else ret tt) ;;
    ret true
  else if Type_is token atoken.EOF then ret true
  else if Type_is token atoken.FOR then call_ForStatement self ;; ret true
  else if Type_is token atoken.IF then call_IFStatement self ;; ret true
  else
    unexpected token
      (runes " expecting 'func' || '=' || 'var' || '( ' || 'WORD' || '"
       ++ [CR; LF]
       ++ runes "' || '\n' || 'for' || 'break' || 'continue' ->Statement").

Definition FuncStatement : PM unit :=
  token_1 <- Get ;;
  if Type_is token_1 atoken.FUNC then
    token_2 <- Get ;;
    if Type_is token_2 atoken.WORD then
      token_3 <- Get ;;
      if Type_is token_3 atoken.LP then
        call_FuncStatement_Define self ;;
        token_4 <- Get ;;
        if Type_is token_4 atoken.RP then
          token_5 <- Get ;;
          (if Type_is token_5 atoken.CASTING then call_FuncReturnType self
           else unexpected token_4 (runes " expecting '->(CASTRING)' ->FuncStatement")) ;;
          call_BlockStatement self
        else unexpected token_4 (runes " expecting ')' ->FuncStatement")
      else unexpected token_3 (runes " expecting '(' ->FuncStatement")
    else unexpected token_2 (runes " expecting 'WORD' ->FuncStatement")
  else unexpected token_1 (runes " expecting 'func' ->FUncStatement").

Definition FuncReturnType_loop : PM unit :=
  token <- Get ;;
  if negb (Type_is token atoken.COMMA) then BackToken ;; ret tt
  else
    call_FuncReturnType_Factor self ;;
    call_FuncReturnType_loop self.

Definition FuncReturnType : PM unit :=
  call_FuncReturnType_Factor self ;;
  call_FuncReturnType_loop self.

Definition FuncReturnType_Factor : PM unit :=
  token <- Get ;;
  if Type_is token atoken.WORD then ret tt
  else unexpected token (runes " expecting 'Type' ->FuncReturnType_Factor").

Definition FuncStatement_Define : PM unit :=
  call_FuncStatement_Define_Factor self ;;
  call_TMP_FuncStatement_Define self.

Definition TMP_FuncStatement_Define : PM unit :=
  token <- Get ;;
  if Type_is token atoken.COMMA then
    call_FuncStatement_Define_Factor self ;;
    call_TMP_FuncStatement_Define self
  else BackToken ;; ret tt.

Definition BreakStatement : PM unit :=
  token_1 <- Get ;;
  if Type_is token_1 atoken.BREAK then ret tt
  else unexpected token_1 (runes " expecting 'break' ->BreakStatement").

Definition ContinueStatement : PM unit :=
  token_1 <- Get ;;
  if Type_is token_1 atoken.CONTINUE then ret tt
  else unexpected token_1 (runes " expecting 'continue' ->ContinueStatement").

Definition FuncStatement_Define_Factor : PM unit :=
  token_1 <- Get ;;
  if Type_is token_1 atoken.VAR then
    token_2 <- Get ;;
    if Type_is token_2 atoken.WORD then
      token_3 <- Get ;;
      if Type_is token_3 atoken.CASTING then
        token_4 <- Get ;;
        if Type_is token_4 atoken.WORD then ret tt
        else unexpected token_4 (runes " expecting 'WORD' ->FuncStatement_Define_Factor")
      else unexpected token_3 (runes " expecting 'CASTING' ->FuncStatement_Define_Factor")
    else unexpected token_2 (runes " expecting 'WORD' ->FuncStatement_Define_Factor")
  else BackToken ;; ret tt.

Definition FuncStatement_Return_loop : PM unit :=
  token_3 <- Get ;;
  if negb (Type_is token_3 atoken.COMMA) then BackToken ;; ret tt
  else
    call_Arithmetic_Expression self ;;
    call_FuncStatement_Return_loop self.

Definition FuncStatement_Return : PM unit :=
  token_1 <- Get ;;
  if Type_is token_1 atoken.RETURN then
    token_2 <- Get ;;
    if Type_is token_2 atoken.EOF then ret tt
    else
      BackToken ;;
      call_Arithmetic_Expression self ;;
      call_FuncStatement_Return_loop self
  else ret tt.

Definition AssigmentStatement : PM unit :=
  token_1 <- Get ;;
  if Type_is token_1 atoken.WORD then
    call_TMP_AssigmentStatement self ;;
    token_2 <- Get ;;
    if Type_is token_2 atoken.ASSIGMENT then call_MoreArithmetic_Expression self
    else unexpected token_2 (runes " expecting '=' ->AssigmentStatement")
  else unexpected token_1 (runes " expecting 'WORD' ->AssigmentStatement").

Definition TMP_AssigmentStatement : PM unit :=
  token_1 <- Get ;;
  if Type_is token_1 atoken.COMMA then
    token_2 <- Get ;;
    if Type_is token_2 atoken.WORD then call_TMP_AssigmentStatement self
    else unexpected token_2 (runes " expecting 'WORD' ->TMP_AssigmentStatement")
  else BackToken ;; ret tt.

Definition MoreArithmetic_Expression : PM unit :=
  call_Arithmetic_Expression self ;;
  call_TMP_MoreArithmetic_Expression self.

Definition TMP_MoreArithmetic_Expression : PM unit :=
  token <- Get ;;
  if Type_is token atoken.COMMA then call_Arithmetic_Expression self ;; ret tt
  else BackToken ;; ret tt.

Definition IFStatement : PM unit :=
  token_1 <- Get ;;
  if Type_is token_1 atoken.IF then
    token_2 <- Get ;;
    if Type_is token_2 atoken.LP then
      call_Boolean_Expression self ;;
      token_3 <- Get ;;
      if Type_is token_3 atoken.RP then
        call_BlockStatement self ;;
        call_IFStatement_ELSE self
      else unexpected token_3 (runes " expecting ')' ->IFStatement")
    else unexpected token_2 (runes " expecting '(' ->IFStatement")
  else unexpected token_1 (runes " expecting 'if' ->IFStatement").

Definition IFStatement_ELSE : PM unit :=
  token_1 <- Get ;;
  if Type_is token_1 atoken.ELSE then call_BlockStatement self
  else if Type_is token_1 atoken.ELSEIF then
    token_2 <- Get ;;
    if Type_is token_2 atoken.LP then
      call_Boolean_Expression self ;;
      token_3 <- Get ;;
      if Type_is token_3 atoken.RP then call_BlockStatement self
      else unexpected token_3 (runes " expecting ')' ->IFStatement_ELSE")
    else unexpected token_2 (runes " expecting '(' ->IFStatement_ELSE")
  else BackToken ;; BackToken ;; ret tt.

Definition VarStatement : PM unit :=
  token_1 <- Get ;;
  if Type_is token_1 atoken.VAR then
    token_2 <- Get ;;
    if Type_is token_2 atoken.WORD then
      token <- Get ;;
      if Type_is token atoken.CASTING then
        token_3 <- Get ;;
        if Type_is token_3 atoken.WORD then ret tt
        else unexpected token_3 (runes " expecting 'Type' ->VarStatement")
      else
        BackToken ;; BackToken ;;
        call_AssigmentStatement self
    else unexpected token_2 (runes " expecting 'WORD' ->IFStatement_ELSE")
  else unexpected token_1 (runes " expecting 'var' ->VarStatement").

Definition BlockStatement : PM unit :=
  token_1 <- Get ;;
  if Type_is token_1 atoken.LBRACE then
    call_BlockMain_Statement self ;;
    token_2 <- Get ;;
    if Type_is token_2 atoken.RBRACE then ret tt
    else unexpected token_2 (runes " expecting '}' ->BlockStatement")
  else unexpected token_1 (runes " expecting '{' ->BlockStatement").

Definition BlockMain_Statement : PM unit :=
  call_BlockStatement_Factor self ;;
  call_TMP_BlockMain_Statement self.

Definition TMP_BlockMain_Statement : PM unit :=
  token_1 <- Get ;;
  if Type_is token_1 atoken.EOF then
    ok <- call_BlockStatement_Factor self ;;
    if ok then call_TMP_BlockMain_Statement self else ret tt
  else BackToken ;; ret tt.

Definition BlockStatement_Factor : PM bool :=
  token <- Get ;;
  BackToken ;;
  if Type_is token atoken.VAR then call_VarStatement self ;; ret true
  else if Type_is token atoken.WORD then
    GetToken ;;
    s_token <- Get ;;
    (if Type_is s_token atoken.LP then
       BackToken ;; BackToken ;; call_CallFuncStatement self
     else if Type_is s_token atoken.ASSIGMENT || Type_is s_token atoken.COMMA then
       BackToken ;; BackToken ;; call_AssigmentStatement self
     else ret tt) ;;
    ret true
  else if Type_is token atoken.EOF then ret true
  else if Type_is token atoken.FOR then call_ForStatement self ;; ret true
  else if Type_is token atoken.IF then call_IFStatement self ;; ret true
  else if Type_is token atoken.RBRACE then ret false
  else if Type_is token atoken.RETURN then call_FuncStatement_Return self ;; ret true
  else if Type_is token atoken.CONTINUE then call_ContinueStatement self ;; ret true
  else if Type_is token atoken.BREAK then call_BreakStatement self ;; ret true
  else
    unexpected token
      (runes " expecting 'func' || '=' || 'var' || '( ' || 'WORD' || '"
       ++ [CR; LF] ++ runes "' || '" ++ [LF]
       ++ runes "' || 'for' ->BlockStatement_Factor").

Definition CallFuncStatement : PM unit :=
  token_1 <- Get ;;
  if Type_is token_1 atoken.WORD then
    token_2 <- Get ;;
    if Type_is token_2 atoken.LP then
      token_4 <- Get ;;
      if Type_is token_4 atoken.RP then ret tt
      else
        BackToken ;;
        call_CallFuncStatement_Arg self ;;
        token_3 <- Get ;;
        if Type_is token_3 atoken.RP then ret tt
        else unexpected token_3 (runes " expecting '}' ->CallFuncStatement")
    else unexpected token_2 (runes " expecting '{' ->CallFuncStatement")
  else unexpected token_1 (runes " expecting 'WORD' ->CallFuncStatement").

Definition CallFuncStatement_Arg : PM unit :=
  call_Arithmetic_Expression self ;;
  call_Tmp_CallFuncStatement_Arg self.

Definition Tmp_CallFuncStatement_Arg : PM unit :=
  token <- Get ;;
  if Type_is token atoken.COMMA then
    call_Arithmetic_Expression self ;;
    call_Tmp_CallFuncStatement_Arg self
  else BackToken ;; ret tt.

Definition ForStatement : PM unit :=
  token_1 <- Get ;;
  if Type_is token_1 atoken.FOR then
    token_2 <- Get ;;
    if Type_is token_2 atoken.LP then
      token_tmp <- Get ;;
      (if Type_is token_tmp atoken.SEMICOLON then BackToken ;; ret tt
       else BackToken ;; call_ForStatement_Assigment self) ;;
      token_3 <- Get ;;
      (if Type_is token_3 atoken.SEMICOLON then ret tt
       else unexpected token_3 (runes " expecting 'WORD' ->ForStatement")) ;;
      token_tmp <- Get ;;
      (if Type_is token_tmp atoken.SEMICOLON then BackToken ;; ret tt
       else BackToken ;; call_Boolean_Expression self) ;;
      token_4 <- Get ;;
      (if Type_is token_4 atoken.SEMICOLON then ret tt
       else unexpected token_4 (runes " expecting 'WORD' ->ForStatement")) ;;
      token_tmp <- Get ;;
      (if Type_is token_tmp atoken.RP then BackToken ;; ret tt
       else BackToken ;; call_ForStatement_Assigment self) ;;
      token_5 <- Get ;;
      if Type_is token_5 atoken.RP then call_BlockStatement self
      else unexpected token_5 (runes " expecting ')' ->ForStatement")
    else unexpected token_2 (runes " expecting 'WORD' ->ForStatement")
  else unexpected token_1 (runes " expecting 'for' ->ForStatement").

Definition ForStatement_Assigment : PM unit :=
  token <- Get ;;
  if Type_is token atoken.VAR then BackToken ;; call_VarStatement self
  else BackToken ;; call_AssigmentStatement self.

Definition Boolean_Expression_loop : PM unit :=
  token <- Get ;;
  if negb (Type_is token atoken.ALSO) && negb (Type_is token atoken.PERHAPS)
  then BackToken ;; ret tt
  else
    call_Boolean_Expression_Factor self ;;
    (if Type_is token atoken.ALSO then ret tt
     else if Type_is token atoken.PERHAPS then ret tt
     else BackToken ;; ret tt) ;;
    call_Boolean_Expression_loop self.

Definition Boolean_Expression : PM unit :=
  call_Boolean_Expression_Factor self ;;
  call_Boolean_Expression_loop self.

Definition Boolean_Expression_Factor : PM unit :=
  token_1 <- Get ;;
  if Type_is token_1 atoken.LP then
    call_Boolean_Expression self ;;
    token <- Get ;;
    if Type_is token atoken.RP then ret tt
    else unexpected token_1 (runes " expecting ')' ->Boolean_Expression_Factor")
  else
    BackToken ;;
    call_Arithmetic_Expression self ;;
    s_token <- Get ;;
    if Type_is s_token atoken.GT then call_Arithmetic_Expression self ;; ret tt
    else if Type_is s_token atoken.LT then call_Arithmetic_Expression self ;; ret tt
    else if Type_is s_token atoken.GTEQ then call_Arithmetic_Expression self ;; ret tt
    else if Type_is s_token atoken.LTEQ then call_Arithmetic_Expression self ;; ret tt
    else
      unexpected token_1
        (runes " expecting '(' || '>' || '<' || '>=' || '<=' ->Boolean_Expression_Factor").

(** One turn of the loop of [Arithmetic_Expression]: [head] is the term of
    the node [tmp_result] points to; the result is that node once the
    remaining turns have filled in its [Type] and its tail. *)
Definition Arithmetic_Expression_loop (head : AST_Arithmetic_Expression_Term)
    : PM AST_Arithmetic_Expression :=
  token <- Get ;;
  if negb (Type_is token atoken.ADD) && negb (Type_is token atoken.SUB) then
    BackToken ;;
    ret (mkExpression 0 (Some head) None)
  else
    term <- call_Arithmetic_Expression_Term self ;;
    if Type_is token atoken.ADD then
      exp <- call_Arithmetic_Expression_loop self term ;;
      ret (mkExpression ADD (Some head) (Some exp))
    else if Type_is token atoken.SUB then
      exp <- call_Arithmetic_Expression_loop self term ;;
      ret (mkExpression SUB (Some head) (Some exp))
    else
      BackToken ;;
      call_Arithmetic_Expression_loop self head.

Definition Arithmetic_Expression : PM AST_Arithmetic_Expression :=
  term <- call_Arithmetic_Expression_Term self ;;
  call_Arithmetic_Expression_loop self term.

Definition Arithmetic_Expression_Term_loop (head : AST_Arithmetic_Expression_Factor)
    : PM AST_Arithmetic_Expression_Term :=
  token <- Get ;;
  if negb (Type_is token atoken.MUL) && negb (Type_is token atoken.DIV)
     && negb (Type_is token atoken.POWER) && negb (Type_is token atoken.MOD)
     && negb (Type_is token atoken.RAND) then
    BackToken ;;
    ret (mkTerm 0 None (Some head))
  else
    factor <- call_Arithmetic_Expression_Factor self ;;
    let chain := fun (type : Z) =>
      term <- call_Arithmetic_Expression_Term_loop self factor ;;
      ret (mkTerm type (Some term) (Some head)) in
    if Type_is token atoken.MUL then chain MUL
    else if Type_is token atoken.DIV then chain DIV
    else if Type_is token atoken.POWER then chain POWER
    else if Type_is token atoken.MOD then chain MOD
    else if Type_is token atoken.RAND then chain RAND
    else
      BackToken ;;
      call_Arithmetic_Expression_Term_loop self head.

Definition Arithmetic_Expression_Term : PM AST_Arithmetic_Expression_Term :=
  factor <- call_Arithmetic_Expression_Factor self ;;
  call_Arithmetic_Expression_Term_loop self factor.

Definition Arithmetic_Expression_Factor : PM AST_Arithmetic_Expression_Factor :=
  token <- Get ;;
  let Line := atoken.tok_Line token in
  if Type_is token atoken.NUMBER then
    ret (mkFactor NUMBER (Some (New_ASTNumber (atoken.tok_Value token)))
           0 false None None [] Line)
  else if Type_is token atoken.TRUE then
    ret (mkFactor BOOL None 0 true None None [] Line)
  else if Type_is token atoken.FALSE then
    ret (mkFactor BOOL None 0 false None None [] Line)
  else if Type_is token atoken.LP then
    exp <- call_Arithmetic_Expression self ;;
    token_1 <- Get ;;
    if Type_is token_1 atoken.RP then
      ret (mkFactor ARITHMETICEXPRESSION None 0 false None (Some exp) [] Line)
    else unexpected token_1 (runes " expecting '}' ->Arithmetic_Expression_Factor")
  else if Type_is token atoken.WORD then
    token_1 <- Get ;;
    if Type_is token_1 atoken.ADDSELF then
      ret (mkFactor SELFOPERATION_ADDSELF None 0 false None None
             (atoken.tok_Value token) Line)
    else if Type_is token_1 atoken.SUBSELF then
      ret (mkFactor SELFOPERATION_SUBSELF None 0 false None None
             (atoken.tok_Value token) Line)
    else if Type_is token_1 atoken.LP then
      BackToken ;; BackToken ;;
      call_CallFuncStatement self ;;
      ret (mkFactor CALLFUNC None 0 false None None [] Line)
    else
      BackToken ;;
      ret (mkFactor VAR None 0 false None None (atoken.tok_Value token) Line)
  else
    unexpected token
      (runes " expecting 'num' || 'WORD' || 'true' || 'false' || ->Arithmetic_Expression_Factor").

End Grammar.

(** The table with nothing left of the budget. *)
Definition no_procs : Procs :=
  mkProcs timeout timeout timeout timeout timeout timeout timeout timeout
    timeout timeout timeout timeout timeout timeout timeout timeout timeout
    timeout timeout timeout timeout timeout timeout timeout timeout timeout
    timeout timeout timeout timeout timeout timeout timeout timeout
    (fun _ => timeout) timeout (fun _ => timeout) timeout.

(** [procs fuel]: the procedures with [fuel] levels of calls available. *)
Fixpoint procs (fuel : nat) : Procs :=
  match fuel with
  | O => no_procs
  | S fuel =>
      let self := procs fuel in
      {| call_MainStatement := MainStatement self;
         call_TMP_MainStatement := TMP_MainStatement self;
         call_Statement := Statement self;
         call_FuncStatement := FuncStatement self;
         call_FuncReturnType := FuncReturnType self;
         call_FuncReturnType_loop := FuncReturnType_loop self;
         call_FuncReturnType_Factor := FuncReturnType_Factor;
         call_FuncStatement_Define := FuncStatement_Define self;
         call_TMP_FuncStatement_Define := TMP_FuncStatement_Define self;
         call_BreakStatement := BreakStatement;
         call_ContinueStatement := ContinueStatement;
         call_FuncStatement_Define_Factor := FuncStatement_Define_Factor;
         call_FuncStatement_Return := FuncStatement_Return self;
         call_FuncStatement_Return_loop := FuncStatement_Return_loop self;
         call_AssigmentStatement := AssigmentStatement self;
         call_TMP_AssigmentStatement := TMP_AssigmentStatement self;
         call_MoreArithmetic_Expression := MoreArithmetic_Expression self;
         call_TMP_MoreArithmetic_Expression := TMP_MoreArithmetic_Expression self;
         call_IFStatement := IFStatement self;
         call_IFStatement_ELSE := IFStatement_ELSE self;
         call_VarStatement := VarStatement self;
         call_BlockStatement := BlockStatement self;
         call_BlockMain_Statement := BlockMain_Statement self;
         call_TMP_BlockMain_Statement := TMP_BlockMain_Statement self;
         call_BlockStatement_Factor := BlockStatement_Factor self;
         call_CallFuncStatement := CallFuncStatement self;
         call_CallFuncStatement_Arg := CallFuncStatement_Arg self;
         call_Tmp_CallFuncStatement_Arg := Tmp_CallFuncStatement_Arg self;
         call_ForStatement := ForStatement self;
         call_ForStatement_Assigment := ForStatement_Assigment self;
         call_Boolean_Expression := Boolean_Expression self;
         call_Boolean_Expression_loop := Boolean_Expression_loop self;
         call_Boolean_Expression_Factor := Boolean_Expression_Factor self;
         call_Arithmetic_Expression := Arithmetic_Expression self;
         call_Arithmetic_Expression_loop := Arithmetic_Expression_loop self;
         call_Arithmetic_Expression_Term := Arithmetic_Expression_Term self;
         call_Arithmetic_Expression_Term_loop := Arithmetic_Expression_Term_loop self;
         call_Arithmetic_Expression_Factor := Arithmetic_Expression_Factor self |}
  end.

(** *** Entry points; [fuel] bounds both the scan and the recursion. *)

Definition ReadString (fuel : nat) (str : list rune) : PM unit :=
  on_AToken (atoken.ReadString fuel str) ;;
  CheckUp ;;
  call_MainStatement (procs fuel).

Definition ReadBasicExpression (fuel : nat) (str : list rune)
    : PM AST_Arithmetic_Expression :=
  on_AToken (atoken.ReadString fuel str) ;;
  CheckUp ;;
  call_Arithmetic_Expression (procs fuel).

End aparser.

(** ** Vocabulary of the statements below *)

Module spec.

Import atoken.

(** A call of the cursor interface, and a sequence of such calls. *)
Inductive cursor_call : Type := call_GetToken | call_BackToken.

Definition do_call (c : cursor_call) : TM unit :=
  match c with
  | call_GetToken => GetToken ;; ret tt
  | call_BackToken => BackToken ;; ret tt
  end.

Fixpoint run_calls (cs : list cursor_call) : TM unit :=
  match cs with
  | [] => ret tt
  | c :: cs => do_call c ;; run_calls cs
  end.

(** The round trip at a cursor state [s]: [GetToken] then [BackToken] are
    back at the position of [s], and the next [GetToken] hands out the token
    the first one did. *)
Definition cursor_roundtrip (s : ATokenList) : Prop :=
  exists tok s1 tok' s2 s3,
    GetToken s = Ret tok s1 /\
    BackToken s1 = Ret tok' s2 /\
    current_iterator s2 = current_iterator s /\
    GetToken s2 = Ret tok s3.

(** The state both procedures leave behind: three [GetToken] calls counted,
    the cursor past the second token, nothing else touched. *)
Definition skipped (p : nat) (s : aparser.AParser) : aparser.AParser :=
  let t := aparser.AToken s in
  {| aparser.AToken :=
       {| token_list := token_list t; Line := Line t; Column := Column t;
          Count := Count t + 1 + 1 + 1; Error_list := Error_list t;
          current_iterator := Next (token_list t) (S p) |};
     aparser.Error_List := aparser.Error_List s;
     aparser.File := aparser.File s |}.


Import aparser.


(** The operand-type pairs the type checker must refuse, each with the
    message it must print: Number with Boolean, with String, with Char, in
    either order. *)
Inductive Forbidden : Z -> Z -> conflict -> Prop :=
| Number_Boolean : Forbidden NUMBER BOOL number_bool
| Boolean_Number : Forbidden BOOL NUMBER number_bool
| Number_String : Forbidden NUMBER STRING number_string
| String_Number : Forbidden STRING NUMBER number_string
| Number_Char : Forbidden NUMBER CHAR number_char
| Char_Number : Forbidden CHAR NUMBER number_char.


(** Structural induction over the three node kinds at once. *)
Section AST_induction.

Variable P : AST_Arithmetic_Expression -> Prop.
Variable Q : AST_Arithmetic_Expression_Term -> Prop.
Variable R : AST_Arithmetic_Expression_Factor -> Prop.

Definition on_child {A} (X : A -> Prop) (p : option A) : Prop :=
  match p with Some a => X a | None => True end.

Hypothesis P_node : forall ty vt ve,
  on_child Q vt -> on_child P ve -> P (mkExpression ty vt ve).
Hypothesis Q_node : forall ty vt vf,
  on_child Q vt -> on_child R vf -> Q (mkTerm ty vt vf).
Hypothesis R_node : forall ty n c b cf ve w l,
  on_child P ve -> R (mkFactor ty n c b cf ve w l).

Fixpoint Expression_induction (s : AST_Arithmetic_Expression) : P s :=
  match s with
  | mkExpression ty vt ve =>
      P_node ty vt ve
        (match vt return on_child Q vt with
         | Some t => Term_induction t | None => I end)
        (match ve return on_child P ve with
         | Some e => Expression_induction e | None => I end)
  end
with Term_induction (s : AST_Arithmetic_Expression_Term) : Q s :=
  match s with
  | mkTerm ty vt vf =>
      Q_node ty vt vf
        (match vt return on_child Q vt with
         | Some t => Term_induction t | None => I end)
        (match vf return on_child R vf with
         | Some f => Factor_induction f | None => I end)
  end
with Factor_induction (s : AST_Arithmetic_Expression_Factor) : R s :=
  match s with
  | mkFactor ty n c b cf ve w l =>
      R_node ty n c b cf ve w l
        (match ve return on_child P ve with
         | Some e => Expression_induction e | None => I end)
  end.

End AST_induction.

(** A decimal literal, [[0-9]+(\.[0-9]+)?]. *)
Definition is_digit (c : rune) : bool :=
  (c >=? rune_of "0") && (c <=? rune_of "9").

Definition nonempty {A} (l : list A) : bool :=
  match l with [] => false | _ :: _ => true end.

Definition decimal_literal (s : gostring) : bool :=
  match big.split_dot s with
  | (ip, None) => nonempty ip && forallb is_digit ip
  | (ip, Some fp) =>
      nonempty ip && forallb is_digit ip && nonempty fp && forallb is_digit fp
  end.

(** A fraction in lowest terms with a positive denominator. *)
Definition normal (r : big.Rat) : Prop :=
  0 < big.denom r /\ Z.gcd (big.num r) (big.denom r) = 1.

(** A number node holding such a fraction. *)
Definition holds_normal (n : AST_Number) : Prop :=
  exists r, Rat n = Some r /\ normal r.

(** A NUMBER factor on line 1, as the parser builds it from literal [v]. *)
Definition number_factor (v : string) : AST_Arithmetic_Expression_Factor :=
  mkFactor NUMBER (Some (New_ASTNumber (runes v))) 0 false None None [] 1.

(** A term that is just a factor, an expression that is just a term. *)
Definition just_factor (f : AST_Arithmetic_Expression_Factor)
    : AST_Arithmetic_Expression_Term :=
  mkTerm 0 None (Some f).

Definition just_term (t : AST_Arithmetic_Expression_Term)
    : AST_Arithmetic_Expression :=
  mkExpression 0 (Some t) None.


(** [s] as it would be had the lex errors [E] been recorded before. *)
Definition with_earlier_errors (E : list atoken.ALexError) (s : atoken.ATokenList)
    : atoken.ATokenList :=
  {| atoken.token_list := atoken.token_list s;
     atoken.Line := atoken.Line s; atoken.Column := atoken.Column s;
     atoken.Count := atoken.Count s;
     atoken.Error_list := E ++ atoken.Error_list s;
     atoken.current_iterator := atoken.current_iterator s |}.

Definition outcome_map {S A} (f : S -> S) (o : outcome S A) : outcome S A :=
  match o with
  | Ret a s => Ret a (f s)
  | Exit s => Exit (f s)
  | Panic => Panic
  | OutOfFuel => OutOfFuel
  end.

(** A step of the scanner that neither looks at the errors recorded so far
    nor drops any of them: run after earlier errors [E], it does what it
    does without them, and [E] is still there in front of its own. *)
Definition error_blind {A} (m : atoken.TM A) : Prop :=
  forall E s,
    m (with_earlier_errors E s) = outcome_map (with_earlier_errors E) (m s).

(** *** Exact values *)

(** The rational number a stored fraction stands for. *)
Definition value (r : big.Rat) : Q :=
  Qmake (big.num r) (Z.to_pos (big.denom r)).

(** What a string of digits is worth read as an integer, most significant
    digit first, and as the digits after a decimal point. *)
Fixpoint integer_part (acc : Q) (ds : gostring) : Q :=
  match ds with
  | [] => acc
  | c :: rest => integer_part (acc * inject_Z 10 + inject_Z (c - rune_of "0"))%Q rest
  end.

Fixpoint fraction_part (ds : gostring) : Q :=
  match ds with
  | [] => inject_Z 0
  | c :: rest => ((inject_Z (c - rune_of "0") + fraction_part rest) / inject_Z 10)%Q
  end.

(** The number a decimal literal denotes. *)
Definition decimal_value (s : gostring) : Q :=
  match big.split_dot s with
  | (ip, None) => integer_part (inject_Z 0) ip
  | (ip, Some fp) => (integer_part (inject_Z 0) ip + fraction_part fp)%Q
  end.

End spec.

(** ** Vocabulary of the further properties *)

Module inv.

Import atoken.

(** *** The cursor *)

(** The cursor is nil or points into the list. *)
Definition cursor_in_range (s : ATokenList) : Prop :=
  match current_iterator s with
  | Some e => (e < List.length (token_list s))%nat
  | None => True
  end.

(** How many of the calls are [GetToken]. *)
Fixpoint count_GetToken (cs : list spec.cursor_call) : Z :=
  match cs with
  | [] => 0
  | spec.call_GetToken :: cs => 1 + count_GetToken cs
  | spec.call_BackToken :: cs => count_GetToken cs
  end.

(** *** The scanner *)

(** [p] is a prefix of [l]. *)
Fixpoint has_prefix (p l : list rune) : bool :=
  match p, l with
  | [], _ => true
  | _ :: _, [] => false
  | a :: p', b :: l' => (b =? a) && has_prefix p' l'
  end.

(** [m] returns normally from every state, with a result satisfying [Q]. *)
Definition always_returns {A} (Q : A -> Prop) (m : TM A) : Prop :=
  forall s, exists a s', m s = Ret a s' /\ Q a.

(** [m] keeps the invariant [P] of the token list, however it ends. *)
Definition preserves {A} (P : ATokenList -> Prop) (m : TM A) : Prop :=
  forall s, P s ->
    match m s with
    | Ret _ s' => P s'
    | Exit s' => P s'
    | Panic => True
    | OutOfFuel => True
    end.

(** [s'] is [s] with tokens and lex errors pushed at the back and the
    position counters moved; the cursor and [Count] are those of [s]. *)
Definition grown_from (s s' : ATokenList) : Prop :=
  (exists new, token_list s' = token_list s ++ new) /\
  (exists new, Error_list s' = Error_list s ++ new) /\
  Count s' = Count s /\
  current_iterator s' = current_iterator s.

(** Every token was stamped with a line no later than the current one, and
    the stamps never go down along the list. *)
Fixpoint lines_ascend (from : Z) (toks : list AToken) (upto : Z) : Prop :=
  match toks with
  | [] => from <= upto
  | t :: rest => from <= tok_Line t /\ lines_ascend (tok_Line t) rest upto
  end.

Definition lines_in_order (s : ATokenList) : Prop :=
  exists first, lines_ascend first (token_list s) (Line s).

Definition is_digit_or_dot (c : rune) : bool :=
  spec.is_digit c || (c =? rune_of ".").

Fixpoint count_dots (l : list rune) : Z :=
  match l with
  | [] => 0
  | c :: rest => (if c =? rune_of "." then 1 else 0) + count_dots rest
  end.

(** The letters a keyword begins with. *)
Definition keyword_initial (c : rune) : bool :=
  existsb (Z.eqb c) (runes "ftrienlmvbsc").

(** The characters whose case looks one character ahead after [i++]. *)
Definition lookahead_operator (c : rune) : bool :=
  existsb (Z.eqb c) (runes "+-*/><=|&").

(** The keywords the scanner knows, and a text none of them begins. *)
Definition keywords : list string :=
  ["func"; "for"; "false"; "true"; "return"; "if"; "elseif"; "else"; "new";
   "number"; "list"; "map"; "var"; "break"; "switch"; "case"; "continue"]%string.

Definition no_keyword_prefix (text : list rune) : bool :=
  forallb (fun kw => negb (has_prefix (runes kw) text)) keywords.

(** What a string literal's body stands for: a backslash is dropped and the
    rune after it is kept as it is. *)
Fixpoint unescape (l : list rune) : list rune :=
  match l with
  | [] => []
  | c :: rest =>
      if c =? BACKSLASH then
        match rest with
        | [] => []
        | e :: rest' => e :: unescape rest'
        end
      else c :: unescape rest
  end.

(** A body in which every quote is escaped and no backslash is the last
    rune. *)
Fixpoint escapes_ok (l : list rune) : bool :=
  match l with
  | [] => true
  | c :: rest =>
      if c =? BACKSLASH then
        match rest with
        | [] => false
        | _ :: rest' => escapes_ok rest'
        end
      else if c =? DQUOTE then false
      else escapes_ok rest
  end.

(** The state after a one-token text has been scanned from [s]: the token,
    stamped with the position of [s], then the end marker; [width] is what
    the column moved by. *)
Definition one_token (s : ATokenList) (value : gostring) (type : Z) (width : Z)
    (errors : list ALexError) : ATokenList :=
  {| token_list := token_list s
                   ++ [mkAToken (Line s) (Column s) value type;
                       mkAToken (Line s) (Column s + width) (runes "End") EOF];
     Line := Line s; Column := Column s + width; Count := Count s;
     Error_list := Error_list s ++ errors;
     current_iterator := current_iterator s |}.

(** The state [judge_string] leaves after its loop: an unterminated literal
    has recorded its error. *)
Definition after_string (closed : bool) (s : ATokenList) : ATokenList :=
  if closed then s
  else {| token_list := token_list s; Line := Line s; Column := Column s;
          Count := Count s;
          Error_list := Error_list s
            ++ [mkALexError (Line s) (Column s)
                  (runes "lose a '" ++ [DQUOTE] ++ runes "'")];
          current_iterator := current_iterator s |}.

(** The state after a line break at the position of [s]: the separator
    token, the next line, and the column the next token is stamped with. *)
Definition after_break (s : ATokenList) (value : gostring) (column : Z) : ATokenList :=
  {| token_list := token_list s ++ [mkAToken (Line s) (Column s) value EOF];
     Line := Line s + 1; Column := column; Count := Count s;
     Error_list := Error_list s; current_iterator := current_iterator s |}.

(** The characters that are dropped when they are the last of the input. *)
Definition dropped_when_last (c : rune) : bool :=
  lookahead_operator c || (c =? CR).

(** The characters that have a case of their own in the [switch] of
    [ReadString], and the ones that nothing accepts: no case, not a digit,
    not a letter or an underscore. *)
Definition case_rune (c : rune) : bool :=
  existsb (Z.eqb c) (runes "ftrienlmvbsc;{}[](),:+-*/^!.><=|&`%~ ")
  || (c =? TAB) || (c =? LF) || (c =? CR) || (c =? DQUOTE).

Definition illegal_rune (c : rune) : bool :=
  negb (case_rune c) && negb (spec.is_digit c) && negb (judge_symbol c).

(** *** The parser *)

Import aparser.

(** A property of every entry of a table of procedures. *)
Definition Procs_all (P : forall A, PM A -> Prop) (self : Procs) : Prop :=
  P _ (call_MainStatement self) /\
  P _ (call_TMP_MainStatement self) /\
  P _ (call_Statement self) /\
  P _ (call_FuncStatement self) /\
  P _ (call_FuncReturnType self) /\
  P _ (call_FuncReturnType_loop self) /\
  P _ (call_FuncReturnType_Factor self) /\
  P _ (call_FuncStatement_Define self) /\
  P _ (call_TMP_FuncStatement_Define self) /\
  P _ (call_BreakStatement self) /\
  P _ (call_ContinueStatement self) /\
  P _ (call_FuncStatement_Define_Factor self) /\
  P _ (call_FuncStatement_Return self) /\
  P _ (call_FuncStatement_Return_loop self) /\
  P _ (call_AssigmentStatement self) /\
  P _ (call_TMP_AssigmentStatement self) /\
  P _ (call_MoreArithmetic_Expression self) /\
  P _ (call_TMP_MoreArithmetic_Expression self) /\
  P _ (call_IFStatement self) /\
  P _ (call_IFStatement_ELSE self) /\
  P _ (call_VarStatement self) /\
  P _ (call_BlockStatement self) /\
  P _ (call_BlockMain_Statement self) /\
  P _ (call_TMP_BlockMain_Statement self) /\
  P _ (call_BlockStatement_Factor self) /\
  P _ (call_CallFuncStatement self) /\
  P _ (call_CallFuncStatement_Arg self) /\
  P _ (call_Tmp_CallFuncStatement_Arg self) /\
  P _ (call_ForStatement self) /\
  P _ (call_ForStatement_Assigment self) /\
  P _ (call_Boolean_Expression self) /\
  P _ (call_Boolean_Expression_loop self) /\
  P _ (call_Boolean_Expression_Factor self) /\
  P _ (call_Arithmetic_Expression self) /\
  (forall head, P _ (call_Arithmetic_Expression_loop self head)) /\
  P _ (call_Arithmetic_Expression_Term self) /\
  (forall head, P _ (call_Arithmetic_Expression_Term_loop self head)) /\
  P _ (call_Arithmetic_Expression_Factor self).

(** The parser reads the token list and moves the cursor; it writes nothing
    else of the scanner's state, nor the file name. *)
Definition same_text (s s' : AParser) : Prop :=
  token_list (AToken s') = token_list (AToken s) /\
  Line (AToken s') = Line (AToken s) /\
  Column (AToken s') = Column (AToken s) /\
  Error_list (AToken s') = Error_list (AToken s) /\
  File s' = File s.

(** Fail-fast discipline: a normal return records no parse error, an exit
    records exactly one, whose text begins with "unexpected "; a panic is
    left open. *)
Definition fail_fast {A} (m : PM A) : Prop :=
  forall s,
    match m s with
    | Ret _ s' => Error_List s' = Error_List s /\ same_text s s'
    | Exit s' =>
        (exists l c f rest,
           Error_List s' =
           Error_List s ++ [mkAParserError l c f (runes "unexpected " ++ rest)]) /\
        same_text s s'
    | Panic => True
    | OutOfFuel => True
    end.

(** The state after the two-token look-ahead of a statement has been undone:
    three [GetToken] calls counted, the cursor back on the first token,
    nothing else touched. *)
Definition rewound (p : nat) (s : AParser) : AParser :=
  let t := AToken s in
  {| AToken :=
       {| token_list := token_list t; Line := Line t; Column := Column t;
          Count := Count t + 1 + 1 + 1; Error_list := Error_list t;
          current_iterator := Some p |};
     Error_List := Error_List s;
     File := File s |}.


(** The shape of the trees the parser builds: every node has its required
    child; an operator tag is set exactly when there is a tail, and is one of
    the level's operators; a factor is a leaf with one of the six leaf tags,
    or a parenthesised expression. *)
Fixpoint parsed_Expression (s : AST_Arithmetic_Expression) : bool :=
  match s with
  | mkExpression ty vt ve =>
      match vt with Some t => parsed_Term t | None => false end
      && match ve with
         | Some e => ((ty =? ADD) || (ty =? SUB)) && parsed_Expression e
         | None => ty =? 0
         end
  end
with parsed_Term (s : AST_Arithmetic_Expression_Term) : bool :=
  match s with
  | mkTerm ty vt vf =>
      match vf with Some f => parsed_Factor f | None => false end
      && match vt with
         | Some t => ((ty =? MUL) || (ty =? DIV) || (ty =? POWER)
                      || (ty =? MOD) || (ty =? RAND)) && parsed_Term t
         | None => ty =? 0
         end
  end
with parsed_Factor (s : AST_Arithmetic_Expression_Factor) : bool :=
  match s with
  | mkFactor ty _ _ _ _ ve _ _ =>
      match ve with
      | Some e => (ty =? ARITHMETICEXPRESSION) && parsed_Expression e
      | None => (ty =? NUMBER) || (ty =? BOOL) || (ty =? SELFOPERATION_ADDSELF)
                || (ty =? SELFOPERATION_SUBSELF) || (ty =? CALLFUNC) || (ty =? VAR)
      end
  end.

(** The type tags a leaf can carry. *)
Definition leaf_tag (T : Z) : Prop :=
  T = NUMBER \/ T = BOOL \/ T = SELFOPERATION_ADDSELF \/
  T = SELFOPERATION_SUBSELF \/ T = CALLFUNC \/ T = VAR.

(** Every result [m] returns satisfies [Q]. *)
Definition yields {A} (Q : A -> Prop) (m : PM A) : Prop :=
  forall s, match m s with Ret a _ => Q a | _ => True end.

(** What the checker does on a well-formed tree: it returns a leaf tag and
    prints nothing, or prints the number/bool conflict and exits. *)
Definition verdict (out : list conflict) (r : outcome (list conflict) Z) : Prop :=
  (exists T, r = Ret T out /\ leaf_tag T) \/ r = Exit (out ++ [number_bool]).

(** The five expression procedures return well-formed trees, the two loop
    procedures when the node they are handed is well formed. *)
Definition well_formed_results (self : Procs) : Prop :=
  yields (fun e => parsed_Expression e = true) (call_Arithmetic_Expression self) /\
  (forall head, parsed_Term head = true ->
     yields (fun e => parsed_Expression e = true)
       (call_Arithmetic_Expression_loop self head)) /\
  yields (fun t => parsed_Term t = true) (call_Arithmetic_Expression_Term self) /\
  (forall head, parsed_Factor head = true ->
     yields (fun t => parsed_Term t = true)
       (call_Arithmetic_Expression_Term_loop self head)) /\
  yields (fun f => parsed_Factor f = true) (call_Arithmetic_Expression_Factor self).

End inv.

(** * Properties *)

Import atoken.

(** ** The token cursor *)

Lemma GetToken_token_list (s s' : ATokenList) (t : option AToken) :
  GetToken s = Ret t s' -> token_list s' = token_list s.
Proof.
  unfold GetToken, bind, get, modify, ret, deref.
  destruct (current_iterator s) as [e|]; simpl.
  - destruct (nth_error (token_list s) e); simpl; [|discriminate].
    intros H; injection H as _ <-; reflexivity.
  - intros H; injection H as _ <-; reflexivity.
Qed.

Lemma BackToken_token_list (s s' : ATokenList) (t : AToken) :
  BackToken s = Ret t s' -> token_list s' = token_list s.
Proof.
  unfold BackToken, bind, get, modify, ret, deref.
  destruct (current_iterator s) as [c|]; simpl.
  - destruct (Prev c) as [e|]; simpl; [|discriminate].
    destruct (nth_error (token_list s) e); simpl; [|discriminate].
    intros H; injection H as _ <-; reflexivity.
  - destruct (Back (token_list s)) as [b|]; simpl; [|discriminate].
    destruct (Prev b) as [e|]; simpl; [|discriminate].
    destruct (nth_error (token_list s) e); simpl; [|discriminate].
    intros H; injection H as _ <-; reflexivity.
Qed.

Lemma run_calls_token_list (cs : list spec.cursor_call) :
  forall s s', spec.run_calls cs s = Ret tt s' -> token_list s' = token_list s.
Proof.
  induction cs as [|c cs IH]; intros s s'; simpl.
  - unfold ret; intros H; injection H as <-; reflexivity.
  - unfold bind at 1.
    destruct (spec.do_call c s) as [[] s1| | |] eqn:E; try discriminate.
    intros H. rewrite (IH _ _ H).
    destruct c; unfold spec.do_call, bind, ret in E.
    + destruct (GetToken s) as [t s2| | |] eqn:G; try discriminate.
      injection E as <-. eapply GetToken_token_list; eauto.
    + destruct (BackToken s) as [t s2| | |] eqn:G; try discriminate.
      injection E as <-. eapply BackToken_token_list; eauto.
Qed.

(** [GetToken] on an element that has a successor. *)
Lemma GetToken_inner (s : ATokenList) (p : nat) (tok : AToken) :
  current_iterator s = Some p ->
  nth_error (token_list s) p = Some tok ->
  (S p < List.length (token_list s))%nat ->
  GetToken s = Ret (Some tok) (incr_Count (set_iterator (Some (S p)) s)).
Proof.
  intros Hc Hn Hl.
  unfold GetToken, bind, get, modify, ret, deref. rewrite Hc, Hn. simpl.
  unfold Next. apply Nat.ltb_lt in Hl. rewrite Hl. reflexivity.
Qed.

(** [GetToken] on the last element leaves the nil cursor. *)
Lemma GetToken_last (s : ATokenList) (p : nat) (tok : AToken) :
  current_iterator s = Some p ->
  nth_error (token_list s) p = Some tok ->
  S p = List.length (token_list s) ->
  GetToken s = Ret (Some tok) (incr_Count (set_iterator None s)).
Proof.
  intros Hc Hn Hl.
  unfold GetToken, bind, get, modify, ret, deref. rewrite Hc, Hn. simpl.
  unfold Next. rewrite <- Hl, Nat.ltb_irrefl. reflexivity.
Qed.

(** [BackToken] from a non-nil cursor that is not at the front. *)
Lemma BackToken_inner (s : ATokenList) (p : nat) (tok : AToken) :
  current_iterator s = Some (S p) ->
  nth_error (token_list s) p = Some tok ->
  BackToken s = Ret tok (set_iterator (Some p) s).
Proof.
  intros Hc Hn.
  unfold BackToken, bind, get, modify, ret, deref. rewrite Hc. simpl.
  rewrite Hn. reflexivity.
Qed.

(** [BackToken] from the nil cursor goes to [Back().Prev()]. *)
Lemma BackToken_nil (s : ATokenList) (p : nat) (tok : AToken) :
  current_iterator s = None ->
  List.length (token_list s) = S (S p) ->
  nth_error (token_list s) p = Some tok ->
  BackToken s = Ret tok (set_iterator (Some p) s).
Proof.
  intros Hc Hl Hn.
  unfold BackToken, bind, get, modify, ret, deref. rewrite Hc.
  unfold Back. destruct (token_list s) as [|x l] eqn:E; [discriminate|].
  rewrite Hl. simpl. rewrite Hn. reflexivity.
Qed.

(** At the last token the round trip is off by the explicit nil branch of
    [BackToken]: the cursor comes back one element earlier. *)
Lemma GetToken_BackToken_at_last (s : ATokenList) (p : nat) (tok prev : AToken) :
  current_iterator s = Some (S p) ->
  List.length (token_list s) = S (S p) ->
  nth_error (token_list s) (S p) = Some tok ->
  nth_error (token_list s) p = Some prev ->
  exists s1 s2,
    GetToken s = Ret (Some tok) s1 /\
    BackToken s1 = Ret prev s2 /\
    current_iterator s2 = Some p.
Proof.
  intros Hc Hl Hn Hp.
  eexists _, _. split; [|split].
  - apply (GetToken_last s (S p)); auto.
  - apply (BackToken_nil _ p); simpl; eauto.
  - reflexivity.
Qed.

(** C1 (as amended). For every token sequence and every cursor position [p]
    reached by any sequence of GetToken/BackToken calls, provided [p] is not
    the last token of the sequence: GetToken then BackToken returns the
    cursor to [p], BackToken hands back the very token GetToken returned, and
    the next GetToken yields it again; that token is the [p]-th token of the
    sequence, whatever the path taken to reach [p]. ([s0] is any state of
    the token list, in particular the one [ReadString] leaves behind.) *)
Theorem cursor_roundtrip_before_last :
  forall (s0 s : ATokenList) (calls : list spec.cursor_call) (p : nat),
    spec.run_calls calls s0 = Ret tt s ->
    current_iterator s = Some p ->
    (S p < List.length (token_list s0))%nat ->
    exists tok s1 s2 s3,
      nth_error (token_list s0) p = Some tok /\
      GetToken s = Ret (Some tok) s1 /\
      BackToken s1 = Ret tok s2 /\
      current_iterator s2 = Some p /\
      token_list s2 = token_list s0 /\
      GetToken s2 = Ret (Some tok) s3 /\
      spec.cursor_roundtrip s.
Proof.
  intros s0 s calls p Hrun Hc Hl.
  pose proof (run_calls_token_list _ _ _ Hrun) as Htl.
  destruct (nth_error (token_list s0) p) as [tok|] eqn:Hn0.
  2:{ apply nth_error_None in Hn0. lia. }
  assert (Hn : nth_error (token_list s) p = Some tok) by (rewrite Htl; exact Hn0).
  assert (Hl' : (S p < List.length (token_list s))%nat) by (rewrite Htl; exact Hl).
  pose proof (GetToken_inner s p tok Hc Hn Hl') as HG.
  set (s1 := incr_Count (set_iterator (Some (S p)) s)) in *.
  assert (HB : BackToken s1 = Ret tok (set_iterator (Some p) s1))
    by (apply BackToken_inner; simpl; auto).
  set (s2 := set_iterator (Some p) s1) in *.
  assert (HG2 : GetToken s2 = Ret (Some tok) (incr_Count (set_iterator (Some (S p)) s2)))
    by (apply GetToken_inner; simpl; auto).
  exists tok, s1, s2, (incr_Count (set_iterator (Some (S p)) s2)).
  split; [reflexivity|]. split; [exact HG|]. split; [exact HB|].
  split; [reflexivity|]. split; [exact Htl|]. split; [exact HG2|].
  exists (Some tok), s1, tok, s2, (incr_Count (set_iterator (Some (S p)) s2)).
  split; [exact HG|]. split; [exact HB|]. split; [symmetry; exact Hc|exact HG2].
Qed.

(** The token list of the source text "x": the identifier and the end marker. *)
Lemma ReadString_x (fuel : nat) :
  ReadString (4 + fuel) (runes "x") New =
  Ret tt {| token_list := [mkAToken 1 1 (runes "x") WORD; mkAToken 1 3 (runes "End") EOF];
            Line := 1; Column := 3; Count := 1; Error_list := [];
            current_iterator := Some O |}.
Proof. vm_compute. reflexivity. Qed.

Lemma cursor_roundtrip_before_last_witness :
  exists s0 s,
    ReadString 4 (runes "x") New = Ret tt s0 /\
    spec.run_calls [spec.call_GetToken; spec.call_BackToken] s0 = Ret tt s /\
    spec.cursor_roundtrip s.
Proof.
  set (toks := [mkAToken 1 1 (runes "x") WORD; mkAToken 1 3 (runes "End") EOF]).
  set (s0 := mkATokenList toks 1 3 1 [] (Some O)).
  set (s := mkATokenList toks 1 3 2 [] (Some O)).
  exists s0, s. split; [apply (ReadString_x 0)|]. split; [vm_compute; reflexivity|].
  destruct (cursor_roundtrip_before_last s0 s
              [spec.call_GetToken; spec.call_BackToken] O)
    as (tok & s1 & s2 & s3 & H).
  - vm_compute; reflexivity.
  - reflexivity.
  - simpl; lia.
  - apply H.
Defined.

(** C1 (as stated) fails: after "x" is scanned and its identifier consumed,
    the cursor is on the end marker, the last token; GetToken then BackToken
    leave it on the identifier instead. *)
Lemma cursor_roundtrip_fails_at_last_token :
  exists s0 s,
    ReadString 4 (runes "x") New = Ret tt s0 /\
    spec.run_calls [spec.call_GetToken] s0 = Ret tt s /\
    current_iterator s = Some 1%nat /\
    ~ spec.cursor_roundtrip s.
Proof.
  eexists _, _. split; [apply (ReadString_x 0)|]. split; [vm_compute; reflexivity|].
  split; [reflexivity|].
  intros (tok & s1 & tok' & s2 & s3 & HG & HB & Hc & _).
  vm_compute in HG. injection HG as <- <-.
  vm_compute in HB. injection HB as <- <-.
  discriminate Hc.
Qed.

(** ** The silent skip at statement level *)

Section Silent_skip.

Import aparser.

Lemma parser_Get_at (s : AParser) (p : nat) (tok : atoken.AToken) :
  current_iterator (AToken s) = Some p ->
  nth_error (token_list (AToken s)) p = Some tok ->
  Get s = Ret tok (set_AToken
                     (incr_Count (set_iterator (Next (token_list (AToken s)) p) (AToken s))) s).
Proof.
  intros Hc Hn.
  unfold Get, aparser.GetToken, on_AToken, bind at 1.
  unfold atoken.GetToken, bind, get, modify, ret, deref.
  rewrite Hc, Hn. reflexivity.
Qed.

Lemma parser_GetToken_at (s : AParser) (p : nat) (tok : atoken.AToken) :
  current_iterator (AToken s) = Some p ->
  nth_error (token_list (AToken s)) p = Some tok ->
  aparser.GetToken s =
  Ret (Some tok) (set_AToken
                    (incr_Count (set_iterator (Next (token_list (AToken s)) p) (AToken s))) s).
Proof.
  intros Hc Hn.
  unfold aparser.GetToken, on_AToken.
  unfold atoken.GetToken, bind, get, modify, ret, deref.
  rewrite Hc, Hn. reflexivity.
Qed.

Lemma parser_BackToken_at (s : AParser) (p : nat) (tok : atoken.AToken) :
  current_iterator (AToken s) = Some (S p) ->
  nth_error (token_list (AToken s)) p = Some tok ->
  aparser.BackToken s = Ret tok (set_AToken (set_iterator (Some p) (AToken s)) s).
Proof.
  intros Hc Hn.
  unfold aparser.BackToken, on_AToken.
  rewrite (BackToken_inner (AToken s) p tok Hc Hn). reflexivity.
Qed.

Lemma Type_is_false (tok : atoken.AToken) (type : Z) :
  tok_Type tok <> type -> Type_is tok type = false.
Proof. intros H. unfold Type_is. apply Z.eqb_neq. exact H. Qed.

(** C10. When the first token of a statement is an identifier (WORD) and
    the token after it is none of '(', '=' or ',', both Statement and
    BlockStatement_Factor consume those two tokens, record no error and
    return true; no other grammar procedure is entered (the result is the
    same whatever [self] is), so no AST node is built. *)
Theorem word_statement_silently_skipped :
  forall (self : Procs) (s : AParser) (p : nat) (word next : atoken.AToken),
    current_iterator (AToken s) = Some p ->
    nth_error (token_list (AToken s)) p = Some word ->
    nth_error (token_list (AToken s)) (S p) = Some next ->
    tok_Type word = atoken.WORD ->
    tok_Type next <> atoken.LP ->
    tok_Type next <> atoken.ASSIGMENT ->
    tok_Type next <> atoken.COMMA ->
    Statement self s = Ret true (spec.skipped p s) /\
    BlockStatement_Factor self s = Ret true (spec.skipped p s) /\
    Error_List (spec.skipped p s) = Error_List s /\
    Error_list (AToken (spec.skipped p s)) = Error_list (AToken s).
Proof.
  intros self s p word next Hc Hw Hn Tw T1 T2 T3.
  assert (Hlt : (S p < List.length (token_list (AToken s)))%nat)
    by (apply nth_error_Some; rewrite Hn; discriminate).
  assert (HN : Next (token_list (AToken s)) p = Some (S p))
    by (unfold Next; apply Nat.ltb_lt in Hlt; rewrite Hlt; reflexivity).
  pose proof (parser_Get_at s p word Hc Hw) as G1. rewrite HN in G1.
  set (s1 := set_AToken (incr_Count (set_iterator (Some (S p)) (AToken s))) s) in *.
  assert (B1 : aparser.BackToken s1 = Ret word (set_AToken (set_iterator (Some p) (AToken s1)) s1))
    by (apply parser_BackToken_at; [reflexivity | exact Hw]).
  set (s2 := set_AToken (set_iterator (Some p) (AToken s1)) s1) in *.
  assert (G2 : aparser.GetToken s2 =
               Ret (Some word)
                 (set_AToken (incr_Count (set_iterator (Next (token_list (AToken s2)) p) (AToken s2))) s2))
    by (apply parser_GetToken_at; [reflexivity | exact Hw]).
  change (token_list (AToken s2)) with (token_list (AToken s)) in G2. rewrite HN in G2.
  set (s3 := set_AToken (incr_Count (set_iterator (Some (S p)) (AToken s2))) s2) in *.
  assert (G3 : Get s3 =
               Ret next
                 (set_AToken (incr_Count (set_iterator (Next (token_list (AToken s3)) (S p)) (AToken s3))) s3))
    by (apply parser_Get_at; [reflexivity | exact Hn]).
  assert (E : set_AToken (incr_Count (set_iterator (Next (token_list (AToken s3)) (S p)) (AToken s3))) s3
              = spec.skipped p s) by reflexivity.
  rewrite E in G3. clear E.
  assert (W : forall type, atoken.WORD <> type -> Type_is word type = false)
    by (intros type H; apply Type_is_false; rewrite Tw; exact H).
  assert (WW : Type_is word atoken.WORD = true)
    by (unfold Type_is; rewrite Tw; reflexivity).
  split; [|split; [|split; reflexivity]].
  - unfold Statement.
    unfold bind at 1. rewrite G1.
    unfold bind at 1. rewrite B1.
    rewrite !W by discriminate. rewrite WW.
    unfold bind at 1. rewrite G2.
    unfold bind at 1. unfold bind at 1. rewrite G3.
    rewrite !Type_is_false by assumption. reflexivity.
  - unfold BlockStatement_Factor.
    unfold bind at 1. rewrite G1.
    unfold bind at 1. rewrite B1.
    rewrite !W by discriminate. rewrite WW.
    unfold bind at 1. rewrite G2.
    unfold bind at 1. unfold bind at 1. rewrite G3.
    rewrite !Type_is_false by assumption. reflexivity.
Qed.

End Silent_skip.

Import aparser.

Lemma word_statement_silently_skipped_witness :
  exists s,
    on_AToken (atoken.ReadString 16 (runes "foo bar")) aparser.New = Ret tt s /\
    Statement no_procs s = Ret true (spec.skipped 0 s) /\
    BlockStatement_Factor no_procs s = Ret true (spec.skipped 0 s) /\
    current_iterator (AToken (spec.skipped 0 s)) = Some 2%nat.
Proof.
  eexists. split; [vm_compute; reflexivity|].
  match goal with |- Statement _ ?s = _ /\ _ => set (st := s) end.
  destruct (word_statement_silently_skipped no_procs st 0
              (mkAToken 1 1 (runes "foo") atoken.WORD)
              (mkAToken 1 5 (runes "bar") atoken.WORD))
    as (H1 & H2 & _); try reflexivity; try (vm_compute; discriminate).
  split; [exact H1|]. split; [exact H2|]. reflexivity.
Defined.

(** ** Precedence of the random-range operator *)

(** C2. The random-range operator is parsed at the Term level, with
    [* / ^ %]: for the input "1 + 2 ~ 10" [Arithmetic_Expression] (entered
    through [ReadBasicExpression]) returns the additive node whose left
    operand is 1 and whose right operand is the chain 2~10, i.e. the
    grouping 1 + (2~10), with any recursion budget from 32 on; and whatever
    multiplicative-level token stands between the second and third number,
    the grouping is the same. *)
Theorem random_range_parsed_at_term_level :
  (forall fuel, exists st,
     ReadBasicExpression (32 + fuel) (runes "1 + 2 ~ 10") aparser.New =
     Ret (mkExpression ADD
            (Some (spec.just_factor (spec.number_factor "1")))
            (Some (spec.just_term
                     (mkTerm RAND
                        (Some (spec.just_factor (spec.number_factor "10")))
                        (Some (spec.number_factor "2"))))))
         st)
  /\
  (forall (fuel : nat) (a b c : gostring) (op : atoken.AToken) (node_type : Z),
     In (tok_Type op, node_type)
        [(atoken.MUL, MUL); (atoken.DIV, DIV); (atoken.POWER, POWER);
         (atoken.MOD, MOD); (atoken.RAND, RAND)] ->
     let number v := mkAToken 1 1 v atoken.NUMBER in
     let leaf v := mkFactor NUMBER (Some (New_ASTNumber v)) 0 false None None [] 1 in
     let tokens := [number a; mkAToken 1 1 (runes "+") atoken.ADD; number b; op;
                    number c; mkAToken 1 1 (runes "End") atoken.EOF] in
     exists st,
       call_Arithmetic_Expression (procs (32 + fuel))
         (set_AToken (mkATokenList tokens 1 1 1 [] (Some O)) aparser.New) =
       Ret (mkExpression ADD
              (Some (spec.just_factor (leaf a)))
              (Some (spec.just_term
                       (mkTerm node_type (Some (spec.just_factor (leaf c)))
                          (Some (leaf b))))))
           st).
Proof.
  split.
  - intros fuel. eexists. vm_compute. reflexivity.
  - intros fuel a b c [l col v ty] node_type Hin number leaf tokens.
    simpl in Hin.
    destruct Hin as [H|[H|[H|[H|[H|[]]]]]]; injection H as <- <-;
      eexists; vm_compute; reflexivity.
Qed.

Lemma random_range_parsed_at_term_level_witness :
  exists st,
    call_Arithmetic_Expression (procs 32)
      (set_AToken
         (mkATokenList
            [mkAToken 1 1 (runes "1") atoken.NUMBER; mkAToken 1 1 (runes "+") atoken.ADD;
             mkAToken 1 1 (runes "2") atoken.NUMBER; mkAToken 1 1 (runes "~") atoken.RAND;
             mkAToken 1 1 (runes "10") atoken.NUMBER; mkAToken 1 1 (runes "End") atoken.EOF]
            1 1 1 [] (Some O)) aparser.New) =
    Ret (mkExpression ADD
           (Some (spec.just_factor (spec.number_factor "1")))
           (Some (spec.just_term
                    (mkTerm RAND (Some (spec.just_factor (spec.number_factor "10")))
                       (Some (spec.number_factor "2"))))))
        st.
Proof.
  destruct random_range_parsed_at_term_level as [_ H].
  apply (H O (runes "1") (runes "2") (runes "10")
           (mkAToken 1 1 (runes "~") atoken.RAND) RAND).
  simpl. tauto.
Defined.

(** ** The type checker *)

Lemma check_pair_Forbidden (Type1 Type2 : Z) (c : conflict) (out : list conflict) :
  spec.Forbidden Type1 Type2 c -> check_pair Type1 Type2 out = Exit (out ++ [c]).
Proof. intros H; destruct H; reflexivity. Qed.

(** [(a =? x) && (b =? y)] is false when the pair [x], [y] would be a
    forbidden one and no forbidden pair is present. *)
Ltac not_this_pair H ctor :=
  match goal with
  | |- (?a =? ?x) && (?b =? ?y) = false =>
      destruct (Z.eqb_spec a x) as [?|?];
      [ destruct (Z.eqb_spec b y) as [?|?];
        [ exfalso; subst; exact (H _ ctor) | reflexivity ]
      | reflexivity ]
  end.

Lemma check_pair_allowed (Type1 Type2 : Z) (out : list conflict) :
  (forall c, ~ spec.Forbidden Type1 Type2 c) -> check_pair Type1 Type2 out = Ret Type1 out.
Proof.
  intros H. unfold check_pair.
  assert (B : ((Type1 =? BOOL) && (Type2 =? NUMBER)) || ((Type1 =? NUMBER) && (Type2 =? BOOL)) = false).
  { apply orb_false_iff; split;
      [not_this_pair H spec.Boolean_Number | not_this_pair H spec.Number_Boolean]. }
  assert (S : ((Type1 =? STRING) && (Type2 =? NUMBER)) || ((Type1 =? NUMBER) && (Type2 =? STRING)) = false).
  { apply orb_false_iff; split;
      [not_this_pair H spec.String_Number | not_this_pair H spec.Number_String]. }
  assert (C : ((Type1 =? CHAR) && (Type2 =? NUMBER)) || ((Type1 =? NUMBER) && (Type2 =? CHAR)) = false).
  { apply orb_false_iff; split;
      [not_this_pair H spec.Char_Number | not_this_pair H spec.Number_Char]. }
  rewrite B, S, C. reflexivity.
Qed.

(** A node with a tail checks its left operand, then its tail, then the pair. *)
Lemma Expression_CheckType_binary ty t e out :
  Expression_CheckType (mkExpression ty (Some t) (Some e)) out =
  (Type1 <- Term_CheckType t ;; Type2 <- Expression_CheckType e ;;
   check_pair Type1 Type2)%monad out.
Proof. simpl. rewrite andb_false_r. reflexivity. Qed.

Lemma Term_CheckType_binary ty t f out :
  Term_CheckType (mkTerm ty (Some t) (Some f)) out =
  (Type1 <- Factor_CheckType f ;; Type2 <- Term_CheckType t ;;
   check_pair Type1 Type2)%monad out.
Proof. simpl. rewrite andb_false_r. reflexivity. Qed.

(** C3. At every binary node, of either chain level, whose operands have
    the types [Type1] and [Type2]: if the pair is one of Number/Boolean,
    Number/String, Number/Char, in either order, CheckType prints the
    matching message and exits, returning no type; for every other pair it
    returns normally. The tree parsed from "1 + true" is reported as a
    Number/Boolean conflict. *)
Theorem CheckType_rejects_exactly_number_mixes :
  (forall ty t e out out1 out2 Type1 Type2,
     Term_CheckType t out = Ret Type1 out1 ->
     Expression_CheckType e out1 = Ret Type2 out2 ->
     let node := mkExpression ty (Some t) (Some e) in
     (forall c, spec.Forbidden Type1 Type2 c ->
                Expression_CheckType node out = Exit (out2 ++ [c])) /\
     ((forall c, ~ spec.Forbidden Type1 Type2 c) ->
      Expression_CheckType node out = Ret Type1 out2))
  /\
  (forall ty f t out out1 out2 Type1 Type2,
     Factor_CheckType f out = Ret Type1 out1 ->
     Term_CheckType t out1 = Ret Type2 out2 ->
     let node := mkTerm ty (Some t) (Some f) in
     (forall c, spec.Forbidden Type1 Type2 c ->
                Term_CheckType node out = Exit (out2 ++ [c])) /\
     ((forall c, ~ spec.Forbidden Type1 Type2 c) ->
      Term_CheckType node out = Ret Type1 out2))
  /\
  (forall fuel, exists tree st,
     ReadBasicExpression (32 + fuel) (runes "1 + true") aparser.New = Ret tree st /\
     Expression_CheckType tree [] = Exit [number_bool]).
Proof.
  split; [|split].
  - intros ty t e out out1 out2 Type1 Type2 H1 H2 node. subst node.
    rewrite Expression_CheckType_binary. unfold bind. rewrite H1, H2.
    split; intros H.
    + intros; apply check_pair_Forbidden; assumption.
    + apply check_pair_allowed; assumption.
  - intros ty f t out out1 out2 Type1 Type2 H1 H2 node. subst node.
    rewrite Term_CheckType_binary. unfold bind. rewrite H1, H2.
    split; intros H.
    + intros; apply check_pair_Forbidden; assumption.
    + apply check_pair_allowed; assumption.
  - intros fuel. eexists _, _. split; vm_compute; reflexivity.
Qed.

Lemma CheckType_rejects_exactly_number_mixes_witness :
  Expression_CheckType
    (mkExpression ADD (Some (spec.just_factor (spec.number_factor "1")))
       (Some (spec.just_term (spec.just_factor
                (mkFactor BOOL None 0 true None None [] 1))))) []
  = Exit [number_bool]
  /\
  Term_CheckType
    (mkTerm MUL (Some (spec.just_factor (spec.number_factor "2")))
       (Some (spec.number_factor "1"))) []
  = Ret NUMBER [].
Proof.
  destruct CheckType_rejects_exactly_number_mixes as (HE & HT & _).
  split.
  - refine (proj1 (HE ADD _ _ [] [] [] NUMBER BOOL _ _) number_bool _).
    + reflexivity.
    + reflexivity.
    + constructor.
  - refine (proj2 (HT MUL _ _ [] [] [] NUMBER NUMBER _ _) _).
    + reflexivity.
    + reflexivity.
    + intros c H; inversion H.
Defined.





(** ** Rational numbers *)

Lemma gcd_signed (a b : Z) : b <> 0 -> Z.gcd (Z.sgn b * a) (Z.abs b) = Z.gcd a b.
Proof.
  intros Hb. rewrite Z.gcd_abs_r.
  destruct (Z.sgn_spec b) as [[_ ->]|[[? _]|[_ ->]]]; try lia.
  - now rewrite Z.mul_1_l.
  - replace (-1 * a) with (- a) by lia. apply Z.gcd_opp_l.
Qed.

Lemma gcd_pos_r (a b : Z) : b <> 0 -> 0 < Z.gcd a b.
Proof.
  intros Hb. pose proof (Z.gcd_nonneg a b).
  assert (Z.gcd a b <> 0) by (intros H0; apply Z.gcd_eq_0_r in H0; contradiction).
  lia.
Qed.

Lemma norm_normal (a b : Z) : b <> 0 -> spec.normal (big.norm a b).
Proof.
  intros Hb. unfold spec.normal, big.norm; simpl.
  pose proof (gcd_pos_r a b Hb) as Hg.
  pose proof (gcd_signed a b Hb) as Hs.
  split.
  - destruct (Z.gcd_divide_r a b) as [k Hk].
    assert (Z.abs b = Z.abs k * Z.gcd a b) as ->
      by (rewrite Hk at 1; rewrite Z.abs_mul, (Z.abs_eq (Z.gcd a b)); lia).
    rewrite Z.div_mul by lia.
    assert (k <> 0) by (intros ->; lia). lia.
  - apply Z.gcd_div_gcd; [lia | symmetry; exact Hs].
Qed.

Lemma norm_cross (a b : Z) :
  b <> 0 -> big.num (big.norm a b) * b = a * big.denom (big.norm a b).
Proof.
  intros Hb. unfold big.norm; simpl.
  pose proof (gcd_pos_r a b Hb) as Hg.
  destruct (Z.gcd_divide_l a b) as [a0 Ha].
  destruct (Z.gcd_divide_r a b) as [b0 Hb0].
  set (g := Z.gcd a b) in *.
  assert (E1 : Z.sgn b * a / g = Z.sgn b * a0).
  { rewrite Ha, Z.mul_assoc. apply Z.div_mul. lia. }
  assert (E2 : Z.abs b / g = Z.abs b0).
  { rewrite Hb0, Z.abs_mul, (Z.abs_eq g) by lia. apply Z.div_mul. lia. }
  rewrite E1, E2.
  assert (Z.sgn b = Z.sgn b0) as ->.
  { rewrite Hb0, Z.sgn_mul, (Z.sgn_pos g) by lia. lia. }
  rewrite Ha, Hb0.
  pose proof (Z.abs_sgn b0). nia.
Qed.

Lemma norm_id (r : big.Rat) : spec.normal r -> big.norm (big.num r) (big.denom r) = r.
Proof.
  destruct r as [n d]. unfold spec.normal, big.norm; simpl. intros [Hd Hg].
  rewrite Hg, Z.sgn_pos, Z.abs_eq, !Z.div_1_r by lia. f_equal. lia.
Qed.

Lemma normal_unique (p q r t : Z) :
  0 < q -> 0 < t -> Z.gcd p q = 1 -> Z.gcd r t = 1 -> p * t = r * q ->
  p = r /\ q = t.
Proof.
  intros Hq Ht Hpq Hrt Hx.
  assert (D1 : (q | t)).
  { apply Z.gauss with p; [exists r; exact Hx | rewrite Z.gcd_comm; exact Hpq]. }
  assert (D2 : (t | q)).
  { apply Z.gauss with r; [exists p; symmetry; exact Hx | rewrite Z.gcd_comm; exact Hrt]. }
  assert (q = t) by (apply Z.divide_antisym_nonneg; try assumption; lia).
  subst t. split; [nia | reflexivity].
Qed.

Lemma norm_canonical (a b c d : Z) :
  b <> 0 -> d <> 0 -> a * d = c * b -> big.norm a b = big.norm c d.
Proof.
  intros Hb Hd Hx.
  pose proof (norm_normal a b Hb) as [N1 N2].
  pose proof (norm_normal c d Hd) as [M1 M2].
  pose proof (norm_cross a b Hb) as X1.
  pose proof (norm_cross c d Hd) as X2.
  destruct (big.norm a b) as [p q], (big.norm c d) as [r t]; simpl in *.
  assert (p * t = r * q).
  { apply Z.mul_reg_r with (b * d); [nia|].
    replace (p * t * (b * d)) with ((p * b) * (t * d)) by ring.
    replace (r * q * (b * d)) with ((r * d) * (q * b)) by ring.
    rewrite X1, X2.
    replace (a * q * (t * d)) with ((a * d) * (q * t)) by ring.
    rewrite Hx. ring. }
  destruct (normal_unique p q r t) as [-> ->]; auto.
Qed.

Lemma digits_of_digit_string (l : gostring) :
  forall acc, forallb spec.is_digit l = true -> exists n, big.digits acc l = Some n.
Proof.
  induction l as [|c l IH]; intros acc H; simpl.
  - eauto.
  - simpl in H. apply andb_true_iff in H as [Hc Hl].
    unfold spec.is_digit in Hc. rewrite Hc. apply IH; assumption.
Qed.

(** Whatever [SetString] accepts is stored in lowest terms. *)
Lemma SetString_normal (s : gostring) (r : big.Rat) :
  big.SetString s = Some r -> spec.normal r.
Proof.
  unfold big.SetString.
  destruct (big.split_dot s) as [ip [fp|]].
  - destruct (ip ++ fp); [discriminate|].
    destruct (big.digits 0 _); [|discriminate].
    destruct (big.digits 0 fp); [|discriminate].
    intros H; injection H as <-. apply norm_normal.
    apply Z.pow_nonzero; [lia | unfold len; lia].
  - destruct ip; [discriminate|].
    destruct (big.digits 0 _); [|discriminate].
    intros H; injection H as <-. apply norm_normal. lia.
Qed.

(** Every decimal literal is accepted. *)
Lemma SetString_decimal_literal (s : gostring) :
  spec.decimal_literal s = true -> exists r, big.SetString s = Some r.
Proof.
  unfold spec.decimal_literal, big.SetString.
  destruct (big.split_dot s) as [ip [fp|]]; intros H.
  - apply andb_true_iff in H as [H Hfp].
    apply andb_true_iff in H as [H Nfp].
    apply andb_true_iff in H as [Nip Hip].
    destruct (digits_of_digit_string (ip ++ fp) 0) as [m Hm].
    { rewrite forallb_app, Hip, Hfp. reflexivity. }
    destruct (digits_of_digit_string fp 0 Hfp) as [k Hk].
    rewrite Hm, Hk. destruct ip; [discriminate|]. simpl. eauto.
  - apply andb_true_iff in H as [Nip Hip].
    destruct ip as [|c ip]; [discriminate|].
    destruct (digits_of_digit_string (c :: ip) 0 Hip) as [m Hm].
    rewrite Hm. eauto.
Qed.

Lemma New_ASTNumber_decimal_literal (l : gostring) :
  spec.decimal_literal l = true -> spec.holds_normal (New_ASTNumber l).
Proof.
  intros H. destruct (SetString_decimal_literal l H) as [r Hr].
  unfold New_ASTNumber, Init. rewrite Hr.
  exists r. split; [reflexivity | eapply SetString_normal; eauto].
Qed.

Lemma Mul_Quo_exact (x y q : big.Rat) :
  spec.normal x -> spec.normal y -> big.Quo x y = Some q -> big.Mul q y = x.
Proof.
  intros [Hx1 Hx2] [Hy1 Hy2]. unfold big.Quo.
  destruct (Z.eqb_spec (big.num y) 0) as [|Hn]; [discriminate|].
  intros H; injection H as <-.
  assert (Hd : big.denom x * big.num y <> 0) by nia.
  pose proof (norm_cross (big.num x * big.denom y) (big.denom x * big.num y) Hd) as X.
  pose proof (norm_normal (big.num x * big.denom y) (big.denom x * big.num y) Hd) as [N _].
  unfold big.Mul.
  destruct (big.norm (big.num x * big.denom y) (big.denom x * big.num y)) as [p q];
    simpl in *.
  transitivity (big.norm (big.num x) (big.denom x));
    [|apply norm_id; split; assumption].
  apply norm_canonical; [nia | lia |].
  replace (p * big.num y * big.denom x) with (p * (big.denom x * big.num y)) by ring.
  rewrite X. ring.
Qed.

(** *** Exactness *)

Lemma value_normal (r : big.Rat) :
  spec.normal r -> Z.pos (Qden (spec.value r)) = big.denom r.
Proof.
  intros [P _]. unfold spec.value. cbn [Qden]. apply Z2Pos.id, P.
Qed.

(** [norm a b] stands for the quotient [a / b]. *)
Lemma value_norm (a b : Z) :
  b <> 0 -> (spec.value (big.norm a b) * inject_Z b == inject_Z a)%Q.
Proof.
  intros B. pose proof (norm_normal a b B) as N.
  pose proof (norm_cross a b B) as C.
  unfold Qeq, Qmult, inject_Z. cbn [Qnum Qden].
  rewrite Pos.mul_1_r. rewrite (value_normal _ N).
  unfold spec.value. cbn [Qnum]. lia.
Qed.

Lemma value_nonzero (r : big.Rat) : big.num r <> 0 -> ~ (spec.value r == 0)%Q.
Proof.
  intros N E. apply N. unfold Qeq, spec.value in E. cbn [Qnum Qden] in E. lia.
Qed.

Ltac to_fractions :=
  unfold Qminus, Qopp; unfold Qeq, Qplus, Qmult; cbn [Qnum Qden];
  rewrite ?Pos2Z.inj_mul, ?value_normal by assumption;
  unfold spec.value; cbn [Qnum].

Lemma value_Add (x y : big.Rat) :
  spec.normal x -> spec.normal y ->
  (spec.value (big.Add x y) == spec.value x + spec.value y)%Q.
Proof.
  intros Nx Ny.
  assert (D : big.denom x * big.denom y <> 0) by (destruct Nx, Ny; nia).
  pose proof (norm_normal (big.num x * big.denom y + big.num y * big.denom x) _ D) as Nz.
  pose proof (norm_cross (big.num x * big.denom y + big.num y * big.denom x) _ D) as C.
  unfold big.Add. to_fractions. exact C.
Qed.

Lemma value_Sub (x y : big.Rat) :
  spec.normal x -> spec.normal y ->
  (spec.value (big.Sub x y) == spec.value x - spec.value y)%Q.
Proof.
  intros Nx Ny.
  assert (D : big.denom x * big.denom y <> 0) by (destruct Nx, Ny; nia).
  pose proof (norm_normal (big.num x * big.denom y - big.num y * big.denom x) _ D) as Nz.
  pose proof (norm_cross (big.num x * big.denom y - big.num y * big.denom x) _ D) as C.
  unfold big.Sub. to_fractions. lia.
Qed.

Lemma value_Mul (x y : big.Rat) :
  spec.normal x -> spec.normal y ->
  (spec.value (big.Mul x y) == spec.value x * spec.value y)%Q.
Proof.
  intros Nx Ny.
  assert (D : big.denom x * big.denom y <> 0) by (destruct Nx, Ny; nia).
  pose proof (norm_normal (big.num x * big.num y) _ D) as Nz.
  pose proof (norm_cross (big.num x * big.num y) _ D) as C.
  unfold big.Mul. to_fractions. exact C.
Qed.

Lemma value_Quo (x y q : big.Rat) :
  spec.normal x -> spec.normal y -> big.Quo x y = Some q ->
  (spec.value q == spec.value x / spec.value y)%Q.
Proof.
  intros Nx Ny Q.
  unfold big.Quo in Q. destruct (big.num y =? 0) eqn:Z0; [discriminate|].
  apply Z.eqb_neq in Z0. injection Q as <-.
  assert (D : big.denom x * big.num y <> 0) by (destruct Nx; nia).
  pose proof (norm_normal (big.num x * big.denom y) _ D) as Nz.
  pose proof (norm_cross (big.num x * big.denom y) _ D) as C.
  rewrite <- (Qdiv_mult_l (spec.value (big.norm _ _)) (spec.value y)) by (apply value_nonzero, Z0).
  apply Qdiv_comp; [|reflexivity].
  to_fractions. lia.
Qed.

(** *** Literals *)

Lemma integer_part_step (a d : Z) :
  (inject_Z a * inject_Z 10 + inject_Z d)%Q = inject_Z (10 * a + d).
Proof. unfold Qplus, Qmult, inject_Z. cbn [Qnum Qden Pos.mul]. f_equal. lia. Qed.

Lemma digits_integer_part (ds : gostring) :
  forall acc n, big.digits acc ds = Some n ->
    spec.integer_part (inject_Z acc) ds = inject_Z n.
Proof.
  induction ds as [|c rest IH]; intros acc n; cbn [big.digits spec.integer_part].
  - intros H; injection H as <-; reflexivity.
  - destruct ((c >=? rune_of "0") && (c <=? rune_of "9")); [|discriminate].
    intros H. rewrite integer_part_step. apply IH, H.
Qed.

Lemma digits_app (a b : gostring) :
  forall acc, big.digits acc (a ++ b) =
    match big.digits acc a with Some n => big.digits n b | None => None end.
Proof.
  induction a as [|c rest IH]; intros acc; cbn [app big.digits]; [reflexivity|].
  destruct ((c >=? rune_of "0") && (c <=? rune_of "9")); [apply IH | reflexivity].
Qed.

Lemma pow10_len_cons (c : rune) (l : gostring) :
  10 ^ len (c :: l) = 10 * 10 ^ len l.
Proof.
  unfold len. cbn [List.length]. rewrite Nat2Z.inj_succ, Z.pow_succ_r by lia.
  reflexivity.
Qed.

Lemma digits_shift (b : gostring) :
  forall acc acc' m m',
    big.digits acc b = Some m -> big.digits acc' b = Some m' ->
    m - m' = (acc - acc') * 10 ^ len b.
Proof.
  induction b as [|c rest IH]; intros acc acc' m m'; cbn [big.digits].
  - intros H H'; injection H as <-; injection H' as <-.
    change (len (@nil rune)) with 0. lia.
  - destruct ((c >=? rune_of "0") && (c <=? rune_of "9")); [|discriminate].
    intros H H'. rewrite (IH _ _ _ _ H H').
    rewrite pow10_len_cons. ring.
Qed.

Lemma fraction_part_digits (fp : gostring) :
  forall f, big.digits 0 fp = Some f ->
    (spec.fraction_part fp * inject_Z (10 ^ len fp) == inject_Z f)%Q.
Proof.
  induction fp as [|c rest IH]; intros f; cbn [big.digits spec.fraction_part].
  - intros H; injection H as <-. reflexivity.
  - destruct ((c >=? rune_of "0") && (c <=? rune_of "9")) eqn:D; [|discriminate].
    intros H.
    destruct (big.digits 0 rest) as [f'|] eqn:R.
    2:{ exfalso. clear IH. revert H R. generalize (10 * 0 + (c - rune_of "0")).
        generalize 0. induction rest as [|c' rest' IH']; intros a b; cbn [big.digits].
        - discriminate.
        - destruct ((c' >=? rune_of "0") && (c' <=? rune_of "9")); [|discriminate].
          intros H R. eapply IH'; eauto. }
    pose proof (digits_shift rest _ _ _ _ H R) as S.
    specialize (IH f' eq_refl).
    assert (E : f = (c - rune_of "0") * 10 ^ len rest + f') by lia.
    rewrite E, pow10_len_cons.
    rewrite inject_Z_plus, !inject_Z_mult, <- IH.
    unfold Qdiv. change (/ inject_Z 10)%Q with (1 # 10)%Q.
    change (inject_Z 10) with (10 # 1)%Q. ring.
Qed.

Lemma SetString_value (l : gostring) :
  spec.decimal_literal l = true ->
  exists r, big.SetString l = Some r /\ spec.normal r /\ (spec.value r == spec.decimal_value l)%Q.
Proof.
  intros W. destruct (SetString_decimal_literal l W) as [r E].
  exists r. split; [exact E|]. split; [eapply SetString_normal; eauto|].
  unfold big.SetString in E. unfold spec.decimal_value.
  destruct (big.split_dot l) as [ip [fp|]].
  - destruct (ip ++ fp) as [|c0 rest0] eqn:EA; [discriminate|].
    rewrite <- EA in E.
    destruct (big.digits 0 (ip ++ fp)) as [m|] eqn:Dm; [|discriminate].
    destruct (big.digits 0 fp) as [f|] eqn:Df; [|discriminate].
    injection E as <-.
    rewrite digits_app in Dm.
    destruct (big.digits 0 ip) as [n|] eqn:Dn; [|discriminate].
    pose proof (digits_shift fp _ _ _ _ Dm Df) as S.
    assert (P : 10 ^ len fp <> 0) by (apply Z.pow_nonzero; unfold len; lia).
    pose proof (value_norm m _ P) as V.
    pose proof (fraction_part_digits fp f Df) as F.
    rewrite (digits_integer_part ip 0 n Dn).
    assert (NZ : ~ (inject_Z (10 ^ len fp) == 0)%Q).
    { unfold Qeq, inject_Z. cbn [Qnum Qden]. lia. }
    apply (Qmult_inj_r _ _ _ NZ).
    rewrite V, Qmult_plus_distr_l, F, <- inject_Z_mult, <- inject_Z_plus.
    assert (m = n * 10 ^ len fp + f) as -> by lia. reflexivity.
  - destruct ip as [|c0 rest0]; [discriminate|].
    destruct (big.digits 0 (c0 :: rest0)) as [n|] eqn:Dn; [|discriminate].
    injection E as <-.
    rewrite (digits_integer_part _ 0 n Dn).
    pose proof (value_norm n 1 ltac:(lia)) as V.
    rewrite <- V. change (inject_Z 1) with 1%Q. ring.
Qed.

(** C5. Rational arithmetic is exact. Adding the values of the literals
    "0.1" and "0.2" gives exactly the spec.value of "0.3". Every decimal literal
    is stored in lowest terms with a positive denominator and stands for
    exactly the number its digits denote. For all stored values in lowest
    terms, Add, Sub and Mul store, again in lowest terms with a positive
    denominator, exactly the sum, the difference and the product of the
    rational numbers their operands stand for; Div by a non-zero spec.value
    stores exactly their quotient, so it never truncates (multiplying the
    stored quotient by the divisor gives the dividend back), and Div by zero
    panics and stores nothing. *)
Theorem rational_arithmetic_is_exact :
  (forall s, Rat s <> None ->
     Add s (New_ASTNumber (runes "0.1")) (New_ASTNumber (runes "0.2"))
     = Some (New_ASTNumber (runes "0.3")))
  /\
  (forall l, spec.decimal_literal l = true ->
     exists r, Rat (New_ASTNumber l) = Some r /\ spec.normal r /\
               (spec.value r == spec.decimal_value l)%Q)
  /\
  (forall s a b ra rb,
     Rat s <> None -> Rat a = Some ra -> Rat b = Some rb ->
     spec.normal ra -> spec.normal rb ->
     (exists z, Add s a b = Some (mkAST_Number (Some z)) /\ spec.normal z /\
                (spec.value z == spec.value ra + spec.value rb)%Q) /\
     (exists z, Sub s a b = Some (mkAST_Number (Some z)) /\ spec.normal z /\
                (spec.value z == spec.value ra - spec.value rb)%Q) /\
     (exists z, Mul s a b = Some (mkAST_Number (Some z)) /\ spec.normal z /\
                (spec.value z == spec.value ra * spec.value rb)%Q) /\
     (big.num rb = 0 -> Div s a b = None) /\
     (big.num rb <> 0 ->
        exists q, Div s a b = Some (mkAST_Number (Some q)) /\ spec.normal q /\
                  (spec.value q == spec.value ra / spec.value rb)%Q /\
                  Mul s (mkAST_Number (Some q)) b = Some a)).
Proof.
  split; [|split].
  - intros [[r|]] H; [|contradiction]. vm_compute. reflexivity.
  - intros l W. destruct (SetString_value l W) as (r & E & N & V).
    exists r. unfold New_ASTNumber, Init. rewrite E. auto.
  - intros [[rs|]] [ra'] [rb'] ra rb Hs Ea Eb Na Nb; [|contradiction].
    cbn [Rat] in Ea, Eb. subst ra' rb'.
    assert (D : big.denom ra * big.denom rb <> 0) by (destruct Na, Nb; nia).
    split; [|split; [|split; [|split]]].
    + eexists; split; [reflexivity|]. split; [apply norm_normal, D|].
      apply value_Add; assumption.
    + eexists; split; [reflexivity|]. split; [apply norm_normal, D|].
      apply value_Sub; assumption.
    + eexists; split; [reflexivity|]. split; [apply norm_normal, D|].
      apply value_Mul; assumption.
    + intros Z0. unfold Div, binary; cbn [Rat]. unfold big.Quo.
      apply Z.eqb_eq in Z0. rewrite Z0. reflexivity.
    + intros NZ.
      destruct (big.Quo ra rb) as [q|] eqn:Q.
      2:{ unfold big.Quo in Q. apply Z.eqb_neq in NZ. rewrite NZ in Q. discriminate. }
      exists q.
      split; [unfold Div, binary; cbn [Rat]; rewrite Q; reflexivity|].
      split.
      { unfold big.Quo in Q. pose proof NZ as NZ'. apply Z.eqb_neq in NZ'.
        rewrite NZ' in Q. injection Q as <-. apply norm_normal. destruct Na. nia. }
      split; [apply (value_Quo ra rb q Na Nb Q)|].
      unfold Mul, binary; cbn [Rat].
      rewrite (Mul_Quo_exact ra rb q Na Nb Q). reflexivity.
Qed.

Lemma rational_arithmetic_is_exact_witness :
  Add (New_ASTNumber (runes "0")) (New_ASTNumber (runes "0.1")) (New_ASTNumber (runes "0.2"))
  = Some (New_ASTNumber (runes "0.3"))
  /\
  (exists r, Rat (New_ASTNumber (runes "12.50")) = Some r /\ spec.normal r /\
             (spec.value r == spec.decimal_value (runes "12.50"))%Q)
  /\
  exists q,
    Div (New_ASTNumber (runes "0")) (New_ASTNumber (runes "1")) (New_ASTNumber (runes "3"))
    = Some (mkAST_Number (Some q)) /\
    spec.normal q /\
    (spec.value q == spec.value (big.mkRat 1 1) / spec.value (big.mkRat 3 1))%Q /\
    Mul (New_ASTNumber (runes "0")) (mkAST_Number (Some q)) (New_ASTNumber (runes "3"))
    = Some (New_ASTNumber (runes "1")).
Proof.
  destruct rational_arithmetic_is_exact as (H1 & H2 & H3).
  split; [|split].
  - apply H1. vm_compute. discriminate.
  - apply H2. reflexivity.
  - destruct (H3 (New_ASTNumber (runes "0")) (New_ASTNumber (runes "1"))
                (New_ASTNumber (runes "3")) (big.mkRat 1 1) (big.mkRat 3 1))
      as (_ & _ & _ & _ & HD).
    + vm_compute. discriminate.
    + reflexivity.
    + reflexivity.
    + split; [reflexivity | reflexivity].
    + split; [reflexivity | reflexivity].
    + apply HD. vm_compute. discriminate.
Defined.


(** ** The scanner *)

(** *** Findings on concrete inputs *)

(** C6: the second '.' of "1.2.3" is swallowed into the NUMBER token and no
    lex error is recorded; the test [dot_count > 1] lets two dots through,
    only a third one is an "illegal number". *)
Theorem second_dot_is_accepted :
  forall fuel,
  atoken.ReadString (8 + fuel) (runes "1.2.3") atoken.New =
  Ret tt {| token_list := [mkAToken 1 1 (runes "1.2.3") atoken.NUMBER;
                           mkAToken 1 7 (runes "End") atoken.EOF];
            Line := 1; Column := 7; Count := 1; Error_list := [];
            current_iterator := Some O |}
  /\
  atoken.ReadString (8 + fuel) (runes "1.2.3.4") atoken.New =
  Exit {| token_list := [mkAToken 1 1 (runes "1.2.3") atoken.NUMBER;
                         mkAToken 1 6 (runes ".") atoken.QUOTE;
                         mkAToken 1 7 (runes "4") atoken.NUMBER;
                         mkAToken 1 9 (runes "End") atoken.EOF];
          Line := 1; Column := 9; Count := 1;
          Error_list := [mkALexError 1 1 (runes "illegal number")];
          current_iterator := None |}.
Proof. intros fuel. split; vm_compute; reflexivity. Qed.

(** C7: an identifier that begins with the letters of a keyword is split
    into the keyword and a second token: "format" is scanned as the keyword
    [for] followed by the identifier "mat", "funcx" as [func] followed by
    "x". *)
Theorem keyword_prefix_splits_identifier :
  forall fuel,
  atoken.ReadString (8 + fuel) (runes "format") atoken.New =
  Ret tt {| token_list := [mkAToken 1 1 (runes "for") atoken.FOR;
                           mkAToken 1 4 (runes "mat") atoken.WORD;
                           mkAToken 1 8 (runes "End") atoken.EOF];
            Line := 1; Column := 8; Count := 1; Error_list := [];
            current_iterator := Some O |}
  /\
  atoken.ReadString (8 + fuel) (runes "funcx") atoken.New =
  Ret tt {| token_list := [mkAToken 1 1 (runes "func") atoken.FUNC;
                           mkAToken 1 5 (runes "x") atoken.WORD;
                           mkAToken 1 7 (runes "End") atoken.EOF];
            Line := 1; Column := 7; Count := 1; Error_list := [];
            current_iterator := Some O |}.
Proof. intros fuel. split; vm_compute; reflexivity. Qed.

Lemma scan_of_bang_never_ends (fuel : nat) :
  forall s, ReadString_loop fuel (runes "!") 0 s = OutOfFuel.
Proof.
  induction fuel as [|fuel IH]; intros s; [reflexivity|].
  change (ReadString_loop (S fuel) (runes "!") 0 s) with
    (ReadString_loop fuel (runes "!") 0
       (set_Line_Column (Line s) (Column s + (0 - 1 - 0 + 1))
          {| token_list := token_list s ++ [mkAToken (Line s) (Column s) (runes "!") atoken.NOT];
             Line := Line s; Column := Column s; Count := Count s;
             Error_list := Error_list s; current_iterator := current_iterator s |})).
  apply IH.
Qed.

(** C9: the scanner is not total. A backslash that ends the input inside a
    string literal makes [judge_string] read [source[len(source)]], a
    run-time panic, whatever the budget; and on the input "!" the loop of
    [ReadString] never advances, so no budget is enough. *)
Theorem ReadString_is_not_total :
  (forall fuel s, atoken.ReadString (S (S (S fuel))) [DQUOTE; BACKSLASH] s = Panic)
  /\
  (forall fuel s, atoken.ReadString fuel (runes "!") s = OutOfFuel).
Proof.
  split.
  - intros fuel s. reflexivity.
  - intros fuel s. unfold atoken.ReadString, bind.
    rewrite scan_of_bang_never_ends. reflexivity.
Qed.

(** *** Lex errors do not stop the scan *)

Section Error_blind.

Import spec.

Lemma error_blind_ret {A} (a : A) : error_blind (ret a).
Proof. intros E s; reflexivity. Qed.

Lemma error_blind_panic {A} : error_blind (@panic ATokenList A).
Proof. intros E s; reflexivity. Qed.

Lemma error_blind_timeout {A} : error_blind (@timeout ATokenList A).
Proof. intros E s; reflexivity. Qed.

Lemma error_blind_bind {A B} (m : TM A) (k : A -> TM B) :
  error_blind m -> (forall a, error_blind (k a)) -> error_blind (bind m k).
Proof.
  intros Hm Hk E s. unfold bind. rewrite Hm.
  destruct (m s) as [a s'| s' | |]; simpl; auto. apply Hk.
Qed.

Lemma error_blind_at_index {A} (source : list A) (index : Z) :
  error_blind (at_index source index).
Proof.
  intros E s. unfold at_index, panic, deref, ret.
  destruct (index <? 0); [reflexivity|].
  destruct (nth_error source (Z.to_nat index)); reflexivity.
Qed.

Lemma error_blind_PushToken (value : gostring) (type : Z) :
  error_blind (PushToken value type).
Proof. intros E s; reflexivity. Qed.

Lemma error_blind_PushLexError (info : gostring) :
  error_blind (PushLexError info).
Proof.
  intros E s. unfold PushLexError, modify, with_earlier_errors; simpl.
  rewrite app_assoc. reflexivity.
Qed.

Lemma error_blind_next_line :
  error_blind (modify (fun s => set_Line_Column (Line s + 1) 0 s)).
Proof. intros E s; reflexivity. Qed.

Lemma error_blind_add_Column (d : Z) :
  error_blind (modify (fun s => set_Line_Column (Line s) (Column s + d) s)).
Proof. intros E s; reflexivity. Qed.

(** Case analysis down to the primitive steps. *)
Ltac blind :=
  repeat first
    [ apply error_blind_ret
    | apply error_blind_panic
    | apply error_blind_timeout
    | apply error_blind_at_index
    | apply error_blind_PushToken
    | apply error_blind_PushLexError
    | apply error_blind_next_line
    | apply error_blind_add_Column
    | assumption
    | match goal with
      | H : forall _, error_blind _ |- _ => apply H
      | H : forall _ _, error_blind _ |- _ => apply H
      | H : forall _ _ _, error_blind _ |- _ => apply H
      | H : forall _ _ _ _, error_blind _ |- _ => apply H
      end
    | apply error_blind_bind; [|intros]
    | match goal with
      | |- error_blind (if ?b then _ else _) => destruct b
      | |- error_blind (let '(_, _) := ?p in _) => destruct p
      | |- error_blind (match ?x with Some _ => _ | None => _ end) => destruct x
      end ].

Lemma error_blind_judge_word_loop (data : gostring) (source : list rune) :
  forall i index, error_blind (judge_word_loop data i index source).
Proof. induction data as [|v rest IH]; intros i index; simpl; blind. Qed.

Lemma error_blind_judge_word (data : string) (index : Z) (source : list rune) :
  error_blind (judge_word data index source).
Proof. apply error_blind_judge_word_loop. Qed.

Lemma error_blind_judge_other (fuel : nat) (source : list rune) :
  forall tmp index, error_blind (judge_other_loop fuel tmp index source).
Proof. induction fuel as [|fuel IH]; intros tmp index; simpl; blind. Qed.

Lemma error_blind_judge_space (fuel : nat) (source : list rune) :
  forall index, error_blind (judge_space_loop fuel index source).
Proof. induction fuel as [|fuel IH]; intros index; simpl; blind. Qed.

Lemma error_blind_judge_number (fuel : nat) (source : list rune) :
  forall tmp dot_count index,
    error_blind (judge_number_loop fuel tmp dot_count index source).
Proof. induction fuel as [|fuel IH]; intros tmp dot_count index; simpl; blind. Qed.

Lemma error_blind_judge_string (fuel : nat) (source : list rune) :
  forall tmp count index,
    error_blind (judge_string_loop fuel tmp count index source).
Proof. induction fuel as [|fuel IH]; intros tmp count index; simpl; blind. Qed.

Lemma error_blind_keyword kw type i data (otherwise : Z -> TM Z) :
  (forall i, error_blind (otherwise i)) ->
  error_blind (keyword kw type i data otherwise).
Proof.
  intros H. unfold keyword.
  apply error_blind_bind; [apply error_blind_judge_word|].
  intros [ok j]. blind.
Qed.

Lemma error_blind_operator data i alts single type :
  error_blind (operator data i alts single type).
Proof.
  unfold operator. blind.
Qed.

Lemma error_blind_scan_case (fuel : nat) (data : list rune) (i : Z) (c : rune) :
  error_blind (scan_case fuel data i c).
Proof.
  pose proof (error_blind_judge_other fuel data []) as Hother.
  unfold scan_case, punct, judge_other, judge_space, judge_number, judge_string.
  repeat match goal with
         | |- error_blind (if ?b then _ else _) => destruct b
         end;
    repeat first
      [ apply error_blind_keyword; intros
      | apply error_blind_operator
      | apply Hother
      | apply error_blind_judge_word
      | apply error_blind_judge_space
      | apply error_blind_judge_number
      | apply error_blind_judge_string
      | apply error_blind_ret
      | apply error_blind_at_index
      | apply error_blind_PushToken
      | apply error_blind_PushLexError
      | apply error_blind_next_line
      | apply error_blind_bind; [|intros]
      | match goal with
        | |- error_blind (if ?b then _ else _) => destruct b
        | |- error_blind (let '(_, _) := ?p in _) => destruct p
        end ].
Qed.

Lemma error_blind_ReadString_loop (fuel : nat) (data : list rune) :
  forall i, error_blind (ReadString_loop fuel data i).
Proof.
  induction fuel as [|fuel IH]; intros i; simpl; [apply error_blind_timeout|].
  destruct (i >=? len data); [apply error_blind_PushToken|].
  apply error_blind_bind; [apply error_blind_at_index|]. intros c.
  apply error_blind_bind; [apply error_blind_scan_case|]. intros j.
  apply error_blind_bind; [apply error_blind_add_Column|]. intros _.
  apply IH.
Qed.

End Error_blind.

(** The loop of [ReadString] returns only through its end-of-input branch,
    which pushes the end marker last. *)
Lemma ReadString_loop_reaches_end (fuel : nat) (data : list rune) :
  forall i s s',
    ReadString_loop fuel data i s = Ret tt s' ->
    exists toks l c, token_list s' = toks ++ [mkAToken l c (runes "End") atoken.EOF].
Proof.
  induction fuel as [|fuel IH]; intros i s s'; simpl; [discriminate|].
  destruct (i >=? len data).
  - unfold PushToken, modify. intros H; injection H as <-. simpl. eauto.
  - unfold bind at 1.
    destruct (at_index data i s) as [c s1| | |]; try discriminate.
    unfold bind at 1.
    destruct (scan_case fuel data i c s1) as [j s2| | |]; try discriminate.
    unfold bind at 1. unfold modify at 1. apply IH.
Qed.

(** The errors present before the scan are a prefix of those after it. *)
Lemma ReadString_loop_appends_errors (fuel : nat) (data : list rune) (i : Z)
    (s s' : ATokenList) :
  ReadString_loop fuel data i s = Ret tt s' ->
  exists new, Error_list s' = Error_list s ++ new.
Proof.
  intros H.
  set (clean := {| token_list := token_list s; Line := Line s; Column := Column s;
                   Count := Count s; Error_list := [];
                   current_iterator := current_iterator s |}).
  assert (Es : s = spec.with_earlier_errors (Error_list s) clean).
  { destruct s; unfold spec.with_earlier_errors; simpl. rewrite app_nil_r. reflexivity. }
  rewrite Es, error_blind_ReadString_loop in H.
  destruct (ReadString_loop fuel data i clean) as [[] s''| | |]; try discriminate.
  simpl in H. injection H as <-. exists (Error_list s''). reflexivity.
Qed.

(** An illegal character records its error and the scan goes on with the
    next character. *)
Lemma at_sign_is_skipped (fuel : nat) (data : list rune) (i : nat) (s : ATokenList) :
  nth_error data i = Some (rune_of "@") ->
  ReadString_loop (S fuel) data (Z.of_nat i) s =
  ReadString_loop fuel data (Z.of_nat i + 1)
    {| token_list := token_list s; Line := Line s; Column := Column s + 1;
       Count := Count s;
       Error_list := Error_list s
                     ++ [mkALexError (Line s) (Column s) (runes "illegal token '@'")];
       current_iterator := current_iterator s |}.
Proof.
  intros H.
  assert (L : (i < List.length data)%nat) by (apply nth_error_Some; rewrite H; discriminate).
  cbn [ReadString_loop].
  assert ((Z.of_nat i >=? len data) = false) as -> by (unfold len; lia).
  unfold bind at 1. unfold at_index at 1.
  assert ((Z.of_nat i <? 0) = false) as -> by lia.
  rewrite Nat2Z.id, H. cbn [deref ret].
  unfold bind at 1.
  change (scan_case fuel data (Z.of_nat i) (rune_of "@") s)
    with ((PushLexError (runes "illegal token '@'") ;; ret (Z.of_nat i))%monad s).
  unfold bind at 1. unfold PushLexError at 1, modify at 1, ret at 1.
  unfold bind at 1. unfold modify at 1.
  unfold set_Line_Column; cbn [token_list Line Column Count Error_list current_iterator].
  replace (Z.of_nat i - Z.of_nat i + 1) with 1 by lia.
  reflexivity.
Qed.

Lemma bang_after_at_sign_never_ends (fuel : nat) :
  forall s, ReadString_loop fuel (runes "@!") 1 s = OutOfFuel.
Proof.
  induction fuel as [|fuel IH]; intros s; [reflexivity|].
  change (ReadString_loop (S fuel) (runes "@!") 1 s) with
    (ReadString_loop fuel (runes "@!") 1
       (set_Line_Column (Line s) (Column s + (1 - 1 - 1 + 1))
          {| token_list := token_list s ++ [mkAToken (Line s) (Column s) (runes "!") atoken.NOT];
             Line := Line s; Column := Column s; Count := Count s;
             Error_list := Error_list s; current_iterator := current_iterator s |})).
  apply IH.
Qed.

(** C8. The batch of lex errors is not always reported. On the input "@!"
    the first turn of the scan records the error for '@' and goes on with
    the next character; but the scan then never gets past the '!' (the
    defect of C9), so whatever the budget [ReadString] neither returns nor
    exits: the gate is never reached and the recorded error is never
    reported. On the input '@', quote, backslash the error for '@' is
    recorded in the same way and the scan then panics in [judge_string]. *)
Theorem lex_error_batch_is_not_always_reported :
  (forall fuel,
     ReadString_loop (S fuel) (runes "@!") 0 atoken.New =
     ReadString_loop fuel (runes "@!") 1
       {| token_list := []; Line := 1; Column := 2; Count := 1;
          Error_list := [mkALexError 1 1 (runes "illegal token '@'")];
          current_iterator := None |})
  /\
  (forall fuel,
     atoken.ReadString fuel (runes "@!") atoken.New = OutOfFuel /\
     aparser.ReadString fuel (runes "@!") aparser.New = OutOfFuel)
  /\
  (forall fuel,
     ReadString_loop (S fuel) (rune_of "@" :: [DQUOTE; BACKSLASH]) 0 atoken.New =
     ReadString_loop fuel (rune_of "@" :: [DQUOTE; BACKSLASH]) 1
       {| token_list := []; Line := 1; Column := 2; Count := 1;
          Error_list := [mkALexError 1 1 (runes "illegal token '@'")];
          current_iterator := None |})
  /\
  (forall fuel,
     atoken.ReadString (4 + fuel) (rune_of "@" :: [DQUOTE; BACKSLASH]) atoken.New = Panic /\
     aparser.ReadString (4 + fuel) (rune_of "@" :: [DQUOTE; BACKSLASH]) aparser.New = Panic).
Proof.
  assert (N : forall fuel, atoken.ReadString fuel (runes "@!") atoken.New = OutOfFuel).
  { intros [|fuel]; [reflexivity|].
    pose proof (at_sign_is_skipped fuel (runes "@!") 0 atoken.New eq_refl) as T.
    change (Z.of_nat 0 + 1) with 1 in T. change (Z.of_nat 0) with 0 in T.
    rewrite bang_after_at_sign_never_ends in T.
    unfold atoken.ReadString, bind at 1. rewrite T. reflexivity. }
  split; [|split; [|split]].
  - intros fuel. apply (at_sign_is_skipped fuel (runes "@!") 0 atoken.New eq_refl).
  - intros fuel. split; [apply N|].
    unfold aparser.ReadString, bind at 1, on_AToken.
    change (AToken aparser.New) with atoken.New. rewrite N. reflexivity.
  - intros fuel.
    apply (at_sign_is_skipped fuel (rune_of "@" :: [DQUOTE; BACKSLASH]) 0 atoken.New eq_refl).
  - intros fuel. split; reflexivity.
Qed.

(** * Further properties *)

(** ** The token cursor, continued *)

Lemma GetToken_result (s : ATokenList) :
  inv.cursor_in_range s ->
  exists t s',
    atoken.GetToken s = Ret t s' /\
    inv.cursor_in_range s' /\
    Count s' = Count s + 1 /\
    token_list s' = token_list s.
Proof.
  unfold inv.cursor_in_range, atoken.GetToken, bind, get, modify, ret, deref.
  destruct (current_iterator s) as [e|] eqn:Hc; intros Hr.
  - destruct (nth_error (token_list s) e) as [v|] eqn:Hn.
    2:{ apply nth_error_None in Hn. lia. }
    eexists _, _. split; [reflexivity|]. simpl.
    split; [|split; reflexivity].
    unfold Next. destruct (Nat.ltb_spec (S e) (List.length (token_list s))); [exact H | exact I].
  - eexists _, _. split; [reflexivity|]. simpl.
    split; [|split; reflexivity].
    unfold Back. destruct (token_list s); [exact I | simpl; lia].
Qed.

Lemma BackToken_result (s s' : ATokenList) (t : atoken.AToken) :
  atoken.BackToken s = Ret t s' ->
  inv.cursor_in_range s' /\ Count s' = Count s /\ token_list s' = token_list s.
Proof.
  unfold inv.cursor_in_range, atoken.BackToken, bind, get, modify, ret, deref.
  destruct (current_iterator s) as [c|].
  - simpl. destruct (Prev c) as [e|]; simpl; [|discriminate].
    destruct (nth_error (token_list s) e) eqn:Hn; simpl; [|discriminate].
    intros H; injection H as _ <-. simpl.
    split; [|split; reflexivity].
    apply nth_error_Some. rewrite Hn. discriminate.
  - destruct (Back (token_list s)) as [b|]; simpl; [|discriminate].
    destruct (Prev b) as [e|]; simpl; [|discriminate].
    destruct (nth_error (token_list s) e) eqn:Hn; simpl; [|discriminate].
    intros H; injection H as _ <-. simpl.
    split; [|split; reflexivity].
    apply nth_error_Some. rewrite Hn. discriminate.
Qed.

(** X1. Whatever sequence of GetToken/BackToken calls has run without a
    panic from a state whose cursor is nil or inside the list, the cursor is
    again nil or inside the list, [Count] has grown by the number of
    GetToken calls, and a further GetToken returns (it never panics). *)
Theorem cursor_stays_in_range :
  forall (calls : list spec.cursor_call) (s0 s : ATokenList),
    inv.cursor_in_range s0 ->
    spec.run_calls calls s0 = Ret tt s ->
    inv.cursor_in_range s /\
    Count s = Count s0 + inv.count_GetToken calls /\
    exists t s', atoken.GetToken s = Ret t s'.
Proof.
  induction calls as [|c calls IH]; intros s0 s Hr; cbn [spec.run_calls].
  - unfold ret. intros H; injection H as <-.
    split; [exact Hr|]. split; [simpl; lia|].
    destruct (GetToken_result s0 Hr) as (t & s' & G & _). eauto.
  - unfold bind at 1.
    destruct (spec.do_call c s0) as [[] s1| | |] eqn:E; try discriminate.
    intros H. destruct c; unfold spec.do_call, bind, ret in E.
    + destruct (GetToken_result s0 Hr) as (t & s' & G & R1 & C1 & _).
      rewrite G in E. injection E as <-.
      destruct (IH _ _ R1 H) as (R & C & N). split; [exact R|].
      split; [|exact N].
      change (inv.count_GetToken (spec.call_GetToken :: calls))
        with (1 + inv.count_GetToken calls). lia.
    + destruct (atoken.BackToken s0) as [t s'| | |] eqn:B; try discriminate.
      injection E as <-.
      destruct (BackToken_result _ _ _ B) as (R1 & C1 & _).
      destruct (IH _ _ R1 H) as (R & C & N). split; [exact R|].
      split; [|exact N].
      change (inv.count_GetToken (spec.call_BackToken :: calls))
        with (inv.count_GetToken calls). lia.
Qed.

Lemma cursor_stays_in_range_witness :
  exists s,
    spec.run_calls [spec.call_GetToken; spec.call_GetToken; spec.call_BackToken]
      (mkATokenList [mkAToken 1 1 (runes "x") atoken.WORD;
                     mkAToken 1 3 (runes "End") atoken.EOF] 1 3 1 [] (Some O))
    = Ret tt s /\ inv.cursor_in_range s /\ Count s = 3.
Proof.
  eexists. split; [vm_compute; reflexivity|].
  match goal with |- inv.cursor_in_range ?s /\ _ =>
    destruct (cursor_stays_in_range
                [spec.call_GetToken; spec.call_GetToken; spec.call_BackToken]
                (mkATokenList [mkAToken 1 1 (runes "x") atoken.WORD;
                               mkAToken 1 3 (runes "End") atoken.EOF] 1 3 1 [] (Some O))
                s) as (R & C & _)
  end.
  - unfold inv.cursor_in_range; simpl; lia.
  - vm_compute. reflexivity.
  - split; [exact R | exact C].
Defined.

(** X2. Past the end. With the nil cursor on a non-empty list, GetToken
    hands out nil and re-arms the cursor on the last token, so the next
    GetToken yields the last token again and leaves the nil cursor: reading
    on past the end alternates nil and the last token. *)
Theorem GetToken_past_the_end :
  forall (s : ATokenList) (toks : list atoken.AToken) (last : atoken.AToken),
    token_list s = toks ++ [last] ->
    current_iterator s = None ->
    exists s1 s2,
      atoken.GetToken s = Ret None s1 /\
      current_iterator s1 = Some (List.length toks) /\
      atoken.GetToken s1 = Ret (Some last) s2 /\
      current_iterator s2 = None /\
      Count s2 = Count s + 2.
Proof.
  intros s toks last Ht Hc.
  assert (HB : Back (token_list s) = Some (List.length toks)).
  { rewrite Ht. unfold Back. destruct (toks ++ [last]) eqn:E.
    - destruct toks; discriminate.
    - rewrite <- E, length_app. simpl. f_equal. lia. }
  assert (HN : nth_error (token_list s) (List.length toks) = Some last).
  { rewrite Ht, nth_error_app2, Nat.sub_diag by lia. reflexivity. }
  assert (HX : Next (token_list s) (List.length toks) = None).
  { unfold Next. rewrite Ht, length_app. simpl.
    destruct (Nat.ltb_spec (S (List.length toks)) (List.length toks + 1)); [lia|reflexivity]. }
  eexists _, _. split; [|split; [|split; [|split]]].
  - unfold atoken.GetToken, bind, get, modify, ret. rewrite Hc, HB. reflexivity.
  - reflexivity.
  - unfold atoken.GetToken, bind, get, modify, ret, deref. simpl.
    rewrite HN. simpl. rewrite HX. reflexivity.
  - reflexivity.
  - simpl. lia.
Qed.

Lemma GetToken_past_the_end_witness :
  exists s1 s2,
    atoken.GetToken (mkATokenList [mkAToken 1 1 (runes "End") atoken.EOF] 1 1 1 [] None)
    = Ret None s1 /\
    atoken.GetToken s1 = Ret (Some (mkAToken 1 1 (runes "End") atoken.EOF)) s2 /\
    current_iterator s2 = None.
Proof.
  destruct (GetToken_past_the_end
              (mkATokenList [mkAToken 1 1 (runes "End") atoken.EOF] 1 1 1 [] None)
              [] (mkAToken 1 1 (runes "End") atoken.EOF))
    as (s1 & s2 & G1 & _ & G2 & C & _); try reflexivity.
  exists s1, s2. auto.
Defined.

(** X3. BackToken has no guard at the front of the list: called with the
    cursor on the first token it panics, and so it does with the nil cursor
    when the list has fewer than two tokens. *)
Theorem BackToken_panics_at_the_front :
  forall s : ATokenList,
    (current_iterator s = Some O \/
     (current_iterator s = None /\ (List.length (token_list s) < 2)%nat)) ->
    atoken.BackToken s = Panic.
Proof.
  intros s [Hc|[Hc Hl]];
    unfold atoken.BackToken, bind, get, modify, ret, deref; rewrite Hc.
  - reflexivity.
  - destruct (token_list s) as [|a [|b l]]; simpl in *; try reflexivity. lia.
Qed.

Lemma BackToken_panics_at_the_front_witness :
  atoken.BackToken
    (mkATokenList [mkAToken 1 1 (runes "x") atoken.WORD;
                   mkAToken 1 3 (runes "End") atoken.EOF] 1 3 1 [] (Some O))
  = Panic.
Proof. apply BackToken_panics_at_the_front. left. reflexivity. Defined.

(** X4. IsEnd on a cursor inside the list answers true exactly when the
    cursor is on the last token but one, or the list has at most three
    tokens; it changes nothing; on the nil cursor it panics. *)
Theorem IsEnd_answers :
  forall (s : ATokenList),
    (forall p, current_iterator s = Some p ->
       (p < List.length (token_list s))%nat ->
       exists b, atoken.IsEnd s = Ret b s /\
         (b = true <->
          (p + 2 = List.length (token_list s))%nat \/
          (List.length (token_list s) <= 3)%nat)) /\
    (current_iterator s = None -> atoken.IsEnd s = Panic).
Proof.
  intros s. split.
  - intros p Hc Hp.
    unfold atoken.IsEnd, bind, get, deref, ret. rewrite Hc.
    unfold Next, Back, len.
    destruct (token_list s) as [|a l] eqn:E; [simpl in Hp; lia|].
    set (n := List.length (a :: l)) in *.
    destruct (Nat.ltb_spec (S p) n).
    + destruct (Nat.eqb_spec (S p) (Nat.pred n)).
      * exists true. split; [reflexivity|]. split; [intros _; left; lia | reflexivity].
      * destruct (Z.leb_spec (Z.of_nat n) 3).
        -- exists true. split; [reflexivity|]. split; [intros _; right; lia | reflexivity].
        -- exists false. split; [reflexivity|]. split; [discriminate | lia].
    + destruct (Z.leb_spec (Z.of_nat n) 3).
      * exists true. split; [reflexivity|]. split; [intros _; right; lia | reflexivity].
      * exists false. split; [reflexivity|]. split; [discriminate | lia].
  - intros Hc. unfold atoken.IsEnd, bind, get, deref. rewrite Hc. reflexivity.
Qed.

Lemma IsEnd_answers_witness :
  exists b,
    atoken.IsEnd
      (mkATokenList [mkAToken 1 1 (runes "a") atoken.WORD; mkAToken 1 1 (runes "b") atoken.WORD;
                     mkAToken 1 1 (runes "c") atoken.WORD; mkAToken 1 1 (runes "d") atoken.WORD;
                     mkAToken 1 1 (runes "End") atoken.EOF] 1 1 1 [] (Some 3%nat))
    = Ret b
      (mkATokenList [mkAToken 1 1 (runes "a") atoken.WORD; mkAToken 1 1 (runes "b") atoken.WORD;
                     mkAToken 1 1 (runes "c") atoken.WORD; mkAToken 1 1 (runes "d") atoken.WORD;
                     mkAToken 1 1 (runes "End") atoken.EOF] 1 1 1 [] (Some 3%nat))
    /\ b = true.
Proof.
  destruct (IsEnd_answers
      (mkATokenList [mkAToken 1 1 (runes "a") atoken.WORD; mkAToken 1 1 (runes "b") atoken.WORD;
                     mkAToken 1 1 (runes "c") atoken.WORD; mkAToken 1 1 (runes "d") atoken.WORD;
                     mkAToken 1 1 (runes "End") atoken.EOF] 1 1 1 [] (Some 3%nat))) as [H _].
  destruct (H 3%nat) as (b & E & I); [reflexivity | simpl; lia |].
  exists b. split; [exact E|]. apply I. left. reflexivity.
Defined.

(** ** The scanner, continued *)

(** Reading [source[index]] inside the bounds. *)
Lemma at_index_inside {S A} (source : list A) (index : Z) (a : A) (s : S) :
  0 <= index ->
  nth_error source (Z.to_nat index) = Some a ->
  at_index source index s = Ret a s.
Proof.
  intros H0 Hn. unfold at_index.
  destruct (Z.ltb_spec index 0); [lia|]. rewrite Hn. reflexivity.
Qed.

Lemma nth_error_skipn_cons {A} (l : list A) (n : nat) (a : A) (rest : list A) :
  skipn n l = a :: rest -> nth_error l n = Some a /\ skipn (S n) l = rest.
Proof.
  revert l. induction n as [|n IH]; intros [|x l] H; simpl in *; try discriminate.
  - injection H as -> ->. auto.
  - apply IH. exact H.
Qed.

Lemma skipn_nil_length {A} (l : list A) (n : nat) :
  skipn n l = [] -> (List.length l <= n)%nat.
Proof.
  revert l. induction n as [|n IH]; intros [|x l] H; simpl in *; try discriminate; try lia.
  apply IH in H. lia.
Qed.

Lemma judge_word_loop_result (data : gostring) (source : list rune) (s : ATokenList) :
  forall (i : Z) (index : nat),
    judge_word_loop data i (Z.of_nat index) source s =
    Ret (if inv.has_prefix data (skipn index source)
         then (true, Z.of_nat index + len data - 1)
         else (false, Z.of_nat index - i)) s.
Proof.
  induction data as [|v rest IH]; intros i index.
  - simpl. unfold ret, len. simpl. f_equal. f_equal. lia.
  - cbn [judge_word_loop inv.has_prefix].
    destruct (skipn index source) as [|b l'] eqn:E.
    + apply skipn_nil_length in E.
      destruct (Z.ltb_spec (Z.of_nat index) (len source)); [unfold len in *; lia|].
      reflexivity.
    + apply nth_error_skipn_cons in E as [Hn Hs].
      assert (Z.of_nat index < len source).
      { unfold len. assert (index < List.length source)%nat; [|lia].
        apply nth_error_Some. rewrite Hn. discriminate. }
      destruct (Z.ltb_spec (Z.of_nat index) (len source)); [|lia].
      unfold bind. rewrite (at_index_inside source (Z.of_nat index) b)
        by (try lia; rewrite Nat2Z.id; exact Hn).
      destruct (b =? v); simpl; [|reflexivity].
      replace (Z.of_nat index + 1) with (Z.of_nat (S index)) by lia.
      rewrite IH, Hs. destruct (inv.has_prefix rest l').
      * unfold len. simpl List.length. f_equal. f_equal. lia.
      * f_equal. f_equal. lia.
Qed.

(** X5. judge_word decides whether the keyword stands at [index]: it
    answers true exactly when the runes of the source from [index] on begin
    with the keyword, leaving [index] on the keyword's last rune; otherwise
    it answers false and [index] is back where it was. It never reads
    outside the source and changes nothing else. *)
Theorem judge_word_matches_exactly :
  forall (data : string) (index : Z) (source : list rune) (s : ATokenList),
    0 <= index ->
    judge_word data index source s =
    Ret (if inv.has_prefix (runes data) (skipn (Z.to_nat index) source)
         then (true, index + len (runes data) - 1)
         else (false, index)) s.
Proof.
  intros data index source s H0. unfold judge_word.
  rewrite <- (Z2Nat.id index) at 1 by exact H0.
  rewrite judge_word_loop_result, (Z2Nat.id index) by exact H0.
  destruct (inv.has_prefix _ _); f_equal; f_equal; lia.
Qed.

Lemma judge_word_matches_exactly_witness :
  judge_word "for" 4 (runes "var format") atoken.New = Ret (true, 6) atoken.New /\
  judge_word "func" 4 (runes "var format") atoken.New = Ret (false, 4) atoken.New.
Proof.
  split.
  - apply (judge_word_matches_exactly "for" 4 (runes "var format") atoken.New). lia.
  - apply (judge_word_matches_exactly "func" 4 (runes "var format") atoken.New). lia.
Defined.

(** *** Invariants of the scan *)

Section Scan_invariant.

(** An invariant kept by the four ways the scanner writes its state. *)
Variable P : ATokenList -> Prop.

Hypothesis P_token : forall s value type,
  P s ->
  P {| token_list := token_list s ++ [mkAToken (Line s) (Column s) value type];
       Line := Line s; Column := Column s; Count := Count s;
       Error_list := Error_list s; current_iterator := current_iterator s |}.
Hypothesis P_error : forall s info,
  P s ->
  P {| token_list := token_list s; Line := Line s; Column := Column s;
       Count := Count s;
       Error_list := Error_list s ++ [mkALexError (Line s) (Column s) info];
       current_iterator := current_iterator s |}.
Hypothesis P_line : forall s, P s -> P (set_Line_Column (Line s + 1) 0 s).
Hypothesis P_column : forall s d, P s -> P (set_Line_Column (Line s) (Column s + d) s).

Lemma preserves_ret {A} (a : A) : inv.preserves P (ret a).
Proof. intros s H; exact H. Qed.

Lemma preserves_panic {A} : inv.preserves P (@panic ATokenList A).
Proof. intros s H; exact I. Qed.

Lemma preserves_timeout {A} : inv.preserves P (@timeout ATokenList A).
Proof. intros s H; exact I. Qed.

Lemma preserves_bind {A B} (m : TM A) (k : A -> TM B) :
  inv.preserves P m -> (forall a, inv.preserves P (k a)) -> inv.preserves P (bind m k).
Proof.
  intros Hm Hk s H. unfold bind. specialize (Hm s H).
  destruct (m s) as [a s'| s' | |]; auto. apply Hk; exact Hm.
Qed.

Lemma preserves_at_index {A} (source : list A) (index : Z) :
  inv.preserves P (at_index source index).
Proof.
  intros s H. unfold at_index, panic, deref, ret.
  destruct (index <? 0); [exact I|].
  destruct (nth_error source (Z.to_nat index)); [exact H | exact I].
Qed.

Lemma preserves_PushToken value type : inv.preserves P (PushToken value type).
Proof. intros s H. apply P_token; exact H. Qed.

Lemma preserves_PushLexError info : inv.preserves P (PushLexError info).
Proof. intros s H. apply P_error; exact H. Qed.

Lemma preserves_next_line :
  inv.preserves P (modify (fun s => set_Line_Column (Line s + 1) 0 s)).
Proof. intros s H. apply P_line; exact H. Qed.

Lemma preserves_add_Column d :
  inv.preserves P (modify (fun s => set_Line_Column (Line s) (Column s + d) s)).
Proof. intros s H. apply P_column; exact H. Qed.

Ltac keep :=
  repeat first
    [ apply preserves_ret
    | apply preserves_panic
    | apply preserves_timeout
    | apply preserves_at_index
    | apply preserves_PushToken
    | apply preserves_PushLexError
    | apply preserves_next_line
    | apply preserves_add_Column
    | assumption
    | match goal with
      | H : forall _, inv.preserves _ _ |- _ => apply H
      | H : forall _ _, inv.preserves _ _ |- _ => apply H
      | H : forall _ _ _, inv.preserves _ _ |- _ => apply H
      end
    | apply preserves_bind; [|intros]
    | match goal with
      | |- inv.preserves _ (if ?b then _ else _) => destruct b
      | |- inv.preserves _ (let '(_, _) := ?p in _) => destruct p
      | |- inv.preserves _ (match ?x with Some _ => _ | None => _ end) => destruct x
      end ].

Lemma preserves_judge_word_loop data source :
  forall i index, inv.preserves P (judge_word_loop data i index source).
Proof. induction data as [|v rest IH]; intros i index; simpl; keep. Qed.

Lemma preserves_judge_other fuel source :
  forall tmp index, inv.preserves P (judge_other_loop fuel tmp index source).
Proof. induction fuel as [|fuel IH]; intros tmp index; simpl; keep. Qed.

Lemma preserves_judge_space fuel source :
  forall index, inv.preserves P (judge_space_loop fuel index source).
Proof. induction fuel as [|fuel IH]; intros index; simpl; keep. Qed.

Lemma preserves_judge_number fuel source :
  forall tmp dot_count index,
    inv.preserves P (judge_number_loop fuel tmp dot_count index source).
Proof. induction fuel as [|fuel IH]; intros tmp dot_count index; simpl; keep. Qed.

Lemma preserves_judge_string fuel source :
  forall tmp count index,
    inv.preserves P (judge_string_loop fuel tmp count index source).
Proof. induction fuel as [|fuel IH]; intros tmp count index; simpl; keep. Qed.

Lemma preserves_keyword kw type i data (otherwise : Z -> TM Z) :
  (forall i, inv.preserves P (otherwise i)) ->
  inv.preserves P (keyword kw type i data otherwise).
Proof.
  intros H. unfold keyword.
  apply preserves_bind; [apply preserves_judge_word_loop|].
  intros [ok j]. keep.
Qed.

Lemma preserves_operator data i alts single type :
  inv.preserves P (operator data i alts single type).
Proof. unfold operator. keep. Qed.

Lemma preserves_scan_case fuel data i c :
  inv.preserves P (scan_case fuel data i c).
Proof.
  pose proof (preserves_judge_other fuel data []) as Hother.
  unfold scan_case, punct, judge_other, judge_space, judge_number, judge_string, judge_word.
  repeat match goal with
         | |- inv.preserves _ (if ?b then _ else _) => destruct b
         end;
    repeat first
      [ apply preserves_keyword; intros
      | apply preserves_operator
      | apply Hother
      | apply preserves_judge_word_loop
      | apply preserves_judge_space
      | apply preserves_judge_number
      | apply preserves_judge_string
      | apply preserves_ret
      | apply preserves_at_index
      | apply preserves_PushToken
      | apply preserves_PushLexError
      | apply preserves_next_line
      | apply preserves_bind; [|intros]
      | match goal with
        | |- inv.preserves _ (if ?b then _ else _) => destruct b
        | |- inv.preserves _ (let '(_, _) := ?p in _) => destruct p
        end ].
Qed.

Lemma preserves_ReadString_loop fuel data :
  forall i, inv.preserves P (ReadString_loop fuel data i).
Proof.
  induction fuel as [|fuel IH]; intros i; simpl; [apply preserves_timeout|].
  destruct (i >=? len data); [apply preserves_PushToken|].
  apply preserves_bind; [apply preserves_at_index|]. intros c.
  apply preserves_bind; [apply preserves_scan_case|]. intros j.
  apply preserves_bind; [apply preserves_add_Column|]. intros _.
  apply IH.
Qed.

End Scan_invariant.

Lemma grown_from_refl (s : ATokenList) : inv.grown_from s s.
Proof.
  repeat split; try (exists []; rewrite app_nil_r; reflexivity).
Qed.

(** X6. The scan only ever pushes at the back. However [ReadString]'s loop
    ends, by returning or by exiting, at whatever position it was started,
    the tokens and the lex errors it was given are still there, in front of
    the new ones, and [Count] and the cursor are untouched; and when
    [ReadString] itself returns, the error list is empty and the cursor is
    on the first token of the whole list, not of the new text. *)
Theorem scan_only_appends :
  forall (fuel : nat) (data : list rune) (s : ATokenList),
    (forall i,
       match ReadString_loop fuel data i s with
       | Ret _ s' => inv.grown_from s s'
       | Exit s' => inv.grown_from s s'
       | Panic => True
       | OutOfFuel => True
       end) /\
    (forall s',
       atoken.ReadString fuel data s = Ret tt s' ->
       (exists new, token_list s' = token_list s ++ new) /\
       Error_list s = [] /\ Error_list s' = [] /\
       Count s' = Count s /\
       current_iterator s' = Some O).
Proof.
  intros fuel data s.
  assert (L : forall i, inv.preserves (inv.grown_from s) (ReadString_loop fuel data i)).
  { apply preserves_ReadString_loop.
    - intros s1 value type (T & E & C & I).
      split; [|auto]. destruct T as [new T]. exists (new ++ [mkAToken (Line s1) (Column s1) value type]).
      simpl. rewrite T, app_assoc. reflexivity.
    - intros s1 info (T & E & C & I).
      split; [exact T|]. split; [|auto].
      destruct E as [new E]. exists (new ++ [mkALexError (Line s1) (Column s1) info]).
      simpl. rewrite E, app_assoc. reflexivity.
    - intros s1 H; exact H.
    - intros s1 d H; exact H. }
  split.
  - intros i. apply L. apply grown_from_refl.
  - intros s'. unfold atoken.ReadString, bind, get.
    pose proof (L 0 s (grown_from_refl s)) as G.
    destruct (ReadString_loop fuel data 0 s) as [[] s1| | |] eqn:E; try discriminate.
    destruct G as ([newt T] & [newe Er] & C & I).
    destruct (len (Error_list s1) >? 0) eqn:Z0; [discriminate|].
    unfold modify. intros H; injection H as <-. simpl.
    assert (N : Error_list s1 = []).
    { destruct (Error_list s1) as [|e l] eqn:EE; [reflexivity|].
      unfold len in Z0. simpl List.length in Z0.
      rewrite Z.gtb_ltb in Z0. apply Z.ltb_ge in Z0. lia. }
    split; [eauto|]. split.
    { rewrite N in Er. symmetry in Er. apply app_eq_nil in Er. tauto. }
    split; [exact N|]. split; [exact C|].
    destruct (ReadString_loop_reaches_end fuel data 0 s s1 E) as (toks & l & c & T').
    rewrite T'. unfold Front. destruct toks; reflexivity.
Qed.

Lemma scan_only_appends_witness :
  exists s s',
    atoken.ReadString 8 (runes "a") atoken.New = Ret tt s /\
    atoken.ReadString 8 (runes "b") s = Ret tt s' /\
    (exists new, token_list s' = token_list s ++ new) /\
    current_iterator s' = Some O.
Proof.
  eexists _, _. split; [vm_compute; reflexivity|]. split; [vm_compute; reflexivity|].
  match goal with |- (exists new, token_list ?s' = token_list ?s ++ new) /\ _ =>
    destruct (scan_only_appends 8 (runes "b") s) as [_ H];
    destruct (H s') as (T & _ & _ & _ & I); [vm_compute; reflexivity|]
  end.
  split; [exact T | exact I].
Defined.

Lemma lines_ascend_push (toks : list atoken.AToken) :
  forall from upto value col type,
    inv.lines_ascend from toks upto ->
    inv.lines_ascend from (toks ++ [mkAToken upto col value type]) upto.
Proof.
  induction toks as [|t rest IH]; intros from upto value col type H; simpl in *.
  - split; [exact H | lia].
  - destruct H as [H1 H2]. split; [exact H1|]. apply IH; exact H2.
Qed.

Lemma lines_ascend_later (toks : list atoken.AToken) :
  forall from upto upto', upto <= upto' ->
    inv.lines_ascend from toks upto -> inv.lines_ascend from toks upto'.
Proof.
  induction toks as [|t rest IH]; intros from upto upto' Hle H; simpl in *.
  - lia.
  - destruct H as [H1 H2]. split; [exact H1|]. eapply IH; eauto.
Qed.

(** X7. Line stamps are in order: if, in the state a scan starts from, the
    [Line] stamps of the tokens never go down along the list and none is
    later than the current [Line], the same holds in the state the scan
    ends in. From [New] it holds to begin with. *)
Theorem token_lines_in_order :
  forall (fuel : nat) (data : list rune) (i : Z) (s s' : ATokenList),
    inv.lines_in_order s ->
    ReadString_loop fuel data i s = Ret tt s' ->
    inv.lines_in_order s'.
Proof.
  intros fuel data i s s' H E.
  assert (L : inv.preserves inv.lines_in_order (ReadString_loop fuel data i)).
  { apply preserves_ReadString_loop.
    - intros s1 value type [f Hf]. exists f. simpl. apply lines_ascend_push; exact Hf.
    - intros s1 info Hs; exact Hs.
    - intros s1 [f Hf]. exists f. simpl.
      apply lines_ascend_later with (Line s1); [lia | exact Hf].
    - intros s1 d Hs; exact Hs. }
  specialize (L s H). rewrite E in L. exact L.
Qed.

Lemma token_lines_in_order_witness :
  exists s',
    ReadString_loop 16 (runes "a" ++ [LF] ++ runes "b") 0 atoken.New = Ret tt s' /\ inv.lines_in_order s'.
Proof.
  eexists. split; [vm_compute; reflexivity|].
  apply (token_lines_in_order 16 (runes "a" ++ [LF] ++ runes "b") 0 atoken.New).
  - exists 1. simpl. lia.
  - vm_compute. reflexivity.
Defined.

(** *** Where the scan does terminate *)

Lemma always_returns_ret {A} (Q : A -> Prop) (a : A) :
  Q a -> inv.always_returns Q (ret a).
Proof. intros H s. exists a, s. split; [reflexivity | exact H]. Qed.

Lemma always_returns_bind {A B} (Q : A -> Prop) (R : B -> Prop)
    (m : TM A) (k : A -> TM B) :
  inv.always_returns Q m ->
  (forall a, Q a -> inv.always_returns R (k a)) ->
  inv.always_returns R (bind m k).
Proof.
  intros Hm Hk s. destruct (Hm s) as (a & s1 & E & Ha).
  destruct (Hk a Ha s1) as (b & s2 & E2 & Hb).
  exists b, s2. unfold bind. rewrite E. split; assumption.
Qed.

Lemma always_returns_weaken {A} (Q Q' : A -> Prop) (m : TM A) :
  (forall a, Q a -> Q' a) -> inv.always_returns Q m -> inv.always_returns Q' m.
Proof.
  intros HQ Hm s. destruct (Hm s) as (a & s' & E & Ha). exists a, s'. auto.
Qed.

Lemma always_returns_modify (f : ATokenList -> ATokenList) :
  inv.always_returns (fun _ : unit => True) (modify f).
Proof. intros s. exists tt, (f s). split; [reflexivity | exact I]. Qed.

Lemma always_returns_at_index (source : list rune) (index : Z) (c : rune) :
  0 <= index ->
  nth_error source (Z.to_nat index) = Some c ->
  inv.always_returns (fun x => x = c) (at_index source index).
Proof.
  intros H0 Hn s. exists c, s. split; [|reflexivity].
  apply at_index_inside; assumption.
Qed.

(** Pushing something and returning an index. *)
Lemma always_returns_then {A} (Q : A -> Prop) (f : ATokenList -> ATokenList)
    (k : TM A) :
  inv.always_returns Q k -> inv.always_returns Q (modify f ;; k).
Proof.
  intros H. eapply always_returns_bind; [apply always_returns_modify|].
  intros _ _. exact H.
Qed.

Lemma nth_error_inside (source : list rune) (index : Z) :
  0 <= index < len source ->
  exists c, nth_error source (Z.to_nat index) = Some c.
Proof.
  intros H. destruct (nth_error source (Z.to_nat index)) eqn:E; [eauto|].
  apply nth_error_None in E. unfold len in H. lia.
Qed.

Lemma nth_error_bound (source : list rune) (i : Z) (c : rune) :
  0 <= i -> nth_error source (Z.to_nat i) = Some c -> i < len source.
Proof.
  intros H0 Hn. unfold len.
  assert (Z.to_nat i < List.length source)%nat; [|lia].
  apply nth_error_Some. rewrite Hn. discriminate.
Qed.

Lemma has_prefix_length (p l : list rune) :
  inv.has_prefix p l = true -> (List.length p <= List.length l)%nat.
Proof.
  revert l. induction p as [|a p IH]; intros [|b l] H; simpl in *; try discriminate; try lia.
  apply andb_true_iff in H as [_ H]. apply IH in H. lia.
Qed.

Lemma always_returns_judge_word (kw : string) (i : Z) (data : list rune) :
  0 <= i -> kw <> EmptyString ->
  inv.always_returns
    (fun r => (exists j, r = (true, j) /\ i <= j < len data) \/ r = (false, i))
    (judge_word kw i data).
Proof.
  intros H0 Hk s. unfold judge_word.
  pose proof (judge_word_loop_result (runes kw) data s 0 (Z.to_nat i)) as E0.
  rewrite Z2Nat.id in E0 by exact H0. rewrite E0.
  eexists _, s. split; [reflexivity|].
  destruct (inv.has_prefix (runes kw) (skipn (Z.to_nat i) data)) eqn:E.
  - left. eexists. split; [reflexivity|].
    apply has_prefix_length in E. rewrite length_skipn in E.
    assert (1 <= List.length (runes kw))%nat by (destruct kw; [contradiction | simpl; lia]).
    unfold len. lia.
  - right. f_equal. lia.
Qed.

Lemma always_returns_keyword (kw : string) (type : Z) (i : Z) (data : list rune)
    (otherwise : Z -> TM Z) :
  0 <= i -> kw <> EmptyString ->
  inv.always_returns (fun j => i <= j <= len data) (otherwise i) ->
  inv.always_returns (fun j => i <= j <= len data) (keyword kw type i data otherwise).
Proof.
  intros H0 Hk Ho. unfold keyword.
  eapply always_returns_bind; [apply always_returns_judge_word; assumption|].
  intros [ok j] [(j' & E & Hj)|E]; injection E as -> ->.
  - apply always_returns_then. apply always_returns_ret. lia.
  - exact Ho.
Qed.

Lemma always_returns_judge_other_loop (source : list rune) (fuel : nat) :
  forall tmp index,
    0 <= index <= len source -> Z.of_nat fuel > len source - index ->
    inv.always_returns (fun j => index - 1 <= j <= len source)
      (judge_other_loop fuel tmp index source).
Proof.
  induction fuel as [|fuel IH]; intros tmp index Hi Hf; [lia|].
  cbn [judge_other_loop].
  destruct (Z.geb_spec index (len source)).
  - apply always_returns_then. apply always_returns_ret. lia.
  - destruct (nth_error_inside source index) as [c Hc]; [lia|].
    eapply always_returns_bind; [apply always_returns_at_index; [lia | exact Hc]|].
    intros x ->. destruct (judge_symbol c).
    + eapply always_returns_weaken; [|apply IH; lia]. simpl; intros; lia.
    + apply always_returns_then. apply always_returns_ret. lia.
Qed.

Lemma always_returns_judge_other (source : list rune) (fuel : nat) (i : Z) (c : rune) :
  0 <= i -> nth_error source (Z.to_nat i) = Some c -> judge_symbol c = true ->
  Z.of_nat fuel > len source - i ->
  inv.always_returns (fun j => i <= j <= len source) (judge_other fuel i source).
Proof.
  intros H0 Hc Hs Hf. pose proof (nth_error_bound _ _ _ H0 Hc) as Hl.
  destruct fuel as [|fuel]; [lia|].
  unfold judge_other. cbn [judge_other_loop].
  destruct (Z.geb_spec i (len source)); [lia|].
  eapply always_returns_bind; [apply always_returns_at_index; [lia | exact Hc]|].
  intros x ->. rewrite Hs.
  eapply always_returns_weaken; [|apply always_returns_judge_other_loop; lia].
  simpl. intros; lia.
Qed.

Lemma always_returns_judge_space_loop (source : list rune) (fuel : nat) :
  forall index,
    0 <= index <= len source -> Z.of_nat fuel > len source - index ->
    inv.always_returns (fun j => index <= j <= len source)
      (judge_space_loop fuel index source).
Proof.
  induction fuel as [|fuel IH]; intros index Hi Hf; [lia|].
  cbn [judge_space_loop].
  destruct (Z.ltb_spec index (len source)).
  - destruct (nth_error_inside source index) as [c Hc]; [lia|].
    eapply always_returns_bind; [apply always_returns_at_index; [lia | exact Hc]|].
    intros x ->. destruct (is_rune c " " || (c =? TAB) || (c =? VTAB)).
    + eapply always_returns_weaken; [|apply IH; lia]. simpl; intros; lia.
    + apply always_returns_ret. lia.
  - apply always_returns_ret. lia.
Qed.

Lemma always_returns_judge_space (source : list rune) (fuel : nat) (i : Z) (c : rune) :
  0 <= i -> nth_error source (Z.to_nat i) = Some c ->
  is_rune c " " || (c =? TAB) = true ->
  Z.of_nat fuel > len source - i ->
  inv.always_returns (fun j => i <= j <= len source) (judge_space fuel i source).
Proof.
  intros H0 Hc Hs Hf. pose proof (nth_error_bound _ _ _ H0 Hc) as Hl.
  destruct fuel as [|fuel]; [lia|].
  unfold judge_space. cbn [judge_space_loop].
  destruct (Z.ltb_spec i (len source)); [|lia].
  eapply always_returns_bind.
  - eapply always_returns_bind; [apply always_returns_at_index; [lia | exact Hc]|].
    intros x ->. rewrite Hs. simpl.
    apply always_returns_judge_space_loop; lia.
  - intros j Hj. cbv beta in Hj. apply always_returns_ret. lia.
Qed.

Lemma always_returns_judge_number_loop (source : list rune) (fuel : nat) :
  forall tmp dot_count index,
    0 <= index <= len source -> Z.of_nat fuel > len source - index ->
    inv.always_returns (fun r => index - 1 <= snd r <= len source)
      (judge_number_loop fuel tmp dot_count index source).
Proof.
  induction fuel as [|fuel IH]; intros tmp dot_count index Hi Hf; [lia|].
  cbn [judge_number_loop].
  destruct (Z.geb_spec index (len source)).
  - apply always_returns_ret. simpl. lia.
  - destruct (nth_error_inside source index) as [c Hc]; [lia|].
    eapply always_returns_bind; [apply always_returns_at_index; [lia | exact Hc]|].
    intros x ->.
    destruct ((c >=? rune_of "0") && (c <=? rune_of "9")).
    + eapply always_returns_weaken; [|apply IH; lia]. simpl; intros; lia.
    + destruct (is_rune c ".").
      * destruct (dot_count >? 1).
        -- apply always_returns_then. apply always_returns_ret. simpl. lia.
        -- eapply always_returns_weaken; [|apply IH; lia]. simpl; intros; lia.
      * apply always_returns_ret. simpl. lia.
Qed.

Lemma always_returns_judge_number (source : list rune) (fuel : nat) (i : Z) (c : rune) :
  0 <= i -> nth_error source (Z.to_nat i) = Some c ->
  (c >=? rune_of "0") && (c <=? rune_of "9") = true ->
  Z.of_nat fuel > len source - i ->
  inv.always_returns (fun j => i <= j <= len source) (judge_number fuel i source).
Proof.
  intros H0 Hc Hd Hf. pose proof (nth_error_bound _ _ _ H0 Hc) as Hl.
  destruct fuel as [|fuel]; [lia|].
  unfold judge_number. cbn [judge_number_loop].
  destruct (Z.geb_spec i (len source)); [lia|].
  eapply always_returns_bind.
  - eapply always_returns_bind; [apply always_returns_at_index; [lia | exact Hc]|].
    intros x ->. rewrite Hd.
    apply always_returns_judge_number_loop; lia.
  - intros [tmp j] Hj. cbv beta in Hj. simpl in Hj.
    apply always_returns_then. apply always_returns_ret. lia.
Qed.

Lemma always_returns_judge_string_loop (source : list rune) (fuel : nat) :
  ~ In BACKSLASH source ->
  forall tmp count index,
    0 <= index <= len source -> Z.of_nat fuel > len source - index ->
    inv.always_returns (fun r => index - 1 <= snd r <= len source)
      (judge_string_loop fuel tmp count index source).
Proof.
  intros Hb.
  induction fuel as [|fuel IH]; intros tmp count index Hi Hf; [lia|].
  cbn [judge_string_loop].
  destruct (Z.geb_spec index (len source)).
  - eapply always_returns_bind with (Q := fun _ => True).
    + destruct (count <? 2); [apply always_returns_modify|].
      apply always_returns_ret; exact I.
    + intros _ _. apply always_returns_ret. simpl. lia.
  - destruct (count >=? 2); [apply always_returns_ret; simpl; lia|].
    destruct (nth_error_inside source index) as [c Hc]; [lia|].
    eapply always_returns_bind; [apply always_returns_at_index; [lia | exact Hc]|].
    intros x ->.
    destruct (c =? DQUOTE).
    + eapply always_returns_weaken; [|apply IH; lia]. simpl; intros; lia.
    + destruct (Z.eqb_spec c BACKSLASH) as [->|_].
      * exfalso. apply Hb. eapply nth_error_In; eauto.
      * eapply always_returns_weaken; [|apply IH; lia]. simpl; intros; lia.
Qed.

Lemma always_returns_judge_string (source : list rune) (fuel : nat) (i : Z) :
  ~ In BACKSLASH source ->
  0 <= i -> nth_error source (Z.to_nat i) = Some DQUOTE ->
  Z.of_nat fuel > len source - i ->
  inv.always_returns (fun j => i <= j <= len source) (judge_string fuel i source).
Proof.
  intros Hb H0 Hc Hf. pose proof (nth_error_bound _ _ _ H0 Hc) as Hl.
  destruct fuel as [|fuel]; [lia|].
  unfold judge_string. cbn [judge_string_loop].
  destruct (Z.geb_spec i (len source)); [lia|].
  change (0 >=? 2) with false. cbn iota.
  eapply always_returns_bind.
  - eapply always_returns_bind; [apply always_returns_at_index; [lia | exact Hc]|].
    intros x ->. change (DQUOTE =? DQUOTE) with true. cbn iota.
    apply always_returns_judge_string_loop; [exact Hb | lia | lia].
  - intros [tmp j] Hj. cbv beta in Hj. simpl in Hj.
    apply always_returns_then. apply always_returns_ret. lia.
Qed.

Lemma always_returns_operator (data : list rune) (i : Z) alts single type :
  0 <= i < len data ->
  inv.always_returns (fun j => i <= j <= len data) (operator data i alts single type).
Proof.
  intros Hi. unfold operator.
  destruct (Z.geb_spec (i + 1) (len data)).
  - apply always_returns_ret. lia.
  - destruct (nth_error_inside data (i + 1)) as [c Hc]; [lia|].
    eapply always_returns_bind; [apply always_returns_at_index; [lia | exact Hc]|].
    intros x ->. destruct (second_char c alts) as [[v t]|];
      apply always_returns_then; apply always_returns_ret; lia.
Qed.

Lemma always_returns_punct (data : list rune) (v : string) (type i : Z) :
  0 <= i < len data ->
  inv.always_returns (fun j => i <= j <= len data) (punct v type i).
Proof.
  intros Hi. unfold punct. apply always_returns_then. apply always_returns_ret. lia.
Qed.

(** One case of the [switch], told by the comparison that selected it. *)
Ltac case_of_switch :=
  match goal with
  | |- inv.always_returns _ (if is_rune ?c ?a then _ else _) =>
      let E := fresh "E" in
      destruct (is_rune c a) eqn:E;
      [ apply Z.eqb_eq in E; subst c | ]
  | |- inv.always_returns _ (if ?c =? ?a then _ else _) =>
      let E := fresh "E" in
      destruct (c =? a) eqn:E;
      [ apply Z.eqb_eq in E; subst c | ]
  end.

Ltac returns_in_case :=
  first
    [ apply always_returns_keyword; [lia | discriminate | ]; returns_in_case
    | eapply always_returns_judge_other; [lia | eassumption | reflexivity | lia]
    | eapply always_returns_punct; lia
    | apply always_returns_operator; lia
    | eapply always_returns_judge_space; [lia | eassumption | reflexivity | lia]
    | apply always_returns_judge_string; [assumption | lia | assumption | lia] ].

Lemma always_returns_scan_case (fuel : nat) (data : list rune) (i : Z) (c : rune) :
  0 <= i ->
  nth_error data (Z.to_nat i) = Some c ->
  c <> rune_of "!" ->
  ~ In BACKSLASH data ->
  Z.of_nat fuel > len data - i ->
  inv.always_returns (fun j => i <= j <= len data) (scan_case fuel data i c).
Proof.
  intros H0 Hc Hbang Hb Hf. pose proof (nth_error_bound _ _ _ H0 Hc) as Hl.
  unfold scan_case.
  do 3 (case_of_switch; [returns_in_case|]).
  (* 'i': the keyword attempt is written out, with its trace line *)
  case_of_switch.
  { eapply always_returns_bind; [apply always_returns_judge_word; [lia | discriminate]|].
    intros [ok j] [(j' & Ej & Hj)|Ej]; injection Ej as -> ->.
    - apply always_returns_then.
      destruct (nth_error_inside data j') as [d Hd]; [lia|].
      eapply always_returns_bind; [apply always_returns_at_index; [lia | exact Hd]|].
      intros _ _. apply always_returns_ret. lia.
    - returns_in_case. }
  do 22 (case_of_switch; [returns_in_case|]).
  (* '!' *)
  case_of_switch; [contradiction Hbang; reflexivity|].
  do 11 (case_of_switch; [returns_in_case|]).
  (* '\n' *)
  case_of_switch.
  { apply always_returns_then. apply always_returns_then.
    apply always_returns_ret. lia. }
  (* '\r' *)
  case_of_switch.
  { cbv zeta. destruct (Z.geb_spec (i + 1) (len data)).
    - apply always_returns_ret. lia.
    - destruct (nth_error_inside data (i + 1)) as [d Hd]; [lia|].
      eapply always_returns_bind; [apply always_returns_at_index; [lia | exact Hd]|].
      intros x ->. destruct (d =? LF);
        apply always_returns_then; apply always_returns_then;
        apply always_returns_ret; lia. }
  case_of_switch; [returns_in_case|].
  (* default *)
  destruct ((c >=? rune_of "0") && (c <=? rune_of "9")) eqn:Ed.
  { eapply always_returns_judge_number; [lia | eassumption | exact Ed | lia]. }
  destruct (judge_symbol c) eqn:Es.
  { eapply always_returns_judge_other; [lia | eassumption | exact Es | lia]. }
  apply always_returns_then. apply always_returns_ret. lia.
Qed.

Lemma ReadString_loop_returns (data : list rune) :
  ~ In (rune_of "!") data ->
  ~ In BACKSLASH data ->
  forall (fuel : nat) (i : Z) (s : ATokenList),
    0 <= i <= len data + 1 ->
    Z.of_nat fuel >= len data - i + 2 ->
    exists s', ReadString_loop fuel data i s = Ret tt s'.
Proof.
  intros Hbang Hb.
  induction fuel as [|fuel IH]; intros i s Hi Hf; [lia|].
  cbn [ReadString_loop].
  destruct (Z.geb_spec i (len data)).
  - eexists. reflexivity.
  - destruct (nth_error_inside data i) as [c Hc]; [lia|].
    unfold bind at 1. rewrite (at_index_inside data i c) by (try lia; exact Hc).
    destruct (always_returns_scan_case fuel data i c) with (s := s)
      as (j & s1 & E & Hj); try assumption; try lia.
    { intros ->. apply Hbang. eapply nth_error_In; eauto. }
    unfold bind at 1. rewrite E.
    unfold bind at 1. unfold modify at 1.
    apply IH; lia.
Qed.

(** X8. The scan terminates, without a panic, on every input that contains
    no '!' and no backslash: with a budget of the length of the input plus
    two, or more, the loop of [ReadString] returns, so [ReadString] either
    returns or exits through its gate. (The two excluded characters are the
    ones of C9.) *)
Theorem scan_terminates_without_bang_and_backslash :
  forall (data : list rune) (extra : nat) (s : ATokenList),
    ~ In (rune_of "!") data ->
    ~ In BACKSLASH data ->
    (exists s', ReadString_loop (List.length data + 2 + extra) data 0 s = Ret tt s') /\
    ((exists s', atoken.ReadString (List.length data + 2 + extra) data s = Ret tt s') \/
     (exists s', atoken.ReadString (List.length data + 2 + extra) data s = Exit s')).
Proof.
  intros data extra s Hbang Hb.
  destruct (ReadString_loop_returns data Hbang Hb
              (List.length data + 2 + extra) 0 s) as [s' E].
  - unfold len; lia.
  - unfold len; lia.
  - split; [eauto|].
    unfold atoken.ReadString, bind, get. rewrite E.
    destruct (len (Error_list s') >? 0); [right | left]; eexists; reflexivity.
Qed.

Lemma scan_terminates_without_bang_and_backslash_witness :
  exists s',
    ReadString_loop (List.length (runes "if (x >= 1.5) { y = 2 }") + 2 + 0)
      (runes "if (x >= 1.5) { y = 2 }") 0 atoken.New = Ret tt s'.
Proof.
  apply (scan_terminates_without_bang_and_backslash
           (runes "if (x >= 1.5) { y = 2 }") 0 atoken.New).
  - intros H. vm_compute in H. repeat destruct H as [H|H]; try discriminate H. exact H.
  - intros H. vm_compute in H. repeat destruct H as [H|H]; try discriminate H. exact H.
Defined.

(** *** Texts that are one token *)

Lemma nth_error_middle {A} (pre rest : list A) (c : A) :
  nth_error (pre ++ c :: rest) (Z.to_nat (len pre)) = Some c.
Proof.
  unfold len. rewrite Nat2Z.id, nth_error_app2, Nat.sub_diag by lia. reflexivity.
Qed.

Lemma at_index_middle {A} (pre rest : list A) (c : A) (s : ATokenList) :
  at_index (pre ++ c :: rest) (len pre) s = Ret c s.
Proof.
  apply at_index_inside; [unfold len; lia | apply nth_error_middle].
Qed.

Lemma len_app {A} (l l' : list A) : len (l ++ l') = len l + len l'.
Proof. unfold len. rewrite length_app. lia. Qed.

Lemma len_cons {A} (a : A) (l : list A) : len (a :: l) = 1 + len l.
Proof. unfold len. simpl List.length. lia. Qed.

Lemma len_nonneg {A} (l : list A) : 0 <= len l.
Proof. unfold len. lia. Qed.

(** The one turn of [ReadString]'s loop that scans a whole text, followed
    by the turn that pushes the end marker. *)
Lemma ReadString_loop_one_case (fuel : nat) (data : list rune) (c : rune)
    (s s1 : ATokenList) :
  nth_error data 0 = Some c ->
  scan_case (S fuel) data 0 c s = Ret (len data) s1 ->
  ReadString_loop (S (S fuel)) data 0 s =
  Ret tt {| token_list := token_list s1
              ++ [mkAToken (Line s1) (Column s1 + (len data + 1)) (runes "End") EOF];
            Line := Line s1; Column := Column s1 + (len data + 1);
            Count := Count s1; Error_list := Error_list s1;
            current_iterator := current_iterator s1 |}.
Proof.
  intros Hc E.
  assert (Hl : 0 < len data) by (destruct data; [discriminate | rewrite len_cons; pose proof (len_nonneg data); lia]).
  cbn [ReadString_loop].
  destruct (Z.geb_spec 0 (len data)); [lia|].
  unfold bind at 1. rewrite (at_index_inside data 0 c) by (try lia; exact Hc).
  unfold bind at 1. rewrite E.
  unfold bind at 1. unfold modify at 1.
  destruct (Z.geb_spec (len data + 1) (len data)); [|lia].
  unfold PushToken, modify, set_Line_Column. cbn.
  replace (len data - 0 + 1) with (len data + 1) by lia. reflexivity.
Qed.

(** Every comparison of the [switch] with a character that [c] is not. *)
Ltac not_these_cases c :=
  unfold scan_case, is_rune;
  repeat match goal with
         | |- context [c =? ?x] =>
             let v := eval vm_compute in x in
             replace (c =? x) with false
               by (symmetry; apply Z.eqb_neq; change x with v; lia)
         end.

Lemma digit_range (c : rune) :
  spec.is_digit c = true -> 48 <= c <= 57.
Proof.
  unfold spec.is_digit. intros H. apply andb_true_iff in H as [H1 H2].
  apply Z.geb_le in H1. apply Z.leb_le in H2.
  change (rune_of "0") with 48 in H1. change (rune_of "9") with 57 in H2. lia.
Qed.

Lemma scan_case_digit (fuel : nat) (data : list rune) (i : Z) (c : rune) :
  spec.is_digit c = true ->
  scan_case fuel data i c = judge_number fuel i data.
Proof.
  intros H. pose proof (digit_range c H) as R.
  unfold spec.is_digit in H.
  not_these_cases c. cbv iota. rewrite H. reflexivity.
Qed.

Lemma judge_number_loop_run (source : list rune) (s : ATokenList) :
  forall (rest pre tmp : list rune) (dots : Z) (fuel : nat),
    source = pre ++ rest ->
    forallb inv.is_digit_or_dot rest = true ->
    0 <= dots -> dots + inv.count_dots rest <= 2 ->
    (List.length rest < fuel)%nat ->
    judge_number_loop fuel tmp dots (len pre) source s = Ret (tmp ++ rest, len source) s.
Proof.
  induction rest as [|c rest IH]; intros pre tmp dots fuel Hs Ha Hd Hc Hf;
    (destruct fuel as [|fuel]; [simpl in Hf; lia|]); cbn [judge_number_loop].
  - rewrite app_nil_r in Hs. subst source.
    destruct (Z.geb_spec (len pre) (len pre)); [|lia].
    rewrite app_nil_r. reflexivity.
  - subst source. rewrite len_app, len_cons. pose proof (len_nonneg rest).
    destruct (Z.geb_spec (len pre) (len pre + (1 + len rest))); [lia|].
    unfold bind at 1. rewrite at_index_middle.
    simpl in Ha. apply andb_true_iff in Ha as [Hcd Ha].
    cbn [inv.count_dots] in Hc.
    assert (Hn : inv.count_dots rest >= 0).
    { clear. induction rest as [|x r IHr]; simpl; [lia|]. destruct (x =? rune_of "."); lia. }
    assert (Eidx : len pre + 1 = len (pre ++ [c])) by (rewrite len_app, len_cons; change (len (@nil rune)) with 0; lia).
    assert (Esrc : pre ++ c :: rest = (pre ++ [c]) ++ rest) by (rewrite <- app_assoc; reflexivity).
    assert (Elen : len pre + (1 + len rest) = len (pre ++ c :: rest))
      by (rewrite len_app, len_cons; lia).
    unfold inv.is_digit_or_dot, spec.is_digit in Hcd.
    destruct ((c >=? rune_of "0") && (c <=? rune_of "9")) eqn:Edig.
    + rewrite Eidx, (IH (pre ++ [c]) (tmp ++ [c]) dots fuel Esrc); auto.
      * rewrite <- app_assoc, Elen. reflexivity.
      * destruct (c =? rune_of "."); lia.
      * simpl in Hf. lia.
    + simpl in Hcd. unfold is_rune. rewrite Hcd in *.
      destruct (Z.gtb_spec dots 1); [lia|].
      rewrite Eidx, (IH (pre ++ [c]) (tmp ++ [c]) (dots + 1) fuel Esrc); auto.
      * rewrite <- app_assoc, Elen. reflexivity.
      * lia.
      * lia.
      * simpl in Hf. lia.
Qed.

(** X9. A text that begins with a digit, is made of digits and dots only
    and has at most two dots is scanned as one NUMBER token whose value is
    the whole text, followed by the end marker; no lex error is recorded,
    whether it has no dot, one, or two. *)
Theorem digits_and_dots_are_one_number :
  forall (d : rune) (rest : list rune) (extra : nat) (s : ATokenList),
    spec.is_digit d = true ->
    forallb inv.is_digit_or_dot rest = true ->
    inv.count_dots rest <= 2 ->
    let text := d :: rest in
    ReadString_loop (List.length text + 2 + extra) text 0 s =
    Ret tt (inv.one_token s text atoken.NUMBER (len text + 1) []).
Proof.
  intros d rest extra s Hd Ha Hc text. subst text.
  replace (List.length (d :: rest) + 2 + extra)%nat
    with (S (S (List.length rest + 1 + extra))) by (simpl; lia).
  assert (E : scan_case (S (List.length rest + 1 + extra)) (d :: rest) 0 d s =
              Ret (len (d :: rest))
                {| token_list := token_list s
                     ++ [mkAToken (Line s) (Column s) (d :: rest) atoken.NUMBER];
                   Line := Line s; Column := Column s; Count := Count s;
                   Error_list := Error_list s; current_iterator := current_iterator s |}).
  { rewrite scan_case_digit by exact Hd. unfold judge_number.
    unfold bind at 1.
    rewrite (judge_number_loop_run (d :: rest) s (d :: rest) [] [] 0); auto.
    - simpl. rewrite Ha. unfold inv.is_digit_or_dot. rewrite Hd. reflexivity.
    - lia.
    - cbn [inv.count_dots]. pose proof (digit_range d Hd).
      replace (d =? rune_of ".") with false; [cbv iota; lia|].
      symmetry. apply Z.eqb_neq. change (rune_of ".") with 46. lia.
    - simpl. lia. }
  rewrite (ReadString_loop_one_case _ (d :: rest) d s _ eq_refl E).
  unfold inv.one_token. cbn. rewrite <- app_assoc, app_nil_r. reflexivity.
Qed.

Lemma digits_and_dots_are_one_number_witness :
  ReadString_loop (List.length (runes "3.14.15") + 2 + 0) (runes "3.14.15") 0 atoken.New =
  Ret tt (inv.one_token atoken.New (runes "3.14.15") atoken.NUMBER 8 []).
Proof.
  apply (digits_and_dots_are_one_number (rune_of "3") (runes ".14.15") 0 atoken.New).
  - reflexivity.
  - reflexivity.
  - vm_compute. discriminate.
Defined.

Lemma scan_case_symbol (fuel : nat) (data : list rune) (i : Z) (c : rune) :
  judge_symbol c = true ->
  spec.is_digit c = false ->
  inv.keyword_initial c = false ->
  scan_case fuel data i c = judge_other fuel i data.
Proof.
  intros Hs Hd Hk.
  assert (R : (65 <= c <= 90 \/ 97 <= c <= 122 \/ c = 95) /\
              c <> 102 /\ c <> 116 /\ c <> 114 /\ c <> 105 /\ c <> 101 /\ c <> 110 /\
              c <> 108 /\ c <> 109 /\ c <> 118 /\ c <> 98 /\ c <> 115 /\ c <> 99).
  { unfold inv.keyword_initial in Hk. cbn [existsb runes] in Hk.
    repeat (apply orb_false_iff in Hk; destruct Hk as [?K Hk]).
    repeat match goal with H : (c =? _) = false |- _ => apply Z.eqb_neq in H end.
    repeat match goal with H : c <> rune_of ?a |- _ =>
      let v := eval vm_compute in (rune_of a) in change (rune_of a) with v in H end.
    unfold judge_symbol, is_rune in Hs. unfold spec.is_digit in Hd. rewrite Hd in Hs.
    rewrite orb_false_r in Hs.
    repeat (apply orb_true_iff in Hs; destruct Hs as [Hs|Hs]).
    - apply andb_true_iff in Hs as [H1 H2]. apply Z.geb_le in H1. apply Z.leb_le in H2.
      change (rune_of "A") with 65 in H1. change (rune_of "Z") with 90 in H2.
      repeat split; auto.
    - apply andb_true_iff in Hs as [H1 H2]. apply Z.geb_le in H1. apply Z.leb_le in H2.
      change (rune_of "a") with 97 in H1. change (rune_of "z") with 122 in H2.
      repeat split; auto.
    - apply Z.eqb_eq in Hs. change (rune_of "_") with 95 in Hs.
      repeat split; auto. }
  unfold spec.is_digit in Hd.
  not_these_cases c. cbv iota. rewrite Hd, Hs. reflexivity.
Qed.

Lemma judge_other_loop_run (source : list rune) :
  forall (rest pre tmp : list rune) (fuel : nat) (s : ATokenList),
    source = pre ++ rest ->
    forallb judge_symbol rest = true ->
    (List.length rest < fuel)%nat ->
    judge_other_loop fuel tmp (len pre) source s =
    Ret (len source)
      {| token_list := token_list s
           ++ [mkAToken (Line s) (Column s) (tmp ++ rest) atoken.WORD];
         Line := Line s; Column := Column s; Count := Count s;
         Error_list := Error_list s; current_iterator := current_iterator s |}.
Proof.
  induction rest as [|c rest IH]; intros pre tmp fuel s Hs Ha Hf;
    (destruct fuel as [|fuel]; [simpl in Hf; lia|]); cbn [judge_other_loop].
  - rewrite app_nil_r in Hs. subst source.
    destruct (Z.geb_spec (len pre) (len pre)); [|lia].
    rewrite app_nil_r. reflexivity.
  - assert (Elen : len source = len pre + (1 + len rest))
      by (subst source; rewrite len_app, len_cons; lia).
    pose proof (len_nonneg rest).
    destruct (Z.geb_spec (len pre) (len source)); [lia|].
    unfold bind at 1. rewrite Hs at 1. rewrite at_index_middle.
    simpl in Ha. apply andb_true_iff in Ha as [Hc Ha]. rewrite Hc.
    assert (Eidx : len pre + 1 = len (pre ++ [c]))
      by (rewrite len_app, len_cons; change (len (@nil rune)) with 0; lia).
    assert (Esrc : source = (pre ++ [c]) ++ rest) by (rewrite <- app_assoc; exact Hs).
    rewrite Eidx, (IH (pre ++ [c]) (tmp ++ [c]) fuel s Esrc Ha) by (simpl in Hf; lia).
    rewrite <- app_assoc. reflexivity.
Qed.

(** A keyword attempt at a place where the keyword does not stand falls
    through to what comes next, with [i] and the state as they were. *)
Lemma keyword_not_there (kw : string) (type : Z) (data : list rune)
    (otherwise : Z -> TM Z) (s : ATokenList) :
  inv.has_prefix (runes kw) data = false ->
  keyword kw type 0 data otherwise s = otherwise 0 s.
Proof.
  intros H. unfold keyword, judge_word, bind.
  pose proof (judge_word_loop_result (runes kw) data s 0 O) as E.
  change (Z.of_nat 0) with 0 in E. cbn [skipn] in E. rewrite H in E.
  rewrite E. reflexivity.
Qed.

Lemma scan_case_no_keyword (fuel : nat) (data : list rune) (c : rune) (s : ATokenList) :
  inv.keyword_initial c = true ->
  inv.no_keyword_prefix data = true ->
  scan_case fuel data 0 c s = judge_other fuel 0 data s.
Proof.
  intros Hk Hn.
  unfold inv.no_keyword_prefix, inv.keywords in Hn. cbn [forallb] in Hn.
  repeat (apply andb_true_iff in Hn; destruct Hn as [?N Hn]).
  repeat match goal with H : negb _ = true |- _ => apply negb_true_iff in H end.
  unfold inv.keyword_initial in Hk. cbn [existsb runes] in Hk.
  repeat (apply orb_true_iff in Hk; destruct Hk as [Hk|Hk]);
    try discriminate Hk; apply Z.eqb_eq in Hk; subst c.
  - change (scan_case fuel data 0 (rune_of "f")) with
      (keyword "func" atoken.FUNC 0 data (fun i =>
       keyword "for" atoken.FOR i data (fun i =>
       keyword "false" atoken.FALSE i data (fun i => judge_other fuel i data)))).
    rewrite !keyword_not_there by assumption. reflexivity.
  - change (scan_case fuel data 0 (rune_of "t")) with
      (keyword "true" atoken.TRUE 0 data (fun i => judge_other fuel i data)).
    rewrite !keyword_not_there by assumption. reflexivity.
  - change (scan_case fuel data 0 (rune_of "r")) with
      (keyword "return" atoken.RETURN 0 data (fun i => judge_other fuel i data)).
    rewrite !keyword_not_there by assumption. reflexivity.
  - change (scan_case fuel data 0 (rune_of "i")) with
      (keyword "if" atoken.IF 0 data (fun i => judge_other fuel i data)) || idtac.
    change (scan_case fuel data 0 (rune_of "i") s) with
      (('(ok, i) <- judge_word "if" 0 data ;;
        if ok then PushToken (runes "if") atoken.IF ;; _ <- at_index data i ;; ret i
        else judge_other fuel i data)%monad s).
    unfold judge_word, bind at 1.
    pose proof (judge_word_loop_result (runes "if") data s 0 O) as E.
    change (Z.of_nat 0) with 0 in E. cbn [skipn] in E. rewrite N4 in E.
    rewrite E. reflexivity.
  - change (scan_case fuel data 0 (rune_of "e")) with
      (keyword "elseif" atoken.ELSEIF 0 data (fun i =>
       keyword "else" atoken.ELSE i data (fun i => judge_other fuel i data))).
    rewrite !keyword_not_there by assumption. reflexivity.
  - change (scan_case fuel data 0 (rune_of "n")) with
      (keyword "new" atoken.NEW 0 data (fun i =>
       keyword "number" atoken.NUMBER i data (fun i => judge_other fuel i data))).
    rewrite !keyword_not_there by assumption. reflexivity.
  - change (scan_case fuel data 0 (rune_of "l")) with
      (keyword "list" atoken.LIST 0 data (fun i => judge_other fuel i data)).
    rewrite !keyword_not_there by assumption. reflexivity.
  - change (scan_case fuel data 0 (rune_of "m")) with
      (keyword "map" atoken.MAP 0 data (fun i => judge_other fuel i data)).
    rewrite !keyword_not_there by assumption. reflexivity.
  - change (scan_case fuel data 0 (rune_of "v")) with
      (keyword "var" atoken.VAR 0 data (fun i => judge_other fuel i data)).
    rewrite !keyword_not_there by assumption. reflexivity.
  - change (scan_case fuel data 0 (rune_of "b")) with
      (keyword "break" atoken.BREAK 0 data (fun i => judge_other fuel i data)).
    rewrite !keyword_not_there by assumption. reflexivity.
  - change (scan_case fuel data 0 (rune_of "s")) with
      (keyword "switch" atoken.SWITCH 0 data (fun i => judge_other fuel i data)).
    rewrite !keyword_not_there by assumption. reflexivity.
  - change (scan_case fuel data 0 (rune_of "c")) with
      (keyword "case" atoken.CASE 0 data (fun i =>
       keyword "continue" atoken.CONTINUE i data (fun i => judge_other fuel i data))).
    rewrite !keyword_not_there by assumption. reflexivity.
Qed.

(** X10. A text made of letters, digits and underscores that begins with a
    letter or an underscore, and that none of the keywords is a prefix of,
    is scanned as one WORD token whose value is the whole text, followed by
    the end marker. (C7 is the case where a keyword is a prefix.) *)
Theorem identifier_is_one_word :
  forall (c : rune) (rest : list rune) (extra : nat) (s : ATokenList),
    judge_symbol c = true ->
    spec.is_digit c = false ->
    forallb judge_symbol rest = true ->
    inv.no_keyword_prefix (c :: rest) = true ->
    ReadString_loop (List.length (c :: rest) + 2 + extra) (c :: rest) 0 s =
    Ret tt (inv.one_token s (c :: rest) atoken.WORD (len (c :: rest) + 1) []).
Proof.
  intros c rest extra s Hs Hd Ha Hn.
  replace (List.length (c :: rest) + 2 + extra)%nat
    with (S (S (List.length rest + 1 + extra))) by (simpl; lia).
  assert (E : scan_case (S (List.length rest + 1 + extra)) (c :: rest) 0 c s =
              Ret (len (c :: rest))
                {| token_list := token_list s
                     ++ [mkAToken (Line s) (Column s) (c :: rest) atoken.WORD];
                   Line := Line s; Column := Column s; Count := Count s;
                   Error_list := Error_list s; current_iterator := current_iterator s |}).
  { assert (Ec : scan_case (S (List.length rest + 1 + extra)) (c :: rest) 0 c s =
                 judge_other (S (List.length rest + 1 + extra)) 0 (c :: rest) s).
    { destruct (inv.keyword_initial c) eqn:Hk.
      - apply scan_case_no_keyword; assumption.
      - rewrite scan_case_symbol by assumption. reflexivity. }
    rewrite Ec. unfold judge_other.
    rewrite (judge_other_loop_run (c :: rest) (c :: rest) [] [] _ s); auto.
    - simpl. rewrite Hs, Ha. reflexivity.
    - simpl. lia. }
  rewrite (ReadString_loop_one_case _ (c :: rest) c s _ eq_refl E).
  unfold inv.one_token. cbn. rewrite <- app_assoc, app_nil_r. reflexivity.
Qed.

Lemma identifier_is_one_word_witness :
  ReadString_loop (List.length (runes "fo_rmat2") + 2 + 0) (runes "fo_rmat2") 0 atoken.New =
  Ret tt (inv.one_token atoken.New (runes "fo_rmat2") atoken.WORD 9 []).
Proof.
  apply (identifier_is_one_word (rune_of "f") (runes "o_rmat2") 0 atoken.New); reflexivity.
Defined.

Lemma judge_string_loop_body (source : list rune) (closed : bool) (s : ATokenList) (n : nat) :
  forall (body pre tmp : list rune) (fuel : nat),
    (List.length body <= n)%nat ->
    source = pre ++ body ++ (if closed then [DQUOTE] else []) ->
    inv.escapes_ok body = true ->
    (List.length body + (if closed then 1 else 0) < fuel)%nat ->
    judge_string_loop fuel tmp 1 (len pre) source s =
    Ret (tmp ++ inv.unescape body, len source) (inv.after_string closed s).
Proof.
  induction n as [|n IH]; intros body pre tmp fuel Hn Hs Ho Hf.
  - destruct body; [|simpl in Hn; lia].
    cbn [app] in Hs. destruct closed.
    + destruct fuel as [|[|fuel]]; try (simpl in Hf; lia).
      cbn [judge_string_loop].
      assert (L : len source = len pre + 1)
        by (subst source; rewrite len_app, len_cons; change (len (@nil rune)) with 0; lia).
      destruct (Z.geb_spec (len pre) (len source)); [lia|].
      change (1 >=? 2) with false. cbv iota.
      unfold bind at 1. rewrite Hs at 1. rewrite at_index_middle.
      change (DQUOTE =? DQUOTE) with true. cbv iota.
      destruct (Z.geb_spec (len pre + 1) (len source)); [|lia].
      change (1 + 1 <? 2) with false. cbv iota.
      unfold bind, ret. rewrite app_nil_r, L. reflexivity.
    + destruct fuel as [|fuel]; [simpl in Hf; lia|].
      rewrite app_nil_r in Hs. subst source.
      cbn [judge_string_loop].
      destruct (Z.geb_spec (len pre) (len pre)); [|lia].
      change (1 <? 2) with true. cbv iota.
      unfold bind, PushLexError, modify, ret. rewrite app_nil_r. reflexivity.
  - destruct body as [|c body]; [apply (IH [] pre tmp fuel); simpl; auto; lia|].
    destruct fuel as [|fuel]; [simpl in Hf; lia|].
    cbn [judge_string_loop].
    assert (L : len pre < len source).
    { subst source. rewrite len_app. cbn [app]. rewrite len_cons.
      pose proof (len_nonneg (body ++ (if closed then [DQUOTE] else []))). lia. }
    destruct (Z.geb_spec (len pre) (len source)); [lia|].
    change (1 >=? 2) with false. cbv iota.
    unfold bind at 1. rewrite Hs at 1. cbn [app]. rewrite at_index_middle.
    cbn [inv.escapes_ok] in Ho. cbn [inv.unescape].
    assert (Eidx : len pre + 1 = len (pre ++ [c]))
      by (rewrite len_app, len_cons; change (len (@nil rune)) with 0; lia).
    destruct (Z.eqb_spec c BACKSLASH) as [->|Hb].
    + change (BACKSLASH =? DQUOTE) with false. cbv iota. cbv zeta.
      destruct body as [|e body]; [discriminate|].
      assert (Hs2 : source = (pre ++ [BACKSLASH]) ++ e :: body ++ (if closed then [DQUOTE] else []))
        by (rewrite <- app_assoc; exact Hs).
      unfold bind at 1. rewrite Hs2 at 1. rewrite Eidx, at_index_middle.
      assert (Eidx2 : len (pre ++ [BACKSLASH]) + 1 = len ((pre ++ [BACKSLASH]) ++ [e]))
        by (rewrite (len_app (pre ++ [BACKSLASH]) [e]), len_cons;
            change (len (@nil rune)) with 0; lia).
      rewrite Eidx2.
      rewrite (IH body ((pre ++ [BACKSLASH]) ++ [e]) (tmp ++ [e]) fuel).
      * rewrite <- app_assoc. reflexivity.
      * simpl in Hn. lia.
      * rewrite <- !app_assoc. exact Hs.
      * exact Ho.
      * simpl in Hf. lia.
    + destruct (c =? DQUOTE); [discriminate|].
      rewrite Eidx.
      rewrite (IH body (pre ++ [c]) (tmp ++ [c]) fuel).
      * rewrite <- app_assoc. reflexivity.
      * simpl in Hn. lia.
      * rewrite <- app_assoc. exact Hs.
      * exact Ho.
      * simpl in Hf. lia.
Qed.

(** X11. A string literal is scanned as one STRING token holding its body
    with every backslash dropped and the rune after it kept as it is. If the
    closing quote is there, no error is recorded; if the input ends before
    it, the "lose a quote" error is recorded and the token is pushed all the
    same. In the body every quote must be escaped and no backslash may be
    the last rune (that one is the panic of C9). *)
Theorem string_literal_is_one_token :
  forall (body : list rune) (closed : bool) (extra : nat) (s : ATokenList),
    inv.escapes_ok body = true ->
    let text := DQUOTE :: body ++ (if closed then [DQUOTE] else []) in
    ReadString_loop (List.length text + 2 + extra) text 0 s =
    Ret tt (inv.one_token s (inv.unescape body) atoken.STRING (len text + 1)
              (if closed then []
               else [mkALexError (Line s) (Column s)
                       (runes "lose a '" ++ [DQUOTE] ++ runes "'")])).
Proof.
  intros body closed extra s Ho text. subst text.
  set (tail := if closed then [DQUOTE] else []).
  set (text := DQUOTE :: body ++ tail).
  assert (Hlen : (List.length text = S (List.length body + List.length tail))%nat)
    by (unfold text; simpl; rewrite length_app; reflexivity).
  replace (List.length text + 2 + extra)%nat
    with (S (S (List.length body + List.length tail + 1 + extra))) by lia.
  assert (E : scan_case (S (List.length body + List.length tail + 1 + extra)) text 0 DQUOTE s =
              Ret (len text)
                (let s1 := inv.after_string closed s in
                 {| token_list := token_list s1
                      ++ [mkAToken (Line s1) (Column s1) (inv.unescape body) atoken.STRING];
                    Line := Line s1; Column := Column s1; Count := Count s1;
                    Error_list := Error_list s1;
                    current_iterator := current_iterator s1 |})).
  { change (scan_case (S (List.length body + List.length tail + 1 + extra)) text 0 DQUOTE)
      with (judge_string (S (List.length body + List.length tail + 1 + extra)) 0 text).
    unfold judge_string. cbn [judge_string_loop].
    assert (0 < len text) by (unfold text; rewrite len_cons; pose proof (len_nonneg (body ++ tail)); lia).
    destruct (Z.geb_spec 0 (len text)); [lia|].
    change (0 >=? 2) with false. cbv iota.
    unfold bind at 1. unfold bind at 1.
    rewrite (at_index_inside text 0 DQUOTE) by (try lia; reflexivity).
    change (DQUOTE =? DQUOTE) with true. cbv iota.
    change (0 + 1) with (len [DQUOTE]).
    rewrite (judge_string_loop_body text closed s (List.length body) body [DQUOTE] []);
      try reflexivity; try exact Ho; try (unfold tail; destruct closed; simpl; lia). }
  rewrite (ReadString_loop_one_case _ text DQUOTE s _ eq_refl E).
  unfold inv.one_token, inv.after_string. destruct closed; cbn; rewrite <- app_assoc;
    try rewrite app_nil_r; reflexivity.
Qed.

Lemma string_literal_is_one_token_witness :
  ReadString_loop (List.length (DQUOTE :: runes "a" ++ [BACKSLASH; DQUOTE] ++ runes "b" ++ [DQUOTE]) + 2 + 0)
    (DQUOTE :: (runes "a" ++ [BACKSLASH; DQUOTE] ++ runes "b") ++ [DQUOTE]) 0 atoken.New =
  Ret tt (inv.one_token atoken.New (runes "a" ++ [DQUOTE] ++ runes "b") atoken.STRING 7 []).
Proof.
  apply (string_literal_is_one_token (runes "a" ++ [BACKSLASH; DQUOTE] ++ runes "b") true 0 atoken.New).
  reflexivity.
Defined.

(** *** The last character, and line breaks *)

(** Selects the case of the [switch] for a character that is known. *)
Ltac pick_case :=
  unfold scan_case;
  repeat match goal with
         | |- context [if is_rune ?c ?a then _ else _] =>
             let b := eval vm_compute in (is_rune c a) in
             change (is_rune c a) with b; cbv iota
         | |- context [if ?c =? ?a then _ else _] =>
             let b := eval vm_compute in (c =? a) in
             change (c =? a) with b; cbv iota
         end.

(** One turn of the loop at a position inside the input. *)
Lemma ReadString_loop_turn (fuel : nat) (data : list rune) (i : nat) (c : rune)
    (s s1 : ATokenList) (j : Z) :
  nth_error data i = Some c ->
  scan_case fuel data (Z.of_nat i) c s = Ret j s1 ->
  ReadString_loop (S fuel) data (Z.of_nat i) s =
  ReadString_loop fuel data (j + 1)
    (set_Line_Column (Line s1) (Column s1 + (j - Z.of_nat i + 1)) s1).
Proof.
  intros Hc E.
  assert (Hl : Z.of_nat i < len data).
  { unfold len. assert (i < List.length data)%nat; [|lia].
    apply nth_error_Some. rewrite Hc. discriminate. }
  cbn [ReadString_loop].
  destruct (Z.geb_spec (Z.of_nat i) (len data)); [lia|].
  unfold bind at 1.
  rewrite (at_index_inside data (Z.of_nat i) c) by (try lia; rewrite Nat2Z.id; exact Hc).
  unfold bind at 1. rewrite E.
  unfold bind at 1. unfold modify at 1. reflexivity.
Qed.

Lemma operator_at_the_end (data : list rune) (i : Z) alts single type (s : ATokenList) :
  i + 1 >= len data ->
  operator data i alts single type s = Ret (i + 1) s.
Proof.
  intros H. unfold operator. destruct (Z.geb_spec (i + 1) (len data)); [reflexivity|lia].
Qed.

(** X12. An operator character that looks one character ahead
    ([+ - * / > < = | &]), or a carriage return, is dropped when it is the
    last character of the input: no token is pushed for it and no error is
    recorded; the scan ends with the end marker, two columns further. *)
Theorem last_character_is_dropped :
  forall (fuel : nat) (data : list rune) (i : nat) (c : rune) (s : ATokenList),
    nth_error data i = Some c ->
    S i = List.length data ->
    inv.dropped_when_last c = true ->
    ReadString_loop (S (S fuel)) data (Z.of_nat i) s =
    Ret tt {| token_list := token_list s
                ++ [mkAToken (Line s) (Column s + 2) (runes "End") atoken.EOF];
              Line := Line s; Column := Column s + 2; Count := Count s;
              Error_list := Error_list s; current_iterator := current_iterator s |}.
Proof.
  intros fuel data i c s Hc Hl Hd.
  assert (Hlen : len data = Z.of_nat i + 1) by (unfold len; lia).
  assert (E : scan_case (S fuel) data (Z.of_nat i) c s = Ret (Z.of_nat i + 1) s).
  { unfold inv.dropped_when_last, inv.lookahead_operator in Hd.
    cbn [existsb runes] in Hd.
    repeat (apply orb_true_iff in Hd; destruct Hd as [Hd|Hd]);
      try discriminate Hd; apply Z.eqb_eq in Hd; subst c; pick_case;
      try (apply operator_at_the_end; lia).
    cbv zeta. destruct (Z.geb_spec (Z.of_nat i + 1) (len data)); [reflexivity|lia]. }
  rewrite (ReadString_loop_turn _ data i c s s _ Hc E).
  cbn [ReadString_loop].
  destruct (Z.geb_spec (Z.of_nat i + 1 + 1) (len data)); [|lia].
  unfold PushToken, modify, set_Line_Column. cbn.
  replace (Z.of_nat i + 1 - Z.of_nat i + 1) with 2 by lia. reflexivity.
Qed.

Lemma last_character_is_dropped_witness :
  ReadString_loop 2 (runes "+") 0 atoken.New =
  Ret tt {| token_list := [mkAToken 1 3 (runes "End") atoken.EOF];
            Line := 1; Column := 3; Count := 1; Error_list := [];
            current_iterator := None |}.
Proof.
  apply (last_character_is_dropped 0 (runes "+") 0 (rune_of "+") atoken.New); reflexivity.
Defined.

(** X13. Line breaks. A line feed pushes a separator token, starts the
    next line and stamps the next token with column 1; so does a carriage
    return that another character follows; a carriage return followed by a
    line feed is one separator, whose text is backslash-r backslash-b, and
    the next token is stamped with column 2. *)
Theorem line_breaks :
  forall (fuel : nat) (data : list rune) (i : nat) (s : ATokenList),
    (nth_error data i = Some LF ->
     ReadString_loop (S fuel) data (Z.of_nat i) s =
     ReadString_loop fuel data (Z.of_nat i + 1) (inv.after_break s (runes "\n") 1))
    /\
    (nth_error data i = Some CR ->
     nth_error data (S i) = Some LF ->
     ReadString_loop (S fuel) data (Z.of_nat i) s =
     ReadString_loop fuel data (Z.of_nat i + 2) (inv.after_break s (runes "\r\b") 2))
    /\
    (forall d, nth_error data i = Some CR ->
     nth_error data (S i) = Some d -> d <> LF ->
     ReadString_loop (S fuel) data (Z.of_nat i) s =
     ReadString_loop fuel data (Z.of_nat i + 1) (inv.after_break s (runes "\r") 1)).
Proof.
  intros fuel data i s. split; [|split].
  - intros Hc.
    assert (E : scan_case fuel data (Z.of_nat i) LF s =
                Ret (Z.of_nat i) (inv.after_break s (runes "\n") 0))
      by (pick_case; reflexivity).
    rewrite (ReadString_loop_turn _ data i LF s _ _ Hc E).
    unfold set_Line_Column, inv.after_break. cbn.
    replace (Z.of_nat i - Z.of_nat i + 1) with 1 by lia. reflexivity.
  - intros Hc Hd.
    assert (Hl : Z.of_nat (S i) < len data).
    { unfold len. assert (S i < List.length data)%nat; [|lia].
      apply nth_error_Some. rewrite Hd. discriminate. }
    assert (E : scan_case fuel data (Z.of_nat i) CR s =
                Ret (Z.of_nat i + 1) (inv.after_break s (runes "\r\b") 0)).
    { pick_case. cbv zeta.
      destruct (Z.geb_spec (Z.of_nat i + 1) (len data)); [lia|].
      unfold bind at 1.
      rewrite (at_index_inside data (Z.of_nat i + 1) LF)
        by (try lia; replace (Z.to_nat (Z.of_nat i + 1)) with (S i) by lia; exact Hd).
      reflexivity. }
    rewrite (ReadString_loop_turn _ data i CR s _ _ Hc E).
    unfold set_Line_Column, inv.after_break. cbn.
    replace (Z.of_nat i + 1 - Z.of_nat i + 1) with 2 by lia.
    replace (Z.of_nat i + 1 + 1) with (Z.of_nat i + 2) by lia. reflexivity.
  - intros d Hc Hd Hn.
    assert (Hl : Z.of_nat (S i) < len data).
    { unfold len. assert (S i < List.length data)%nat; [|lia].
      apply nth_error_Some. rewrite Hd. discriminate. }
    assert (E : scan_case fuel data (Z.of_nat i) CR s =
                Ret (Z.of_nat i + 1 - 1) (inv.after_break s (runes "\r") 0)).
    { pick_case. cbv zeta.
      destruct (Z.geb_spec (Z.of_nat i + 1) (len data)); [lia|].
      unfold bind at 1.
      rewrite (at_index_inside data (Z.of_nat i + 1) d)
        by (try lia; replace (Z.to_nat (Z.of_nat i + 1)) with (S i) by lia; exact Hd).
      destruct (Z.eqb_spec d LF); [contradiction|]. reflexivity. }
    rewrite (ReadString_loop_turn _ data i CR s _ _ Hc E).
    unfold set_Line_Column, inv.after_break. cbn.
    replace (Z.of_nat i + 1 - 1 - Z.of_nat i + 1) with 1 by lia.
    replace (Z.of_nat i + 1 - 1 + 1) with (Z.of_nat i + 1) by lia. reflexivity.
Qed.

Lemma line_breaks_witness :
  ReadString_loop 4 [CR; LF; rune_of "x"] 0 atoken.New =
  ReadString_loop 3 [CR; LF; rune_of "x"] 2
    (inv.after_break atoken.New (runes "\r\b") 2).
Proof.
  destruct (line_breaks 3 [CR; LF; rune_of "x"] 0 atoken.New) as (_ & H & _).
  apply H; reflexivity.
Defined.

(** ** The parser, continued *)

(** *** First error stops the parse *)

Lemma same_text_refl (s : AParser) : inv.same_text s s.
Proof. repeat split. Qed.

Lemma same_text_trans (s1 s2 s3 : AParser) :
  inv.same_text s1 s2 -> inv.same_text s2 s3 -> inv.same_text s1 s3.
Proof.
  intros (A1 & A2 & A3 & A4 & A5) (B1 & B2 & B3 & B4 & B5).
  repeat split; congruence.
Qed.

Lemma fail_fast_ret {A} (a : A) : inv.fail_fast (ret a).
Proof. intros s. split; [reflexivity | apply same_text_refl]. Qed.

Lemma fail_fast_panic {A} : inv.fail_fast (@panic AParser A).
Proof. intros s. exact I. Qed.

Lemma fail_fast_timeout {A} : inv.fail_fast (@timeout AParser A).
Proof. intros s. exact I. Qed.

Lemma fail_fast_bind {A B} (m : PM A) (k : A -> PM B) :
  inv.fail_fast m -> (forall a, inv.fail_fast (k a)) -> inv.fail_fast (bind m k).
Proof.
  intros Hm Hk s. unfold bind. specialize (Hm s).
  destruct (m s) as [a s1| s1 | |]; auto.
  destruct Hm as [E T]. specialize (Hk a s1).
  destruct (k a s1) as [b s2| s2 | |]; auto.
  - destruct Hk as [E2 T2]. split; [congruence | eapply same_text_trans; eauto].
  - destruct Hk as [(l & c & f & rest & E2) T2].
    split; [|eapply same_text_trans; eauto].
    exists l, c, f, rest. rewrite E2, E. reflexivity.
Qed.

Lemma fail_fast_GetToken : inv.fail_fast aparser.GetToken.
Proof.
  intros s. unfold aparser.GetToken, on_AToken.
  unfold atoken.GetToken, bind, get, modify, ret, deref.
  destruct (current_iterator (AToken s)) as [e|]; simpl.
  - destruct (nth_error (token_list (AToken s)) e); simpl; [|exact I].
    repeat split.
  - repeat split.
Qed.

Lemma fail_fast_BackToken : inv.fail_fast aparser.BackToken.
Proof.
  intros s. unfold aparser.BackToken, on_AToken.
  destruct (atoken.BackToken (AToken s)) as [t s1| s1 | |] eqn:E; auto.
  - unfold atoken.BackToken, bind, get, modify, ret, deref in E.
    destruct (current_iterator (AToken s)) as [c|].
    + simpl in E. destruct (Prev c) as [e|]; simpl in E; [|discriminate].
      destruct (nth_error (token_list (AToken s)) e); simpl in E; [|discriminate].
      injection E as _ <-. repeat split.
    + destruct (Back (token_list (AToken s))) as [b|]; simpl in E; [|discriminate].
      destruct (Prev b) as [e|]; simpl in E; [|discriminate].
      destruct (nth_error (token_list (AToken s)) e); simpl in E; [|discriminate].
      injection E as _ <-. repeat split.
  - exfalso. unfold atoken.BackToken, bind, get, modify, ret, deref in E.
    destruct (current_iterator (AToken s)) as [c|].
    + simpl in E. destruct (Prev c) as [e|]; simpl in E; [|discriminate].
      destruct (nth_error (token_list (AToken s)) e); discriminate.
    + destruct (Back (token_list (AToken s))) as [b|]; simpl in E; [|discriminate].
      destruct (Prev b) as [e|]; simpl in E; [|discriminate].
      destruct (nth_error (token_list (AToken s)) e); discriminate.
Qed.

Lemma fail_fast_IsEnd : inv.fail_fast aparser.IsEnd.
Proof.
  intros s. unfold aparser.IsEnd, on_AToken, atoken.IsEnd, bind, get, deref, ret.
  destruct (current_iterator (AToken s)) as [c|]; [|exact I].
  destruct (match Next (token_list (AToken s)) c with
            | Some a => match Back (token_list (AToken s)) with
                        | Some b => Nat.eqb a b | None => false end
            | None => match Back (token_list (AToken s)) with
                      | Some _ => false | None => true end
            end).
  - destruct s as [[]]; repeat split.
  - destruct (len (token_list (AToken s)) <=? 3); destruct s as [[]]; repeat split.
Qed.

Lemma fail_fast_deref {A} (p : option A) : inv.fail_fast (deref p).
Proof. destruct p; [apply fail_fast_ret | apply fail_fast_panic]. Qed.

Lemma fail_fast_Get : inv.fail_fast Get.
Proof.
  unfold Get. apply fail_fast_bind; [apply fail_fast_GetToken|].
  intros t. apply fail_fast_deref.
Qed.

Lemma fail_fast_unexpected {A} (token : atoken.AToken) (rest : gostring) :
  inv.fail_fast (@unexpected A token rest).
Proof.
  intros s. unfold unexpected, bind, get, PushError, modify, os_Exit. simpl.
  split; [|repeat split].
  exists (tok_Line token), (tok_Column token), (File s), (tok_Value token ++ rest).
  reflexivity.
Qed.

Ltac fail_fast_steps :=
  repeat first
    [ apply fail_fast_ret
    | apply fail_fast_Get
    | apply fail_fast_GetToken
    | apply fail_fast_BackToken
    | apply fail_fast_IsEnd
    | apply fail_fast_unexpected
    | assumption
    | match goal with
      | H : forall _, inv.fail_fast _ |- _ => apply H
      end
    | apply fail_fast_bind; [|intros]
    | match goal with
      | |- inv.fail_fast (if ?b then _ else _) => destruct b
      | |- inv.fail_fast (match ?x with Some _ => _ | None => _ end) => destruct x
      end ].

Lemma fail_fast_no_procs : inv.Procs_all (@inv.fail_fast) no_procs.
Proof. repeat split; intros; apply fail_fast_timeout. Qed.

Ltac split_procs H :=
  unfold inv.Procs_all in H;
  repeat match type of H with
         | _ /\ _ => let H1 := fresh "P" in destruct H as [H1 H]
         end.

Lemma fail_fast_procs (fuel : nat) : inv.Procs_all (@inv.fail_fast) (procs fuel).
Proof.
  induction fuel as [|fuel IH]; [apply fail_fast_no_procs|].
  split_procs IH.
  unfold inv.Procs_all. cbn [procs call_MainStatement call_TMP_MainStatement
    call_Statement call_FuncStatement call_FuncReturnType call_FuncReturnType_loop
    call_FuncReturnType_Factor call_FuncStatement_Define
    call_TMP_FuncStatement_Define call_BreakStatement call_ContinueStatement
    call_FuncStatement_Define_Factor call_FuncStatement_Return
    call_FuncStatement_Return_loop call_AssigmentStatement
    call_TMP_AssigmentStatement call_MoreArithmetic_Expression
    call_TMP_MoreArithmetic_Expression call_IFStatement call_IFStatement_ELSE
    call_VarStatement call_BlockStatement call_BlockMain_Statement
    call_TMP_BlockMain_Statement call_BlockStatement_Factor call_CallFuncStatement
    call_CallFuncStatement_Arg call_Tmp_CallFuncStatement_Arg call_ForStatement
    call_ForStatement_Assigment call_Boolean_Expression
    call_Boolean_Expression_loop call_Boolean_Expression_Factor
    call_Arithmetic_Expression call_Arithmetic_Expression_loop
    call_Arithmetic_Expression_Term call_Arithmetic_Expression_Term_loop
    call_Arithmetic_Expression_Factor].
  repeat split; intros;
    unfold MainStatement, TMP_MainStatement, Statement, FuncStatement,
      FuncReturnType, FuncReturnType_loop, FuncReturnType_Factor,
      FuncStatement_Define, TMP_FuncStatement_Define, BreakStatement,
      ContinueStatement, FuncStatement_Define_Factor, FuncStatement_Return,
      FuncStatement_Return_loop, AssigmentStatement, TMP_AssigmentStatement,
      MoreArithmetic_Expression, TMP_MoreArithmetic_Expression, IFStatement,
      IFStatement_ELSE, VarStatement, BlockStatement, BlockMain_Statement,
      TMP_BlockMain_Statement, BlockStatement_Factor, CallFuncStatement,
      CallFuncStatement_Arg, Tmp_CallFuncStatement_Arg, ForStatement,
      ForStatement_Assigment, Boolean_Expression, Boolean_Expression_loop,
      Boolean_Expression_Factor, Arithmetic_Expression,
      Arithmetic_Expression_loop, Arithmetic_Expression_Term,
      Arithmetic_Expression_Term_loop, Arithmetic_Expression_Factor;
    cbv zeta; fail_fast_steps.
Qed.

(** X14.  The parser stops at its first error.  Whenever a grammar
    procedure returns, at any budget of recursion, it has recorded no parse
    error; whenever it exits, it has recorded exactly one, whose text begins
    with "unexpected "; in both cases it has written nothing of the
    scanner's tokens, position or error list, nor the file name.  Nothing is
    said of a run that panics (X16 and X17 are such runs). *)
Theorem parser_stops_at_first_error (fuel : nat) :
  inv.Procs_all (@inv.fail_fast) (procs fuel).
Proof. apply fail_fast_procs. Qed.

(** X15.  [ReadString], started with no parse error on record, returns with
    none; when it exits, it does so either out of the scan, with no parse
    error, or with exactly one parse error, whose text begins with
    "unexpected ". *)
Theorem ReadString_records_at_most_one_error :
  forall fuel str s,
    Error_List s = [] ->
    match aparser.ReadString fuel str s with
    | Ret _ s' => Error_List s' = []
    | Exit s' =>
        Error_List s' = [] \/
        (exists l c f rest,
           Error_List s' = [mkAParserError l c f (runes "unexpected " ++ rest)])
    | Panic => True
    | OutOfFuel => True
    end.
Proof.
  intros fuel str s E0.
  unfold aparser.ReadString, bind.
  unfold on_AToken at 1.
  destruct (atoken.ReadString fuel str (AToken s)) as [[] t| t | |] eqn:ER; auto.
  unfold CheckUp, bind, get. cbn [Error_List set_AToken]. rewrite E0.
  change (len (@nil AParserError) >? 0) with false. cbv iota.
  unfold ret at 1.
  pose proof (fail_fast_procs fuel) as [PM_ _].
  specialize (PM_ (set_AToken t s)).
  destruct (call_MainStatement (procs fuel) (set_AToken t s)) as [[] s'| s' | |]; auto.
  - destruct PM_ as [E _]. rewrite E. exact E0.
  - destruct PM_ as [(l & c & f & rest & E) _]. right.
    exists l, c, f, rest. rewrite E. cbn [Error_List set_AToken]. rewrite E0.
    reflexivity.
Qed.

Lemma ReadString_records_at_most_one_error_witness :
  Error_List aparser.New = [] /\
  match aparser.ReadString 40 (runes "x = 1 + ") aparser.New with
  | Ret _ s' => Error_List s' = []
  | Exit s' =>
      Error_List s' = [] \/
      (exists l c f rest,
         Error_List s' = [mkAParserError l c f (runes "unexpected " ++ rest)])
  | Panic => True
  | OutOfFuel => True
  end.
Proof.
  split; [reflexivity|].
  apply (ReadString_records_at_most_one_error 40 (runes "x = 1 + ") aparser.New).
  reflexivity.
Defined.

(** *** The end of the token list *)

Lemma parser_Get_nil (s : AParser) :
  current_iterator (AToken s) = None -> Get s = Panic.
Proof.
  intros E. unfold Get, bind, aparser.GetToken, on_AToken, atoken.GetToken,
    bind, get, modify, ret.
  rewrite E. reflexivity.
Qed.

Lemma parser_IsEnd_nil (s : AParser) :
  current_iterator (AToken s) = None -> aparser.IsEnd s = Panic.
Proof.
  intros E. unfold aparser.IsEnd, on_AToken, atoken.IsEnd, bind, get.
  rewrite E. reflexivity.
Qed.

(** X16.  The statement procedures need a cursor.  With [current_iterator]
    nil -- its value once [GetToken] has stepped past the last token --
    [TMP_MainStatement] panics in [IsEnd], and [Statement] and
    [BlockStatement_Factor] panic on the nil token [GetToken] hands them;
    whatever the other procedures do.  So the test [token == nil] of
    [TMP_MainStatement] is never reached with a nil token. *)
Theorem statements_panic_without_cursor :
  forall (self : Procs) (s : AParser),
    current_iterator (AToken s) = None ->
    TMP_MainStatement self s = Panic /\
    Statement self s = Panic /\
    BlockStatement_Factor self s = Panic.
Proof.
  intros self s E. repeat split.
  - unfold TMP_MainStatement, bind. rewrite (parser_IsEnd_nil s E). reflexivity.
  - unfold Statement, bind. rewrite (parser_Get_nil s E). reflexivity.
  - unfold BlockStatement_Factor, bind. rewrite (parser_Get_nil s E). reflexivity.
Qed.

Lemma statements_panic_without_cursor_witness :
  current_iterator (AToken aparser.New) = None /\
  TMP_MainStatement no_procs aparser.New = Panic /\
  Statement no_procs aparser.New = Panic /\
  BlockStatement_Factor no_procs aparser.New = Panic.
Proof.
  split; [reflexivity|].
  apply (statements_panic_without_cursor no_procs aparser.New).
  reflexivity.
Defined.

(** X17.  The End marker is read as a statement separator.  When the cursor
    stands on the last token, that token has the type [EOF] (as the End
    marker has) and the list holds more than three tokens, [IsEnd] answers
    false, [TMP_MainStatement] takes the marker for a separator and calls
    [Statement], which finds no token and panics. *)
Theorem End_marker_read_as_separator :
  forall (fuel : nat) (s : AParser) (p : nat) (last : atoken.AToken),
    current_iterator (AToken s) = Some p ->
    nth_error (token_list (AToken s)) p = Some last ->
    S p = List.length (token_list (AToken s)) ->
    tok_Type last = atoken.EOF ->
    3 < len (token_list (AToken s)) ->
    TMP_MainStatement (procs (S fuel)) s = Panic.
Proof.
  intros fuel s p last Ec Ep Elast Ety Hlen.
  unfold TMP_MainStatement, bind.
  assert (EN : Next (token_list (AToken s)) p = None).
  { unfold Next. destruct (Nat.ltb_spec (S p) (List.length (token_list (AToken s))));
      [lia | reflexivity]. }
  assert (EB : Back (token_list (AToken s)) = Some p).
  { unfold Back. destruct (token_list (AToken s)) as [|t l]; [discriminate|].
    simpl in Elast. injection Elast as ->. reflexivity. }
  assert (EI : aparser.IsEnd s = Ret false s).
  { unfold aparser.IsEnd, on_AToken, atoken.IsEnd, bind, get, deref, ret.
    rewrite Ec. cbv iota beta. rewrite EN, EB.
    destruct (Z.leb_spec (len (token_list (AToken s))) 3); [lia|].
    destruct s as [[]]; reflexivity. }
  rewrite EI.
  rewrite (parser_GetToken_at s p last Ec Ep).
  unfold Type_is. rewrite Ety, Z.eqb_refl.
  cbn [procs call_Statement].
  unfold Statement at 1, bind at 1.
  rewrite parser_Get_nil; [reflexivity|].
  cbn. exact EN.
Qed.

Lemma End_marker_read_as_separator_witness :
  TMP_MainStatement (procs 1)
    (set_AToken
       (mkATokenList
          [mkAToken 1 1 (runes "a") atoken.WORD;
           mkAToken 1 2 (runes "\n") atoken.EOF;
           mkAToken 2 1 (runes "b") atoken.WORD;
           mkAToken 2 2 (runes "End") atoken.EOF]
          2 2 1 [] (Some 3%nat))
       aparser.New) = Panic.
Proof.
  apply (End_marker_read_as_separator 0 _ 3 (mkAToken 2 2 (runes "End") atoken.EOF));
    reflexivity.
Defined.

(** *** Look-ahead *)

(** X18.  The two-token look-ahead of a statement is undone exactly.  When a
    statement starts with an identifier followed by '(' (resp. by '=' or
    ','), and the second token is not the last of the list, [Statement] and
    [BlockStatement_Factor] hand over to [CallFuncStatement] (resp.
    [AssigmentStatement]) with the cursor back on the identifier and only
    the call counter changed, and return true after it. *)
Theorem lookahead_is_undone :
  forall (self : Procs) (s : AParser) (p : nat) (word next : atoken.AToken),
    current_iterator (AToken s) = Some p ->
    nth_error (token_list (AToken s)) p = Some word ->
    nth_error (token_list (AToken s)) (S p) = Some next ->
    (S (S p) < List.length (token_list (AToken s)))%nat ->
    tok_Type word = atoken.WORD ->
    (tok_Type next = atoken.LP ->
     Statement self s = (call_CallFuncStatement self ;; ret true) (inv.rewound p s) /\
     BlockStatement_Factor self s =
       (call_CallFuncStatement self ;; ret true) (inv.rewound p s)) /\
    (tok_Type next = atoken.ASSIGMENT \/ tok_Type next = atoken.COMMA ->
     Statement self s = (call_AssigmentStatement self ;; ret true) (inv.rewound p s) /\
     BlockStatement_Factor self s =
       (call_AssigmentStatement self ;; ret true) (inv.rewound p s)).
Proof.
  intros self s p word next Hc Hw Hn Hlt2 Tw.
  assert (Hlt : (S p < List.length (token_list (AToken s)))%nat) by lia.
  assert (HN : Next (token_list (AToken s)) p = Some (S p))
    by (unfold Next; apply Nat.ltb_lt in Hlt; rewrite Hlt; reflexivity).
  assert (HN2 : Next (token_list (AToken s)) (S p) = Some (S (S p)))
    by (unfold Next; apply Nat.ltb_lt in Hlt2; rewrite Hlt2; reflexivity).
  pose proof (parser_Get_at s p word Hc Hw) as G1. rewrite HN in G1.
  set (s1 := set_AToken (incr_Count (set_iterator (Some (S p)) (AToken s))) s) in *.
  assert (B1 : aparser.BackToken s1 = Ret word (set_AToken (set_iterator (Some p) (AToken s1)) s1))
    by (apply parser_BackToken_at; [reflexivity | exact Hw]).
  set (s2 := set_AToken (set_iterator (Some p) (AToken s1)) s1) in *.
  assert (G2 : aparser.GetToken s2 =
               Ret (Some word)
                 (set_AToken (incr_Count (set_iterator (Next (token_list (AToken s2)) p) (AToken s2))) s2))
    by (apply parser_GetToken_at; [reflexivity | exact Hw]).
  change (token_list (AToken s2)) with (token_list (AToken s)) in G2. rewrite HN in G2.
  set (s3 := set_AToken (incr_Count (set_iterator (Some (S p)) (AToken s2))) s2) in *.
  assert (G3 : Get s3 =
               Ret next
                 (set_AToken (incr_Count (set_iterator (Next (token_list (AToken s3)) (S p)) (AToken s3))) s3))
    by (apply parser_Get_at; [reflexivity | exact Hn]).
  change (token_list (AToken s3)) with (token_list (AToken s)) in G3. rewrite HN2 in G3.
  set (s4 := set_AToken (incr_Count (set_iterator (Some (S (S p))) (AToken s3))) s3) in *.
  assert (B2 : aparser.BackToken s4 =
               Ret next (set_AToken (set_iterator (Some (S p)) (AToken s4)) s4))
    by (apply parser_BackToken_at; [reflexivity | exact Hn]).
  set (s5 := set_AToken (set_iterator (Some (S p)) (AToken s4)) s4) in *.
  assert (B3 : aparser.BackToken s5 = Ret word (inv.rewound p s))
    by (apply (parser_BackToken_at s5 p word); [reflexivity | exact Hw]).
  assert (W : forall type, atoken.WORD <> type -> Type_is word type = false)
    by (intros type H; apply Type_is_false; rewrite Tw; exact H).
  assert (WW : Type_is word atoken.WORD = true)
    by (unfold Type_is; rewrite Tw; reflexivity).
  assert (back2 : forall A (m : PM A),
            (aparser.BackToken ;; aparser.BackToken ;; m) s4 = m (inv.rewound p s)).
  { intros A m. unfold bind at 1. rewrite B2. unfold bind at 1. rewrite B3.
    reflexivity. }
  split.
  - intros T.
    assert (L : Type_is next atoken.LP = true)
      by (unfold Type_is; rewrite T; reflexivity).
    split.
    + unfold Statement.
      unfold bind at 1. rewrite G1.
      unfold bind at 1. rewrite B1.
      rewrite !W by discriminate. rewrite WW.
      unfold bind at 1. rewrite G2.
      unfold bind at 1. unfold bind at 1. rewrite G3.
      rewrite L.
      rewrite back2. unfold bind. reflexivity.
    + unfold BlockStatement_Factor.
      unfold bind at 1. rewrite G1.
      unfold bind at 1. rewrite B1.
      rewrite !W by discriminate. rewrite WW.
      unfold bind at 1. rewrite G2.
      unfold bind at 1. unfold bind at 1. rewrite G3.
      rewrite L.
      rewrite back2. unfold bind. reflexivity.
  - intros T.
    assert (NL : Type_is next atoken.LP = false)
      by (apply Type_is_false; destruct T as [T|T]; rewrite T; discriminate).
    assert (AC : Type_is next atoken.ASSIGMENT || Type_is next atoken.COMMA = true)
      by (unfold Type_is; destruct T as [T|T]; rewrite T; reflexivity).
    split.
    + unfold Statement.
      unfold bind at 1. rewrite G1.
      unfold bind at 1. rewrite B1.
      rewrite !W by discriminate. rewrite WW.
      unfold bind at 1. rewrite G2.
      unfold bind at 1. unfold bind at 1. rewrite G3.
      rewrite NL, AC.
      rewrite back2. unfold bind. reflexivity.
    + unfold BlockStatement_Factor.
      unfold bind at 1. rewrite G1.
      unfold bind at 1. rewrite B1.
      rewrite !W by discriminate. rewrite WW.
      unfold bind at 1. rewrite G2.
      unfold bind at 1. unfold bind at 1. rewrite G3.
      rewrite NL, AC.
      rewrite back2. unfold bind. reflexivity.
Qed.
Lemma lookahead_is_undone_witness :
  Statement no_procs
    (set_AToken
       (mkATokenList
          [mkAToken 1 1 (runes "f") atoken.WORD;
           mkAToken 1 2 (runes "(") atoken.LP;
           mkAToken 1 3 (runes ")") atoken.RP;
           mkAToken 1 4 (runes "End") atoken.EOF]
          1 4 1 [] (Some 0%nat))
       aparser.New)
  = (call_CallFuncStatement no_procs ;; ret true)
      (inv.rewound 0
         (set_AToken
            (mkATokenList
               [mkAToken 1 1 (runes "f") atoken.WORD;
                mkAToken 1 2 (runes "(") atoken.LP;
                mkAToken 1 3 (runes ")") atoken.RP;
                mkAToken 1 4 (runes "End") atoken.EOF]
               1 4 1 [] (Some 0%nat))
            aparser.New)).
Proof.
  match goal with
  | |- Statement _ ?st = _ =>
      refine (proj1 (proj1 (lookahead_is_undone no_procs st 0
                              (mkAToken 1 1 (runes "f") atoken.WORD)
                              (mkAToken 1 2 (runes "(") atoken.LP)
                              eq_refl eq_refl eq_refl _ eq_refl) eq_refl))
  end.
  cbn [List.length token_list AToken set_AToken]. lia.
Defined.
(** X19.  [IFStatement_ELSE] steps back one token too far.  When the token
    after an if-block is neither [else] nor [elseif], the procedure has read
    one token and calls [BackToken] twice: it returns with the cursor on the
    token before the one it started on, whatever the other procedures
    are. *)
Theorem IFStatement_ELSE_steps_back_twice :
  forall (self : Procs) (s : AParser) (q : nat) (prev tok : atoken.AToken),
    current_iterator (AToken s) = Some (S q) ->
    nth_error (token_list (AToken s)) q = Some prev ->
    nth_error (token_list (AToken s)) (S q) = Some tok ->
    (S (S q) < List.length (token_list (AToken s)))%nat ->
    tok_Type tok <> atoken.ELSE ->
    tok_Type tok <> atoken.ELSEIF ->
    IFStatement_ELSE self s =
    Ret tt (set_AToken (set_iterator (Some q) (incr_Count (AToken s))) s).
Proof.
  intros self s q prev tok Hc Hp Ht Hlt T1 T2.
  assert (HN : Next (token_list (AToken s)) (S q) = Some (S (S q)))
    by (unfold Next; apply Nat.ltb_lt in Hlt; rewrite Hlt; reflexivity).
  pose proof (parser_Get_at s (S q) tok Hc Ht) as G1. rewrite HN in G1.
  set (s1 := set_AToken (incr_Count (set_iterator (Some (S (S q))) (AToken s))) s) in *.
  assert (B1 : aparser.BackToken s1 =
               Ret tok (set_AToken (set_iterator (Some (S q)) (AToken s1)) s1))
    by (apply parser_BackToken_at; [reflexivity | exact Ht]).
  set (s2 := set_AToken (set_iterator (Some (S q)) (AToken s1)) s1) in *.
  assert (B2 : aparser.BackToken s2 =
               Ret prev (set_AToken (set_iterator (Some q) (incr_Count (AToken s))) s))
    by (apply (parser_BackToken_at s2 q prev); [reflexivity | exact Hp]).
  unfold IFStatement_ELSE.
  unfold bind at 1. rewrite G1.
  rewrite !Type_is_false by assumption.
  unfold bind at 1. rewrite B1.
  unfold bind at 1. rewrite B2.
  reflexivity.
Qed.

Lemma IFStatement_ELSE_steps_back_twice_witness :
  IFStatement_ELSE no_procs
    (set_AToken
       (mkATokenList
          [mkAToken 1 1 (runes "}") atoken.RBRACE;
           mkAToken 1 2 (runes "\n") atoken.EOF;
           mkAToken 2 1 (runes "x") atoken.WORD;
           mkAToken 2 2 (runes "End") atoken.EOF]
          2 2 1 [] (Some 1%nat))
       aparser.New)
  = Ret tt
      (set_AToken
         (mkATokenList
            [mkAToken 1 1 (runes "}") atoken.RBRACE;
             mkAToken 1 2 (runes "\n") atoken.EOF;
             mkAToken 2 1 (runes "x") atoken.WORD;
             mkAToken 2 2 (runes "End") atoken.EOF]
            2 2 2 [] (Some 0%nat))
         aparser.New).
Proof.
  match goal with
  | |- IFStatement_ELSE _ ?st = _ =>
      refine (IFStatement_ELSE_steps_back_twice no_procs st 0
                (mkAToken 1 1 (runes "}") atoken.RBRACE)
                (mkAToken 1 2 (runes "\n") atoken.EOF)
                eq_refl eq_refl eq_refl _ _ _)
  end.
  - cbn [List.length token_list AToken set_AToken]. lia.
  - discriminate.
  - discriminate.
Defined.

(** *** The trees the parser builds *)

Lemma yields_ret {A} (Q : A -> Prop) (a : A) : Q a -> inv.yields Q (ret a).
Proof. intros H s. exact H. Qed.

Lemma yields_timeout {A} (Q : A -> Prop) : inv.yields Q (@timeout AParser A).
Proof. intros s. exact I. Qed.

Lemma yields_unexpected {A} (Q : A -> Prop) token rest :
  inv.yields Q (@unexpected A token rest).
Proof. intros s. exact I. Qed.

Lemma yields_bind {A B} (P : A -> Prop) (Q : B -> Prop) (m : PM A) (k : A -> PM B) :
  inv.yields P m -> (forall a, P a -> inv.yields Q (k a)) -> inv.yields Q (bind m k).
Proof.
  intros Hm Hk s. unfold bind. specialize (Hm s).
  destruct (m s) as [a s1| s1 | |]; auto.
  apply (Hk a Hm s1).
Qed.

Lemma yields_then {A B} (Q : B -> Prop) (m : PM A) (k : A -> PM B) :
  (forall a, inv.yields Q (k a)) -> inv.yields Q (bind m k).
Proof.
  intros Hk. apply (yields_bind (fun _ => True)); [|intros a _; apply Hk].
  intros s. destruct (m s); exact I.
Qed.

Ltac yields_steps :=
  repeat first
    [ apply yields_unexpected
    | apply yields_ret; cbn [inv.parsed_Expression inv.parsed_Term inv.parsed_Factor];
      repeat match goal with H : _ = true |- _ => rewrite H end; reflexivity
    | match goal with
      | |- inv.yields _ (if ?b then _ else _) => destruct b
      end
    | match goal with
      | H : inv.yields ?P ?m |- inv.yields _ (bind ?m _) =>
          apply (yields_bind P); [exact H | cbv beta; intros]
      | H : forall head, _ -> inv.yields ?P (?f head)
        |- inv.yields _ (bind (?f ?h) _) =>
          apply (yields_bind P); [apply H; assumption | cbv beta; intros]
      | H : forall head, _ -> inv.yields _ (?f head) |- inv.yields _ (?f ?h) =>
          apply H; assumption
      end
    | assumption
    | apply yields_then; intros ].

Lemma well_formed_procs (fuel : nat) : inv.well_formed_results (procs fuel).
Proof.
  induction fuel as [|fuel IH].
  - repeat split; intros; apply yields_timeout.
  - destruct IH as (HE & HEl & HT & HTl & HF).
    unfold inv.well_formed_results.
    cbn [procs call_Arithmetic_Expression call_Arithmetic_Expression_loop
         call_Arithmetic_Expression_Term call_Arithmetic_Expression_Term_loop
         call_Arithmetic_Expression_Factor].
    repeat split; intros;
      unfold Arithmetic_Expression, Arithmetic_Expression_loop,
        Arithmetic_Expression_Term, Arithmetic_Expression_Term_loop,
        Arithmetic_Expression_Factor;
      cbv zeta; yields_steps.
Qed.

(** X20.  The parser builds well-formed trees.  Whatever expression
    [ReadBasicExpression] returns, every node of it has its required child,
    carries an operator tag exactly when it has a tail -- '+' or '-' on an
    expression node, one of the five term operators on a term node -- and
    every factor is either a leaf with one of the six leaf tags or a
    parenthesised expression. *)
Theorem parser_builds_well_formed_trees :
  forall fuel str s e s',
    ReadBasicExpression fuel str s = Ret e s' ->
    inv.parsed_Expression e = true.
Proof.
  intros fuel str s e s' H.
  assert (Y : inv.yields (fun e => inv.parsed_Expression e = true)
                (ReadBasicExpression fuel str)).
  { unfold ReadBasicExpression. apply yields_then; intros _.
    apply yields_then; intros _. apply (well_formed_procs fuel). }
  specialize (Y s). rewrite H in Y. exact Y.
Qed.

Lemma parser_builds_well_formed_trees_witness :
  exists e s',
    ReadBasicExpression 40 (runes "(1 + x) * f() - true ") aparser.New = Ret e s' /\
    inv.parsed_Expression e = true.
Proof.
  destruct (ReadBasicExpression 40 (runes "(1 + x) * f() - true ") aparser.New)
    as [e s'| | |] eqn:E; try (vm_compute in E; discriminate E).
  exists e, s'. split; [reflexivity|].
  exact (parser_builds_well_formed_trees _ _ _ e s' E).
Defined.

(** ** The type checker, continued *)

Lemma check_pair_leaf_tags (Type1 Type2 : Z) (out : list conflict) :
  inv.leaf_tag Type1 -> inv.leaf_tag Type2 ->
  check_pair Type1 Type2 out = Ret Type1 out \/
  check_pair Type1 Type2 out = Exit (out ++ [number_bool]).
Proof.
  unfold inv.leaf_tag.
  intros [?|[?|[?|[?|[?|?]]]]] [?|[?|[?|[?|[?|?]]]]]; subst;
    first [left; reflexivity | right; reflexivity].
Qed.

Lemma verdict_bind (out : list conflict) (m : CM Z) (k : Z -> CM Z) :
  inv.verdict out (m out) ->
  (forall T, inv.leaf_tag T -> inv.verdict out (k T out)) ->
  inv.verdict out (bind m k out).
Proof.
  intros [(T & E & L)|E] Hk; unfold bind; rewrite E.
  - apply Hk, L.
  - right. reflexivity.
Qed.

(** X21.  On a well-formed tree -- the trees the parser builds -- the type
    check has exactly two outcomes: it returns one of the six leaf tags and
    prints nothing, or it prints the number/bool conflict once and exits.
    It never panics, and the string and char conflicts cannot be reported:
    no leaf ever carries the STRING or CHAR tag. *)
Theorem CheckType_on_parsed_trees :
  forall s, inv.parsed_Expression s = true ->
    forall out, inv.verdict out (Expression_CheckType s out).
Proof.
  apply (spec.Expression_induction
           (fun s => inv.parsed_Expression s = true ->
              forall out, inv.verdict out (Expression_CheckType s out))
           (fun s => inv.parsed_Term s = true ->
              forall out, inv.verdict out (Term_CheckType s out))
           (fun s => inv.parsed_Factor s = true ->
              forall out, inv.verdict out (Factor_CheckType s out))).
  - intros ty vt ve IHt IHe W out.
    cbn [inv.parsed_Expression] in W. apply andb_prop in W as [Wt We].
    destruct vt as [t|]; [|discriminate]. cbn [spec.on_child] in IHt.
    destruct ve as [e|].
    + apply andb_prop in We as [_ We]. cbn [spec.on_child] in IHe.
      cbn [Expression_CheckType is_nil]. rewrite andb_false_r.
      apply verdict_bind; [apply IHt, Wt|]. intros T1 L1.
      apply verdict_bind; [apply IHe, We|]. intros T2 L2.
      destruct (check_pair_leaf_tags T1 T2 out L1 L2) as [E|E]; rewrite E.
      * left. exists T1. auto.
      * right. reflexivity.
    + cbn [Expression_CheckType is_nil]. rewrite We. apply IHt, Wt.
  - intros ty vt vf IHt IHf W out.
    cbn [inv.parsed_Term] in W. apply andb_prop in W as [Wf Wt].
    destruct vf as [f|]; [|discriminate]. cbn [spec.on_child] in IHf.
    destruct vt as [t|].
    + apply andb_prop in Wt as [_ Wt]. cbn [spec.on_child] in IHt.
      cbn [Term_CheckType is_nil]. rewrite andb_false_r.
      apply verdict_bind; [apply IHf, Wf|]. intros T1 L1.
      apply verdict_bind; [apply IHt, Wt|]. intros T2 L2.
      destruct (check_pair_leaf_tags T1 T2 out L1 L2) as [E|E]; rewrite E.
      * left. exists T1. auto.
      * right. reflexivity.
    + cbn [Term_CheckType is_nil]. rewrite Wt. apply IHf, Wf.
  - intros ty n c b cf ve w l IHe W out.
    cbn [inv.parsed_Factor] in W.
    destruct ve as [e|].
    + apply andb_prop in W as [Wty We]. cbn [spec.on_child] in IHe.
      cbn [Factor_CheckType]. rewrite Wty. apply IHe, We.
    + cbn [Factor_CheckType].
      assert (L : inv.leaf_tag ty).
      { unfold inv.leaf_tag.
        repeat (apply orb_prop in W as [W|W]);
          apply Z.eqb_eq in W; auto 10. }
      assert (N : (ty =? ARITHMETICEXPRESSION) = false).
      { apply Z.eqb_neq. intros ->.
        destruct L as [?|[?|[?|[?|[?|?]]]]]; discriminate. }
      rewrite N. left. exists ty. split; [reflexivity | exact L].
Qed.

Lemma CheckType_on_parsed_trees_witness :
  inv.verdict []
    (Expression_CheckType
       (mkExpression ADD
          (Some (mkTerm 0 None (Some (mkFactor NUMBER None 0 false None None [] 1))))
          (Some (mkExpression 0
                   (Some (mkTerm 0 None
                            (Some (mkFactor BOOL None 0 true None None [] 1))))
                   None)))
       []).
Proof. apply CheckType_on_parsed_trees. reflexivity. Defined.

Lemma check_pair_prints_once (Type1 Type2 : Z) (out : list conflict) :
  match check_pair Type1 Type2 out with
  | Ret _ out' => out' = out
  | Exit out' => exists c, out' = out ++ [c]
  | Panic => False
  | OutOfFuel => False
  end.
Proof.
  unfold check_pair, bind, fatal, modify, os_Exit, ret.
  repeat match goal with
         | |- context [if ?b then _ else _] => destruct b
         end; cbn; eauto.
Qed.

(** X22.  On any tree, the type check stops at the first conflict: a
    returning check has printed nothing, an exiting one has printed exactly
    one line, and no run ends for want of budget. *)
Theorem CheckType_prints_at_most_once :
  forall s out,
    match Expression_CheckType s out with
    | Ret _ out' => out' = out
    | Exit out' => exists c, out' = out ++ [c]
    | Panic => True
    | OutOfFuel => False
    end.
Proof.
  apply (spec.Expression_induction
           (fun s => forall out,
              match Expression_CheckType s out with
              | Ret _ out' => out' = out
              | Exit out' => exists c, out' = out ++ [c]
              | Panic => True
              | OutOfFuel => False
              end)
           (fun s => forall out,
              match Term_CheckType s out with
              | Ret _ out' => out' = out
              | Exit out' => exists c, out' = out ++ [c]
              | Panic => True
              | OutOfFuel => False
              end)
           (fun s => forall out,
              match Factor_CheckType s out with
              | Ret _ out' => out' = out
              | Exit out' => exists c, out' = out ++ [c]
              | Panic => True
              | OutOfFuel => False
              end)).
  - intros ty vt ve IHt IHe out. cbn [Expression_CheckType].
    destruct ((ty =? 0) && is_nil ve).
    + destruct vt as [t|]; [apply IHt | exact I].
    + unfold bind.
      destruct vt as [t|]; [|exact I]. cbn [spec.on_child] in IHt.
      specialize (IHt out).
      destruct (Term_CheckType t out) as [T1 o1| o1 | |]; auto. subst o1.
      destruct ve as [e|]; [|exact I]. cbn [spec.on_child] in IHe.
      specialize (IHe out).
      destruct (Expression_CheckType e out) as [T2 o2| o2 | |]; auto. subst o2.
      pose proof (check_pair_prints_once T1 T2 out) as C.
      destruct (check_pair T1 T2 out); auto.
  - intros ty vt vf IHt IHf out. cbn [Term_CheckType].
    destruct ((ty =? 0) && is_nil vt).
    + destruct vf as [f|]; [apply IHf | exact I].
    + unfold bind.
      destruct vf as [f|]; [|exact I]. cbn [spec.on_child] in IHf.
      specialize (IHf out).
      destruct (Factor_CheckType f out) as [T1 o1| o1 | |]; auto. subst o1.
      destruct vt as [t|]; [|exact I]. cbn [spec.on_child] in IHt.
      specialize (IHt out).
      destruct (Term_CheckType t out) as [T2 o2| o2 | |]; auto. subst o2.
      pose proof (check_pair_prints_once T1 T2 out) as C.
      destruct (check_pair T1 T2 out); auto.
  - intros ty n c b cf ve w l IHe out. cbn [Factor_CheckType].
    destruct (ty =? ARITHMETICEXPRESSION).
    + destruct ve as [e|]; [apply IHe | exact I].
    + reflexivity.
Qed.

(** ** Lex errors, continued *)

Lemma scan_case_illegal (fuel : nat) (data : list rune) (i : Z) (c : rune) :
  inv.illegal_rune c = true ->
  scan_case fuel data i c =
  (PushLexError (runes "illegal token '" ++ [c] ++ runes "'") ;; ret i).
Proof.
  intros H. unfold inv.illegal_rune in H.
  apply andb_true_iff in H as [H Hs]. apply andb_true_iff in H as [Hc Hd].
  apply negb_true_iff in Hs, Hd. apply negb_true_iff in Hc.
  unfold inv.case_rune in Hc.
  do 4 (apply orb_false_iff in Hc; destruct Hc as [Hc ?K]).
  cbn [existsb runes] in Hc.
  repeat (apply orb_false_iff in Hc; destruct Hc as [?K Hc]).
  clear Hc.
  repeat match goal with H : (c =? _) = false |- _ => apply Z.eqb_neq in H end.
  repeat match goal with H : c <> ?x |- _ =>
    let v := eval vm_compute in x in progress change x with v in H end.
  unfold spec.is_digit in Hd.
  not_these_cases c. cbv iota. rewrite Hd, Hs. reflexivity.
Qed.

Lemma judge_number_loop_third_dot (source : list rune) (s : ATokenList) :
  forall (rest pre tmp post : list rune) (dots : Z) (fuel : nat),
    source = pre ++ rest ++ rune_of "." :: post ->
    forallb inv.is_digit_or_dot rest = true ->
    0 <= dots -> dots + inv.count_dots rest = 2 ->
    (List.length rest < fuel)%nat ->
    judge_number_loop fuel tmp dots (len pre) source s =
    (PushLexError (runes "illegal number") ;; ret (tmp ++ rest, len pre + len rest - 1)) s.
Proof.
  induction rest as [|c rest IH]; intros pre tmp post dots fuel Hs Ha Hd Hc Hf;
    (destruct fuel as [|fuel]; [simpl in Hf; lia|]); cbn [judge_number_loop].
  - cbn [app] in Hs. subst source. rewrite len_app, len_cons.
    pose proof (len_nonneg post). pose proof (len_nonneg pre).
    destruct (Z.geb_spec (len pre) (len pre + (1 + len post))); [lia|].
    unfold bind at 1. rewrite at_index_middle.
    change ((rune_of "." >=? rune_of "0") && (rune_of "." <=? rune_of "9")) with false.
    change (is_rune (rune_of ".") ".") with true. cbv iota.
    cbn [inv.count_dots] in Hc.
    destruct (Z.gtb_spec dots 1); [|lia].
    rewrite app_nil_r. change (len (@nil rune)) with 0.
    replace (len pre + 0 - 1) with (len pre - 1) by lia. reflexivity.
  - subst source. cbn [app] in IH |- *. rewrite len_app, len_cons.
    pose proof (len_nonneg (rest ++ rune_of "." :: post)). pose proof (len_nonneg pre).
    destruct (Z.geb_spec (len pre) (len pre + (1 + len (rest ++ rune_of "." :: post)))); [lia|].
    unfold bind at 1. rewrite at_index_middle.
    simpl in Ha. apply andb_true_iff in Ha as [Hcd Ha].
    cbn [inv.count_dots] in Hc.
    assert (Hn : inv.count_dots rest >= 0).
    { clear. induction rest as [|x r IHr]; simpl; [lia|]. destruct (x =? rune_of "."); lia. }
    assert (Eidx : len pre + 1 = len (pre ++ [c]))
      by (rewrite len_app, len_cons; change (len (@nil rune)) with 0; lia).
    assert (Esrc : pre ++ c :: rest ++ rune_of "." :: post
                   = (pre ++ [c]) ++ rest ++ rune_of "." :: post)
      by (rewrite <- app_assoc; reflexivity).
    assert (Eres : len (pre ++ [c]) + len rest - 1 = len pre + len (c :: rest) - 1)
      by (rewrite <- Eidx, len_cons; lia).
    unfold inv.is_digit_or_dot, spec.is_digit in Hcd.
    destruct ((c >=? rune_of "0") && (c <=? rune_of "9")) eqn:Edig.
    + assert (Nd : (c =? rune_of ".") = false).
      { apply Z.eqb_neq. pose proof Edig as R. apply andb_true_iff in R as [R _].
        apply Z.geb_le in R. change (rune_of "0") with 48 in R.
        change (rune_of ".") with 46. lia. }
      rewrite Nd in Hc.
      rewrite Eidx, (IH (pre ++ [c]) (tmp ++ [c]) post dots fuel Esrc);
        auto; try lia; try (simpl in Hf; lia).
      rewrite <- app_assoc, Eres. reflexivity.
    + simpl in Hcd. unfold is_rune. rewrite Hcd in *.
      destruct (Z.gtb_spec dots 1); [lia|].
      rewrite Eidx, (IH (pre ++ [c]) (tmp ++ [c]) post (dots + 1) fuel Esrc);
        auto; try lia; try (simpl in Hf; lia).
      rewrite <- app_assoc, Eres. reflexivity.
Qed.

(** X23.  Lex errors are accumulated and the gate comes after the scan, on
    every input that contains no '!' and no backslash (the characters of
    C9).  From any state the scan of such an input returns, having gone
    through the whole input (the end marker is its last token); the errors
    recorded before are kept in front of the new ones, and they neither stop
    nor change the scan; then [ReadString] exits with the whole batch, and
    the parser's [ReadString] with it, before [MainStatement], exactly when
    at least one error is on record, and otherwise returns with the cursor
    on the first token. *)
Theorem lex_errors_accumulate_and_gate :
  forall (data : list rune) (extra : nat) (s : ATokenList),
    ~ In (rune_of "!") data ->
    ~ In BACKSLASH data ->
    let fuel := (List.length data + 2 + extra)%nat in
    exists s',
      ReadString_loop fuel data 0 s = Ret tt s' /\
      (exists toks l c, token_list s' = toks ++ [mkAToken l c (runes "End") atoken.EOF]) /\
      (exists new, Error_list s' = Error_list s ++ new) /\
      (forall E, ReadString_loop fuel data 0 (spec.with_earlier_errors E s)
                 = Ret tt (spec.with_earlier_errors E s')) /\
      (Error_list s' <> [] ->
         atoken.ReadString fuel data s = Exit s' /\
         forall p, AToken p = s -> aparser.ReadString fuel data p = Exit (set_AToken s' p)) /\
      (Error_list s' = [] ->
         atoken.ReadString fuel data s = Ret tt (set_iterator (Front (token_list s')) s')).
Proof.
  intros data extra s Hbang Hb fuel.
  destruct (ReadString_loop_returns data Hbang Hb fuel 0 s) as [s' H].
  - unfold len; lia.
  - unfold len, fuel; lia.
  - exists s'. split; [exact H|].
    split; [eapply ReadString_loop_reaches_end; eauto|].
    split; [eapply ReadString_loop_appends_errors; eauto|].
    split; [intros E; rewrite error_blind_ReadString_loop, H; reflexivity|].
    split.
    + intros NE.
      assert (G : atoken.ReadString fuel data s = Exit s').
      { unfold atoken.ReadString, bind, get. rewrite H.
        destruct (Error_list s'); [contradiction|]. reflexivity. }
      split; [exact G|].
      intros p <-. unfold aparser.ReadString, bind, on_AToken. rewrite G. reflexivity.
    + intros NE. unfold atoken.ReadString, bind, get. rewrite H, NE. reflexivity.
Qed.

Lemma lex_errors_accumulate_and_gate_witness :
  exists s',
    ReadString_loop 10 (runes "1.2.3.4@") 0 atoken.New = Ret tt s' /\
    List.length (Error_list s') = 2%nat /\
    aparser.ReadString 10 (runes "1.2.3.4@") aparser.New = Exit (set_AToken s' aparser.New).
Proof.
  destruct (lex_errors_accumulate_and_gate (runes "1.2.3.4@") 0 atoken.New)
    as (s' & H & _ & _ & _ & HE & _).
  - cbn. intros [E|[E|[E|[E|[E|[E|[E|[E|[]]]]]]]]]; discriminate E.
  - cbn. intros [E|[E|[E|[E|[E|[E|[E|[E|[]]]]]]]]]; discriminate E.
  - exists s'. split; [exact H|].
    assert (L : List.length (Error_list s') = 2%nat).
    { vm_compute in H. injection H as <-. reflexivity. }
    split; [exact L|].
    apply HE; [|reflexivity].
    intros N. rewrite N in L. discriminate L.
Defined.

(** X24.  The scan goes on after an error.  A character that nothing
    accepts (no case of the [switch], not a digit, not a letter or an
    underscore) records "illegal token" and the scan continues with the next
    character.  A number that meets a third dot records "illegal number",
    is pushed as a NUMBER token holding the text before that dot, and the
    scan continues at that dot.  (The third source of lex errors, the
    unterminated string of X11, is met at the end of the input only.) *)
Theorem scan_goes_on_after_an_error :
  (forall (fuel : nat) (data : list rune) (i : nat) (c : rune) (s : ATokenList),
     nth_error data i = Some c ->
     inv.illegal_rune c = true ->
     ReadString_loop (S fuel) data (Z.of_nat i) s =
     ReadString_loop fuel data (Z.of_nat i + 1)
       {| token_list := token_list s; Line := Line s; Column := Column s + 1;
          Count := Count s;
          Error_list := Error_list s
            ++ [mkALexError (Line s) (Column s) (runes "illegal token '" ++ [c] ++ runes "'")];
          current_iterator := current_iterator s |})
  /\
  (forall (fuel : nat) (pre rest post : list rune) (d : rune) (s : ATokenList),
     spec.is_digit d = true ->
     forallb inv.is_digit_or_dot rest = true ->
     inv.count_dots rest = 2 ->
     (List.length (d :: rest) < fuel)%nat ->
     ReadString_loop (S fuel) (pre ++ (d :: rest) ++ rune_of "." :: post) (len pre) s =
     ReadString_loop fuel (pre ++ (d :: rest) ++ rune_of "." :: post)
       (len pre + len (d :: rest))
       {| token_list := token_list s
            ++ [mkAToken (Line s) (Column s) (d :: rest) atoken.NUMBER];
          Line := Line s; Column := Column s + len (d :: rest);
          Count := Count s;
          Error_list := Error_list s
            ++ [mkALexError (Line s) (Column s) (runes "illegal number")];
          current_iterator := current_iterator s |}).
Proof.
  split.
  - intros fuel data i c s Hc Hi.
    rewrite (ReadString_loop_turn fuel data i c s
               {| token_list := token_list s; Line := Line s; Column := Column s;
                  Count := Count s;
                  Error_list := Error_list s
                    ++ [mkALexError (Line s) (Column s)
                          (runes "illegal token '" ++ [c] ++ runes "'")];
                  current_iterator := current_iterator s |}
               (Z.of_nat i) Hc).
    + unfold set_Line_Column. cbn [token_list Line Column Count Error_list current_iterator].
      replace (Z.of_nat i - Z.of_nat i + 1) with 1 by lia. reflexivity.
    + rewrite (scan_case_illegal fuel data (Z.of_nat i) c Hi). reflexivity.
  - intros fuel pre rest post d s Hd Ha Hdots Hf.
    pose proof (digit_range d Hd) as R.
    assert (Ndot : (d =? rune_of ".") = false)
      by (apply Z.eqb_neq; change (rune_of ".") with 46; lia).
    set (data := pre ++ (d :: rest) ++ rune_of "." :: post).
    assert (Hn : nth_error data (List.length pre) = Some d).
    { unfold data. rewrite nth_error_app2, Nat.sub_diag by lia. reflexivity. }
    assert (J : judge_number fuel (len pre) data s =
                Ret (len pre + len (d :: rest) - 1)
                  {| token_list := token_list s
                       ++ [mkAToken (Line s) (Column s) (d :: rest) atoken.NUMBER];
                     Line := Line s; Column := Column s; Count := Count s;
                     Error_list := Error_list s
                       ++ [mkALexError (Line s) (Column s) (runes "illegal number")];
                     current_iterator := current_iterator s |}).
    { unfold judge_number. unfold bind at 1.
      rewrite (judge_number_loop_third_dot data s (d :: rest) pre [] post 0 fuel);
        [reflexivity | reflexivity | | lia | | exact Hf].
      - cbn [forallb]. rewrite Ha. unfold inv.is_digit_or_dot. rewrite Hd. reflexivity.
      - cbn [inv.count_dots]. rewrite Ndot. lia. }
    rewrite <- (scan_case_digit fuel data (len pre) d Hd) in J.
    change (len pre) with (Z.of_nat (List.length pre)) in J at 1.
    change (len pre) with (Z.of_nat (List.length pre)) at 1.
    rewrite (ReadString_loop_turn fuel data (List.length pre) d s _ _ Hn J).
    unfold set_Line_Column. cbn [token_list Line Column Count Error_list current_iterator].
    change (Z.of_nat (List.length pre)) with (len pre).
    replace (len pre + len (d :: rest) - 1 + 1) with (len pre + len (d :: rest)) by lia.
    replace (len pre + len (d :: rest) - 1 - len pre + 1) with (len (d :: rest)) by lia.
    reflexivity.
Qed.

Lemma scan_goes_on_after_an_error_witness :
  ReadString_loop 3 (runes "@x") 0 atoken.New =
  ReadString_loop 2 (runes "@x") 1
    {| token_list := []; Line := 1; Column := 2; Count := 1;
       Error_list := [mkALexError 1 1 (runes "illegal token '@'")];
       current_iterator := None |}
  /\
  ReadString_loop 9 (runes "1.2.3.4") 0 atoken.New =
  ReadString_loop 8 (runes "1.2.3.4") 5
    {| token_list := [mkAToken 1 1 (runes "1.2.3") atoken.NUMBER];
       Line := 1; Column := 6; Count := 1;
       Error_list := [mkALexError 1 1 (runes "illegal number")];
       current_iterator := None |}.
Proof.
  destruct scan_goes_on_after_an_error as [B C].
  split.
  - apply (B 2%nat (runes "@x") 0%nat (rune_of "@") atoken.New); reflexivity.
  - apply (C 8%nat [] (runes ".2.3") (runes "4") (rune_of "1") atoken.New);
      try reflexivity.
    simpl. lia.
Defined.
